(** * LIFO page-replacement simulator: the simulation engine of script.js

    A shallow embedding of [src/script.js]: the engine
    ([buildStateHistory]), the loader in front of it ([loadAndValidate], with
    the text that [generateRandomString] writes), the counters of
    [renderStats], and the playback around it (the cursor, the buttons, the
    auto-play timer and the log of [startSimulation], [nextStep],
    [previousStep], [startAutoPlay], [pauseAutoPlay], [setSpeed] and
    [resetSimulator]); followed by the properties of the step history that
    the engine builds, of the loader and of the playback.

    Conventions of the embedding.
    - JavaScript numbers that occur here are integers (page numbers come from
      [parseInt] of digit strings, indices from [indexOf], counters from
      [++]); they are modelled as [Z].  A JavaScript number is a double,
      which holds every integer up to 2^53 = 9007199254740992 exactly:
      reading a number from digits and writing it as digits are modelled as
      exact, which is what the code does below that value; the statements
      about page numbers read from text, or written as text, carry this
      bound.
    - A JavaScript array is a [list]; the top of the replacement stack is the
      LAST element, as with [push] and [pop].
    - [[...frames]] copies the array, so the snapshots stored in a step record
      are plain values: no aliasing with the working arrays remains.
    - [new Array(n)] throws [RangeError] unless [n] is an array length,
      0 <= n < 2^32 = 4294967296: this is modelled, and the statements about
      a run of the engine carry this bound on the frame count.  Memory is
      not modelled: a frames array of any such length is taken to fit, and
      the arrays that grow by [push] (the stack, the history) are unbounded
      lists. *)

From Stdlib Require Import ZArith Lia Ascii String.
From stdpp Require Import base list gmap sets strings pretty.

Local Open Scope Z_scope.

(** ** JavaScript values stored in the arrays and records *)

(** A frame slot holds [null] or a page number; [replacedPage] is [null], a
    page number, or [undefined] (the result of [pop] on an empty array). *)
Inductive jsval : Type :=
  | JNull
  | JUndefined
  | JNum (n : Z).

#[global] Instance jsval_eq_dec : EqDecision jsval.
Proof. solve_decision. Defined.

(** The only exception the engine can raise. *)
Inductive js_error : Type :=
  | RangeError.

(** How a call ends: normally, or by a thrown exception.  Both carry the
    global [state] object as the call left it. *)
Inductive completion (A : Type) : Type :=
  | Normal (a : A)
  | Throw (e : js_error) (a : A).
Arguments Normal {A} a.
Arguments Throw {A} e a.

(** ** Array primitives *)

(** [a.indexOf(x)]: the first index whose element is strictly equal to [x],
    or -1.  On [null], [undefined] and integers, [===] is structural
    equality. *)
Fixpoint indexOf_from (x : jsval) (a : list jsval) (k : Z) : Z :=
  match a with
  | [] => -1
  | y :: a' => if decide (y = x) then k else indexOf_from x a' (k + 1)
  end.

Definition indexOf (x : jsval) (a : list jsval) : Z := indexOf_from x a 0.

(** [a[i] = v] for an index [i] that [indexOf] returned.  In range the
    element is replaced.  For -1 JavaScript stores [v] under the property
    name "-1": the elements, the length, [indexOf] and the spread copy do not
    see it, so the list is unchanged.  ([indexOf] never returns an index at
    or beyond the length, see [indexOf_bounds].) *)
Definition array_set (a : list jsval) (i : Z) (v : jsval) : list jsval :=
  if (0 <=? i) && (i <? Z.of_nat (length a))
  then <[Z.to_nat i := v]> a
  else a.

(** [s.pop()]: removes and returns the last element; on an empty array it
    returns [undefined] and leaves the array empty. *)
Definition pop (s : list Z) : jsval * list Z :=
  match last s with
  | Some v => (JNum v, removelast s)
  | None => (JUndefined, s)
  end.

(** [new Array(n).fill(null)] for an integer [n].  [new Array(n)] throws
    [RangeError] unless [n] is an array length, an integer from 0 to
    2^32 - 1 = 4294967295; [None] stands for that exception. *)
Definition new_Array_fill_null (n : Z) : option (list jsval) :=
  if (n <? 0) || (4294967295 <? n) then None
  else Some (replicate (Z.to_nat n) JNull).

(** ** The records of the program *)

(** [stepData], one per reference. *)
Module StepData.
Record t : Type := mk {
  step : Z;
  page : Z;
  frames : list jsval;
  stack : list Z;
  isHit : bool;
  isFault : bool;
  replacedPage : jsval;
  replacedIndex : Z;
  newPageIndex : Z
}.
End StepData.

(** The global [state] object, restricted to the fields that the modelled
    functions read or write (the playback fields [isPlaying], [playInterval]
    and [speed] are left out). *)
Module State.
Record t : Type := mk {
  frames : Z;
  referenceString : list Z;
  stateHistory : list StepData.t;
  currentStep : Z;
  isLoaded : bool;
  totalHits : Z;
  totalFaults : Z
}.

(** The object literal at the top of script.js. *)
Definition initial : t := mk 3 [] [] (-1) false 0 0.
End State.

(** ** buildStateHistory *)

(** What the loop of [buildStateHistory] carries from one iteration to the
    next: the global object and the two local arrays. *)
Record env : Type := Env {
  g : State.t;
  frames : list jsval;
  stack : list Z
}.

Definition count_hit (s : State.t) : State.t :=
  State.mk (State.frames s) (State.referenceString s) (State.stateHistory s)
    (State.currentStep s) (State.isLoaded s)
    (State.totalHits s + 1) (State.totalFaults s).

Definition count_fault (s : State.t) : State.t :=
  State.mk (State.frames s) (State.referenceString s) (State.stateHistory s)
    (State.currentStep s) (State.isLoaded s)
    (State.totalHits s) (State.totalFaults s + 1).

Definition push_history (sd : StepData.t) (s : State.t) : State.t :=
  State.mk (State.frames s) (State.referenceString s)
    (State.stateHistory s ++ [sd])
    (State.currentStep s) (State.isLoaded s)
    (State.totalHits s) (State.totalFaults s).

(** The body of the loop up to, and without, the final
    [state.stateHistory.push(stepData)]: the finished [stepData] and the
    variables as the body leaves them. *)
Definition process (i : Z) (page : Z) (e : env) : StepData.t * env :=
  let pageIndex := indexOf (JNum page) (frames e) in
  if negb (pageIndex =? -1) then
    (* PAGE HIT *)
    (StepData.mk (i + 1) page (frames e) (stack e) true false JNull (-1) (-1),
     Env (count_hit (g e)) (frames e) (stack e))
  else
    (* PAGE FAULT *)
    let emptyIndex := indexOf JNull (frames e) in
    if negb (emptyIndex =? -1) then
      (* Empty frame available *)
      let frames' := array_set (frames e) emptyIndex (JNum page) in
      let stack' := stack e ++ [page] in
      (StepData.mk (i + 1) page frames' stack' false true JNull (-1) emptyIndex,
       Env (count_fault (g e)) frames' stack')
    else
      (* No empty frame - use LIFO (replace top of stack) *)
      let '(pageToReplace, popped) := pop (stack e) in
      let replaceIndex := indexOf pageToReplace (frames e) in
      let frames' := array_set (frames e) replaceIndex (JNum page) in
      let stack' := popped ++ [page] in
      (StepData.mk (i + 1) page frames' stack' false true
         pageToReplace replaceIndex replaceIndex,
       Env (count_fault (g e)) frames' stack').

Definition loop_body (i : Z) (page : Z) (e : env) : env :=
  let '(stepData, e') := process i page e in
  Env (push_history stepData (g e')) (frames e') (stack e').

(** [for (let i = ...; i < state.referenceString.length; i++)], started at
    index [i] with the references from [i] on still to be read. *)
Fixpoint for_loop (i : Z) (rest : list Z) (e : env) : env :=
  match rest with
  | [] => e
  | page :: rest' => for_loop (i + 1) rest' (loop_body i page e)
  end.

(** The three assignments that open [buildStateHistory]. *)
Definition clear_history (s : State.t) : State.t :=
  State.mk (State.frames s) (State.referenceString s) []
    (State.currentStep s) (State.isLoaded s) 0 0.

Definition buildStateHistory (s : State.t) : completion State.t :=
  let s0 := clear_history s in
  match new_Array_fill_null (State.frames s0) with
  | None => Throw RangeError s0
  | Some frames0 =>
      Normal (g (for_loop 0 (State.referenceString s0) (Env s0 frames0 [])))
  end.

(** ** renderStats *)

(** The counting loop of [renderStats]:
    [for (i = 0; i <= state.currentStep && i < state.stateHistory.length; i++)],
    with [rest] the records from index [i] on. *)
Fixpoint stats_loop (i cur : Z) (rest : list StepData.t) (hits faults : Z)
  : Z * Z :=
  match rest with
  | [] => (hits, faults)
  | sd :: rest' =>
      if i <=? cur then
        stats_loop (i + 1) cur rest'
          (if StepData.isHit sd then hits + 1 else hits)
          (if StepData.isFault sd then faults + 1 else faults)
      else (hits, faults)
  end.

(** What [renderStats] writes into the page. *)
Module Stats.
Record t : Type := mk {
  totalHits : Z;
  totalFaults : Z;
  currentStep : Z;
  totalSteps : Z;
  hitRatio : string
}.
End Stats.

Section RenderStats.

(** [toFixed1 hits total] stands for [((hits / total) * 100).toFixed(1)], a
    floating-point division and formatting that the embedding leaves
    abstract. *)
Variable toFixed1 : Z -> Z -> string.

Definition renderStats (s : State.t) : Stats.t :=
  let '(hits, faults) :=
    stats_loop 0 (State.currentStep s) (State.stateHistory s) 0 0 in
  let total := hits + faults in
  let ratio := if total >? 0 then toFixed1 hits total else "0"%string in
  Stats.mk hits faults (State.currentStep s + 1)
    (Z.of_nat (length (State.stateHistory s)))
    (ratio +:+ "%").

End RenderStats.

(** ** loadAndValidate *)

(** The text of the reference-string field is taken to be ASCII.  [\s] and
    [trim] on ASCII: tab, line feed, vertical tab, form feed, carriage
    return, space.  (Beyond ASCII they also match the no-break space
    U+00A0, U+FEFF, U+2028, U+2029 and the other Unicode space separators:
    a text with such characters is outside the embedding.) *)
Definition is_space (c : ascii) : bool :=
  let n := Ascii.nat_of_ascii c in
  ((9 <=? n) && (n <=? 13))%nat || (n =? 32)%nat.

(** The character class [[\s,]]. *)
Definition is_separator (c : ascii) : bool :=
  is_space c || (Ascii.nat_of_ascii c =? 44)%nat.

(** [\d]. *)
Definition is_digit (c : ascii) : bool :=
  let n := Ascii.nat_of_ascii c in
  ((48 <=? n) && (n <=? 57))%nat.

Fixpoint trim_start (s : string) : string :=
  match s with
  | String c s' => if is_space c then trim_start s' else s
  | EmptyString => EmptyString
  end.

(** [s.trim()]. *)
Definition trim (s : string) : string :=
  String.rev (trim_start (String.rev (trim_start s))).

(** The pieces of [s] between separator characters; [cur] is the piece being
    read, reversed.  [split(/[\s,]+/)] cuts at whole runs of separators: its
    result differs from this one only in empty pieces, all of which the
    [filter(s => s !== '')] that follows removes. *)
Fixpoint split_pieces (s : string) (cur : string) : list string :=
  match s with
  | EmptyString => [String.rev cur]
  | String c s' =>
      if is_separator c then String.rev cur :: split_pieces s' EmptyString
      else split_pieces s' (String c cur)
  end.

(** [refString.split(/[\s,]+/).map(s => s.trim()).filter(s => s !== '')]. *)
Definition tokens (refString : string) : list string :=
  filter (λ p, p ≠ EmptyString) (trim <$> split_pieces refString EmptyString).

Fixpoint all_digits (s : string) : bool :=
  match s with
  | EmptyString => true
  | String c s' => is_digit c && all_digits s'
  end.

(** [/^\d+$/.test(p)]. *)
Definition digits_only (p : string) : bool :=
  negb (String.eqb p EmptyString) && all_digits p.

Fixpoint parse_digits (s : string) (acc : Z) : Z :=
  match s with
  | EmptyString => acc
  | String c s' =>
      parse_digits s' (10 * acc + (Z.of_nat (Ascii.nat_of_ascii c) - 48))
  end.

(** [parseInt(p)] on a string of decimal digits: the integer that the digits
    denote.  [parseInt] returns a double, so this is the result of the code
    for tokens that denote an integer up to 2^53 = 9007199254740992; above
    it the code rounds to the nearest double (and answers [Infinity] from
    about 309 digits), which is not modelled.  The statements about the
    loaded pages bound the tokens accordingly. *)
Definition parseInt_digits (p : string) : Z := parse_digits p 0.

(** The first token that fails the digit test, if any: the checking loop. *)
Fixpoint first_invalid (pages : list string) : option string :=
  match pages with
  | [] => None
  | p :: pages' => if digits_only p then first_invalid pages' else Some p
  end.

(** The messages given to [showAlert]. *)
Inductive alert : Type :=
  | Alert_invalid_frames          (* 'Please enter a valid number of frames (1-10)', error *)
  | Alert_no_reference_string     (* 'Please enter a reference string', error *)
  | Alert_invalid_value (p : string)   (* 'Invalid value ... in reference string', error *)
  | Alert_loaded (pages frames : Z).   (* 'Loaded successfully! ...', success *)

Definition store_input (framesValue : Z) (numericPages : list Z) (s : State.t)
  : State.t :=
  State.mk framesValue numericPages (State.stateHistory s)
    (State.currentStep s) true (State.totalHits s) (State.totalFaults s).

(** [loadAndValidate], from the two field values to the global object and the
    alert shown.  [framesValue] is the result of
    [parseInt(elements.framesInput.value)], [None] standing for [NaN];
    [refStringInput] is [elements.refStringInput.value].  The rendering calls
    and the enabling of the buttons, which touch only the page, are left
    out. *)
Definition loadAndValidate (framesValue : option Z) (refStringInput : string)
  (s : State.t) : completion State.t * option alert :=
  match framesValue with
  | None => (Normal s, Some Alert_invalid_frames)
  | Some fv =>
      if (fv <? 1) || (fv >? 10) then (Normal s, Some Alert_invalid_frames)
      else
        let refString := trim refStringInput in
        if String.eqb refString EmptyString
        then (Normal s, Some Alert_no_reference_string)
        else
          let pages := tokens refString in
          match first_invalid pages with
          | Some p => (Normal s, Some (Alert_invalid_value p))
          | None =>
              let numericPages := parseInt_digits <$> pages in
              match buildStateHistory (store_input fv numericPages s) with
              | Normal s' =>
                  (Normal s',
                   Some (Alert_loaded (Z.of_nat (length numericPages)) fv))
              | Throw err s' => (Throw err s', None)
              end
          end
  end.

(** ** Notions used in the statements *)

(** The variables of the loop when it is entered. *)
Definition entry (s : State.t) : env :=
  Env (clear_history s) (replicate (Z.to_nat (State.frames s)) JNull) [].

(** The variables of the loop when iteration [i] begins, that is after the
    references 0 .. i-1 have been processed. *)
Definition env_before (s : State.t) (i : nat) : env :=
  for_loop 0 (take i (State.referenceString s)) (entry s).

(** The pages that the faults of a history loaded, oldest first. *)
Definition loads (h : list StepData.t) : list Z :=
  StepData.page <$> filter (λ r, StepData.isFault r = true) h.

(** The pages held by the frame slots, in slot order. *)
Definition pages_of (fr : list jsval) : list Z :=
  omap (λ v, match v with JNum p => Some p | _ => None end) fr.

(** The invariant of the loop for [n] frames: the frames array has [n]
    slots, each empty or holding a page; no page is held by two slots or
    occurs twice in the stack; and the stack holds exactly the resident
    pages. *)
Record coherent (n : Z) (fr : list jsval) (sk : list Z) : Prop := {
  coh_length : Z.of_nat (length fr) = n;
  coh_cells : ∀ v, v ∈ fr → v ≠ JUndefined;
  coh_slots : ∀ (i j : nat) (p : Z),
    fr !! i = Some (JNum p) → fr !! j = Some (JNum p) → i = j;
  coh_stack : NoDup sk;
  coh_same : ∀ p, JNum p ∈ fr ↔ p ∈ sk
}.

(** ** Further notions: layout of the frames, counts of outcomes *)

(** The frames array spells the stack, slot by slot from slot 0, and the
    slots after it are empty. *)
Definition packed (n : Z) (fr : list jsval) (sk : list Z) : Prop :=
  fr = (JNum <$> sk) ++ replicate (Z.to_nat n - length sk) JNull ∧
  (length sk ≤ Z.to_nat n)%nat.

(** The number of hit records, and of fault records, in a history. *)
Definition count_hits (h : list StepData.t) : Z :=
  Z.of_nat (length (filter (λ r, StepData.isHit r = true) h)).

Definition count_faults (h : list StepData.t) : Z :=
  Z.of_nat (length (filter (λ r, StepData.isFault r = true) h)).

(** [state.currentStep = c]. *)
Definition with_currentStep (c : Z) (s : State.t) : State.t :=
  State.mk (State.frames s) (State.referenceString s) (State.stateHistory s)
    c (State.isLoaded s) (State.totalHits s) (State.totalFaults s).

(** ** Further notions: the text of the reference-string field *)

(** [String(n)] for an integer [n], as [join] applies it: its decimal
    numeral.  This is what the code writes for the integers up to 2^53 in
    absolute value; above, a JavaScript number is a rounded double, printed
    with the shortest digits that give it back, and from 10^21 in exponent
    notation, which is not modelled.  The statements about written numbers
    bound them accordingly. *)
Definition number_text (n : Z) : string := pretty n.

(** [l.join(' ')] on strings. *)
Fixpoint join_space (l : list string) : string :=
  match l with
  | [] => EmptyString
  | x :: l' =>
      match l' with
      | [] => x
      | _ :: _ => x +:+ " " +:+ join_space l'
      end
  end.

(** [generateRandomString], as a function of the random draws:
    [lengthDraw] is the value of [Math.floor(Math.random() * 6)] and
    [pageDraw i] the value of [Math.floor(Math.random() * maxPage)] in
    iteration [i] of the loop.  The result is the text written into the
    reference-string field. *)
Definition generateRandomString (lengthDraw : Z) (pageDraw : nat → Z) : string :=
  let length := lengthDraw + 8 in
  let randomPages := pageDraw <$> seq 0 (Z.to_nat length) in
  join_space (number_text <$> randomPages).

(** Strings without a separator character, made of separator characters
    only, made of whitespace only. *)
Fixpoint no_separator (s : string) : bool :=
  match s with
  | EmptyString => true
  | String c s' => negb (is_separator c) && no_separator s'
  end.

Fixpoint all_separators (s : string) : bool :=
  match s with
  | EmptyString => true
  | String c s' => is_separator c && all_separators s'
  end.

Fixpoint all_spaces (s : string) : bool :=
  match s with
  | EmptyString => true
  | String c s' => is_space c && all_spaces s'
  end.

(** A text given by its tokens, each with the run of separators that follows
    it. *)
Fixpoint interleave (items : list (string * string)) : string :=
  match items with
  | [] => EmptyString
  | (t, sep) :: items' => t +:+ sep +:+ interleave items'
  end.

(** Each token is non-empty and free of separators, each run consists of
    separators, and only the last run may be empty. *)
Fixpoint well_separated (items : list (string * string)) : Prop :=
  match items with
  | [] => True
  | (t, sep) :: items' =>
      t ≠ EmptyString ∧ no_separator t = true ∧ all_separators sep = true ∧
      (items' ≠ [] → sep ≠ EmptyString) ∧ well_separated items'
  end.

(** The tokens of a text of which the piece [cur] (reversed) has been read
    already; [tokens s] is [tokens_from s ""]. *)
Definition tokens_from (s cur : string) : list string :=
  filter (λ p, p ≠ EmptyString) (trim <$> split_pieces s cur).

(** ** The page around the engine: cursor, buttons, timer and log

    The playback functions of script.js, on the part of the page that they
    read back: the global [state], the [disabled] flags of the five playback
    buttons, the entries of the log container and the intervals that are
    armed.  What is only written (the table, the stack view, the statistics)
    is given by [renderStats] above and the view functions below.  The text
    of a log entry is kept as the data it is built from. *)

(** Exceptions of the page: [TypeError] when a property of [undefined] is
    read, or an exception of the engine. *)
Inductive page_error : Type :=
  | TypeError
  | EngineError (e : js_error).

(** How a handler ends.  An exception that escapes a handler is reported by
    the browser and the page goes on from the state the handler left. *)
Inductive outcome (A : Type) : Type :=
  | Done (a : A)
  | Failed (e : page_error) (a : A).
Arguments Done {A} a.
Arguments Failed {A} e a.

Definition after {A : Type} (o : outcome A) : A :=
  match o with Done a => a | Failed _ a => a end.

(** The sentence of a log entry that tells the outcome. *)
Inductive log_message : Type :=
  | Log_hit                                     (* HIT! Page already in memory. *)
  | Log_replaced (replaced : jsval) (frame : Z) (* Replaced page P (top of stack) in Frame F. *)
  | Log_loaded (frame : Z).                     (* Loaded into empty Frame F. *)

(** A child of the log container: step number, page, message, the stack
    from top to bottom (empty for 'Stack: empty'), the class [hit] or
    [fault], and the class [current]. *)
Module LogEntry.
Record t : Type := mk {
  step : Z;
  page : Z;
  message : log_message;
  stackDisplay : list Z;
  hit : bool;
  current : bool
}.

Definition set_current (b : bool) (e : t) : t :=
  mk (step e) (page e) (message e) (stackDisplay e) (hit e) b.
End LogEntry.

(** The entry that [addLogEntry] builds from a step record. *)
Definition log_entry_of (stepData : StepData.t) : LogEntry.t :=
  LogEntry.mk (StepData.step stepData) (StepData.page stepData)
    (if StepData.isHit stepData then Log_hit
     else if decide (StepData.replacedPage stepData ≠ JNull)
          then Log_replaced (StepData.replacedPage stepData)
                 (StepData.newPageIndex stepData + 1)
          else Log_loaded (StepData.newPageIndex stepData + 1))
    (reverse (StepData.stack stepData))
    (StepData.isHit stepData)
    true.

(** The alerts of the page. *)
Inductive notice : Type :=
  | Notice_load (a : alert)   (* the alerts of [loadAndValidate] *)
  | Notice_not_loaded         (* 'Please load a reference string first', error *)
  | Notice_reset.             (* 'Simulator reset. Enter new values to begin.', info *)

(** The [disabled] flags of the playback buttons. *)
Module Buttons.
Record t : Type := mk {
  startBtn : bool;
  prevBtn : bool;
  nextBtn : bool;
  playBtn : bool;
  pauseBtn : bool
}.
End Buttons.

Module Page.

(** [intervals] are the intervals armed in the browser, each with its id and
    delay, all running the auto-play callback; [nextTimer] is the id that
    the next [setInterval] returns (ids are positive and never reused; their
    values do not matter otherwise).  [notices] are the alerts shown so far,
    oldest first. *)
Record t : Type := mk {
  state : State.t;
  isPlaying : bool;
  playInterval : option positive;
  speed : Z;
  intervals : list (positive * Z);
  nextTimer : positive;
  buttons : Buttons.t;
  log : list LogEntry.t;
  notices : list notice
}.

Definition set_state (s : State.t) (u : t) : t :=
  mk s (isPlaying u) (playInterval u) (speed u) (intervals u) (nextTimer u)
    (buttons u) (log u) (notices u).

Definition set_isPlaying (b : bool) (u : t) : t :=
  mk (state u) b (playInterval u) (speed u) (intervals u) (nextTimer u)
    (buttons u) (log u) (notices u).

Definition set_playInterval (i : option positive) (u : t) : t :=
  mk (state u) (isPlaying u) i (speed u) (intervals u) (nextTimer u)
    (buttons u) (log u) (notices u).

Definition set_speed (d : Z) (u : t) : t :=
  mk (state u) (isPlaying u) (playInterval u) d (intervals u) (nextTimer u)
    (buttons u) (log u) (notices u).

Definition set_buttons (b : Buttons.t) (u : t) : t :=
  mk (state u) (isPlaying u) (playInterval u) (speed u) (intervals u)
    (nextTimer u) b (log u) (notices u).

Definition set_log (l : list LogEntry.t) (u : t) : t :=
  mk (state u) (isPlaying u) (playInterval u) (speed u) (intervals u)
    (nextTimer u) (buttons u) l (notices u).

(** [showAlert]. *)
Definition showAlert (n : notice) (u : t) : t :=
  mk (state u) (isPlaying u) (playInterval u) (speed u) (intervals u)
    (nextTimer u) (buttons u) (log u) (notices u ++ [n]).

(** [state.currentStep = c]. *)
Definition set_currentStep (c : Z) (u : t) : t :=
  set_state (with_currentStep c (state u)) u.

Definition currentStep (u : t) : Z := State.currentStep (state u).

(** [state.stateHistory.length]. *)
Definition steps (u : t) : Z :=
  Z.of_nat (length (State.stateHistory (state u))).

(** [state.stateHistory[c]]: [undefined] outside the array. *)
Definition history_at (u : t) (c : Z) : option StepData.t :=
  if c <? 0 then None else State.stateHistory (state u) !! Z.to_nat c.

(** [setInterval(callback, delay)]: the id and the page with the interval
    armed. *)
Definition setInterval (delay : Z) (u : t) : positive * t :=
  (nextTimer u,
   mk (state u) (isPlaying u) (playInterval u) (speed u)
     (intervals u ++ [(nextTimer u, delay)]) (Pos.succ (nextTimer u))
     (buttons u) (log u) (notices u)).

(** [clearInterval(id)]. *)
Definition clearInterval (id : positive) (u : t) : t :=
  mk (state u) (isPlaying u) (playInterval u) (speed u)
    (filter (λ t, t.1 ≠ id) (intervals u)) (nextTimer u)
    (buttons u) (log u) (notices u).

Definition updateNavigationButtons (u : t) : t :=
  set_buttons
    (Buttons.mk (Buttons.startBtn (buttons u))
       (currentStep u <=? 0)
       (currentStep u >=? steps u - 1)
       (Buttons.playBtn (buttons u)) (Buttons.pauseBtn (buttons u)))
    u.

Definition clearLog (u : t) : t := set_log [] u.

(** [addLogEntry(stepData)]: takes the class [current] off every entry,
    then builds the new entry, which reads [stepData.page] first and so
    throws on [undefined], and appends it. *)
Definition addLogEntry (stepData : option StepData.t) (u : t) : outcome t :=
  let u1 := set_log (LogEntry.set_current false <$> log u) u in
  match stepData with
  | None => Failed TypeError u1
  | Some sd => Done (set_log (log u1 ++ [log_entry_of sd]) u1)
  end.

(** [updateLogHighlight]: the class [current] goes to the entry whose
    position is the cursor, if there is one. *)
Definition updateLogHighlight (u : t) : t :=
  set_log
    (imap (λ index, LogEntry.set_current (Z.of_nat index =? currentStep u))
       (log u))
    u.

Definition startSimulation (u : t) : outcome t :=
  if negb (State.isLoaded (state u)) then Done (showAlert Notice_not_loaded u)
  else
    let u1 := set_currentStep 0 u in
    let u2 := set_buttons (Buttons.mk true true (steps u1 <=? 1) false true) u1 in
    (* renderCurrentStep() writes the views only *)
    addLogEntry (history_at u2 0) (clearLog u2).

Definition nextStep (u : t) : outcome t :=
  if currentStep u >=? steps u - 1 then Done u
  else
    let u1 := set_currentStep (currentStep u + 1) u in
    match addLogEntry (history_at u1 (currentStep u1)) u1 with
    | Done u2 => Done (updateNavigationButtons u2)
    | Failed e u2 => Failed e u2
    end.

Definition previousStep (u : t) : t :=
  if currentStep u <=? 0 then u
  else
    let u1 := set_currentStep (currentStep u - 1) u in
    updateNavigationButtons (updateLogHighlight u1).

Definition pauseAutoPlay (u : t) : t :=
  let u1 := set_isPlaying false u in
  let u2 :=
    match playInterval u1 with
    | Some id => set_playInterval None (clearInterval id u1)
    | None => u1
    end in
  let u3 :=
    set_buttons
      (Buttons.mk (Buttons.startBtn (buttons u2)) (Buttons.prevBtn (buttons u2))
         (Buttons.nextBtn (buttons u2)) false true)
      u2 in
  updateNavigationButtons u3.

(** The callback given to [setInterval], in [startAutoPlay] and in
    [setSpeed]. *)
Definition autoPlayTick (u : t) : outcome t :=
  if currentStep u >=? steps u - 1 then Done (pauseAutoPlay u)
  else
    let u1 := set_currentStep (currentStep u + 1) u in
    addLogEntry (history_at u1 (currentStep u1)) u1.

Definition startAutoPlay (u : t) : t :=
  let u1 :=
    if currentStep u >=? steps u - 1
    then clearLog (set_currentStep (-1) u)   (* back to the beginning *)
    else u in
  let u2 := set_isPlaying true u1 in
  let u3 :=
    set_buttons (Buttons.mk (Buttons.startBtn (buttons u2)) true true true false)
      u2 in
  let '(id, u4) := setInterval (speed u3) u3 in
  set_playInterval (Some id) u4.

(** [setSpeed(btn)], with [newSpeed] the value of
    [parseInt(btn.dataset.speed)]. *)
Definition setSpeed (newSpeed : Z) (u : t) : t :=
  let u1 := set_speed newSpeed u in
  if isPlaying u1 then
    let u2 :=
      match playInterval u1 with
      | Some id => clearInterval id u1
      | None => u1
      end in
    let '(id, u3) := setInterval (speed u2) u2 in
    set_playInterval (Some id) u3
  else u1.

Definition resetSimulator (u : t) : t :=
  let u1 := pauseAutoPlay u in
  let u2 :=
    set_state (State.mk (State.frames (state u1)) [] [] (-1) false 0 0) u1 in
  let u3 := clearLog u2 in
  let u4 := set_buttons (Buttons.mk true true true true true) u3 in
  showAlert Notice_reset u4.

(** [loadAndValidate] with what it does to the page after the engine has
    run: the log is cleared, [Start] is enabled and the other four playback
    buttons are disabled. *)
Definition loadAndValidate (framesValue : option Z) (refStringInput : string)
  (u : t) : outcome t :=
  match loadAndValidate framesValue refStringInput (state u) with
  | (Normal s', Some (Alert_loaded pages fv)) =>
      let u1 := clearLog (set_state s' u) in
      let u2 := set_buttons (Buttons.mk false true true true true) u1 in
      Done (showAlert (Notice_load (Alert_loaded pages fv)) u2)
  | (Normal s', Some a) => Done (showAlert (Notice_load a) (set_state s' u))
  | (Normal s', None) => Done (set_state s' u)
  | (Throw e s', _) => Failed (EngineError e) (set_state s' u)
  end.

(** The keys that [setupKeyboardShortcuts] tells apart. *)
Inductive key : Type :=
  | ArrowLeft
  | ArrowRight
  | Space
  | OtherKey.

(** The events that [setupEventListeners] and [setupKeyboardShortcuts]
    listen to, and the firing of an interval.  The Random and Example
    buttons write into the two input fields only; the values of the fields
    come with the click on Load. *)
Inductive event : Type :=
  | Click_load (framesValue : option Z) (refStringInput : string)
  | Click_reset
  | Click_start
  | Click_prev
  | Click_next
  | Click_play
  | Click_pause
  | Click_speed (newSpeed : Z)
  | Keydown (k : key)
  | Interval_fires (id : positive).

(** The dispatch of an event.  A disabled button does not receive clicks,
    and an interval fires only while it is armed. *)
Definition handle (e : event) (u : t) : outcome t :=
  match e with
  | Click_load framesValue refStringInput =>
      loadAndValidate framesValue refStringInput u
  | Click_reset => Done (resetSimulator u)
  | Click_start =>
      if Buttons.startBtn (buttons u) then Done u else startSimulation u
  | Click_prev =>
      if Buttons.prevBtn (buttons u) then Done u else Done (previousStep u)
  | Click_next =>
      if Buttons.nextBtn (buttons u) then Done u else nextStep u
  | Click_play =>
      if Buttons.playBtn (buttons u) then Done u else Done (startAutoPlay u)
  | Click_pause =>
      if Buttons.pauseBtn (buttons u) then Done u else Done (pauseAutoPlay u)
  | Click_speed newSpeed => Done (setSpeed newSpeed u)
  | Keydown k =>
      if negb (State.isLoaded (state u)) then Done u
      else
        match k with
        | ArrowLeft => Done (previousStep u)
        | ArrowRight => nextStep u
        | Space =>
            if isPlaying u then Done (pauseAutoPlay u)
            else Done (startAutoPlay u)
        | OtherKey => Done u
        end
  | Interval_fires id =>
      if bool_decide (id ∈ (intervals u).*1) then autoPlayTick u else Done u
  end.

(** A sequence of events, one after the other. *)
Fixpoint run (es : list event) (u : t) : t :=
  match es with
  | [] => u
  | e :: es' => run es' (after (handle e u))
  end.

End Page.

(** Normal state of the timer: while playing, the one armed interval is the
    one that [state.playInterval] names; otherwise none is armed. *)
Definition one_timer (u : Page.t) : Prop :=
  if Page.isPlaying u
  then ∃ id : positive,
         Page.playInterval u = Some id ∧ (Page.intervals u).*1 = [id]
  else Page.playInterval u = None ∧ Page.intervals u = [].

(** What the timer handling reads and writes. *)
Definition timer_part (u : Page.t) : bool * option positive * list (positive * Z) :=
  (Page.isPlaying u, Page.playInterval u, Page.intervals u).

(** ** The table view *)

(** The classes that [updateTableDisplay] puts on the cells of the table. *)
Inductive cell_class : Type :=
  | current_step
  | cell_hit
  | cell_fault
  | cell_replaced
  | cell_new.

#[global] Instance cell_class_eq_dec : EqDecision cell_class.
Proof. solve_decision. Defined.

(** [stepData.frames[f]]: [undefined] outside the array. *)
Definition frame_at (stepData : StepData.t) (f : Z) : jsval :=
  if f <? 0 then JUndefined
  else default JUndefined (StepData.frames stepData !! Z.to_nat f).

(** The classes of the cell of step [s] and frame [f] after
    [updateTableDisplay] (which runs with the cursor on a step): all classes
    are removed first, and only the column of the cursor gets some. *)
Definition cell_classes (st : State.t) (s f : Z) : list cell_class :=
  if negb (s =? State.currentStep st) then []
  else
    match (if s <? 0 then None else State.stateHistory st !! Z.to_nat s) with
    | None => []
    | Some stepData =>
        [current_step] ++
        (if StepData.isHit stepData &&
            bool_decide (frame_at stepData f = JNum (StepData.page stepData))
         then [cell_hit] else []) ++
        (if StepData.isFault stepData then
           (if f =? StepData.newPageIndex stepData
            then [cell_fault; cell_new] else []) ++
           (if (f =? StepData.replacedIndex stepData) &&
               bool_decide (StepData.replacedPage stepData ≠ JNull)
            then [cell_replaced] else [])
         else [])
    end.

(** ** Sample inputs *)

(** The example of [loadExampleString], as the engine leaves it. *)
Definition example_state : State.t :=
  match buildStateHistory (State.mk 3 [7; 0; 1; 2; 0; 3; 0; 4] [] (-1) true 0 0)
  with
  | Normal s => s
  | Throw _ s => s
  end.

(** The page after the example has been loaded: [Start] enabled, the other
    playback buttons disabled, nothing armed, the default speed. *)
Definition example_page : Page.t :=
  Page.mk example_state false None 400 [] 1%positive
    (Buttons.mk false true true true true) [] [].

(** * Properties *)

(** ** The array primitives *)

Lemma indexOf_from_notin (x : jsval) (a : list jsval) (k : Z) :
  x ∉ a → indexOf_from x a k = -1.
Proof.
  revert k. induction a as [|y a IH]; intros k Hx; simpl; [done|].
  apply not_elem_of_cons in Hx as [Hne Hx].
  destruct (decide (y = x)); [congruence | auto].
Qed.

(** When [x] occurs, [indexOf] returns the position of its first
    occurrence. *)
Lemma indexOf_from_in (x : jsval) (a : list jsval) (k : Z) :
  x ∈ a →
  ∃ n : nat, indexOf_from x a k = k + Z.of_nat n ∧ a !! n = Some x ∧
             ∀ j : nat, (j < n)%nat → a !! j ≠ Some x.
Proof.
  revert k. induction a as [|y a IH]; intros k Hx; simpl.
  - by apply elem_of_nil in Hx.
  - destruct (decide (y = x)) as [->|Hne].
    + exists 0%nat. split; [lia|]. split; [done|]. intros j Hj. lia.
    + apply elem_of_cons in Hx as [Hx|Hx]; [congruence|].
      destruct (IH (k + 1) Hx) as (n & Hr & Hn & Hfirst).
      exists (S n). split; [lia|]. split; [done|].
      intros [|j] Hj; simpl; [congruence|]. apply Hfirst. lia.
Qed.

Lemma indexOf_in (x : jsval) (a : list jsval) :
  x ∈ a →
  ∃ n : nat, indexOf x a = Z.of_nat n ∧ a !! n = Some x ∧
             ∀ j : nat, (j < n)%nat → a !! j ≠ Some x.
Proof.
  intros Hx. destruct (indexOf_from_in x a 0 Hx) as (n & Hr & Hn & Hfirst).
  exists n. unfold indexOf. rewrite Hr. split; [lia | done].
Qed.

Lemma indexOf_notin (x : jsval) (a : list jsval) :
  x ∉ a → indexOf x a = -1.
Proof. apply indexOf_from_notin. Qed.

(** [indexOf] answers -1 or an index below the length. *)
Lemma indexOf_bounds (x : jsval) (a : list jsval) :
  indexOf x a = -1 ∨ 0 <= indexOf x a < Z.of_nat (length a).
Proof.
  destruct (decide (x ∈ a)) as [Hx|Hx].
  - right. destruct (indexOf_in x a Hx) as (n & -> & Hn & _).
    apply lookup_lt_Some in Hn. lia.
  - left. by apply indexOf_notin.
Qed.

Lemma indexOf_minus1 (x : jsval) (a : list jsval) :
  indexOf x a = -1 ↔ x ∉ a.
Proof.
  split; [|apply indexOf_notin].
  intros Hr Hx. destruct (indexOf_in x a Hx) as (n & Hn & _). lia.
Qed.

Lemma array_set_in_range (a : list jsval) (n : nat) (v : jsval) :
  (n < length a)%nat → array_set a (Z.of_nat n) v = <[n := v]> a.
Proof.
  intros Hn. unfold array_set.
  destruct (Z.leb_spec 0 (Z.of_nat n)); [|lia].
  destruct (Z.ltb_spec (Z.of_nat n) (Z.of_nat (length a))); [|lia].
  simpl. by rewrite Nat2Z.id.
Qed.

Lemma array_set_minus1 (a : list jsval) (v : jsval) : array_set a (-1) v = a.
Proof. reflexivity. Qed.

Lemma pop_snoc (s : list Z) (v : Z) : pop (s ++ [v]) = (JNum v, s).
Proof. unfold pop. by rewrite last_snoc, removelast_last. Qed.

Lemma pop_nil : pop [] = (JUndefined, []).
Proof. reflexivity. Qed.

(** A non-empty stack has a top. *)
Lemma stack_top (s : list Z) : s ≠ [] → ∃ s' v, s = s' ++ [v].
Proof.
  intros Hs. destruct (exists_last Hs) as (s' & v & ->). by exists s', v.
Qed.

(** Membership in an array after one slot is overwritten. *)
Lemma elem_of_overwrite (a : list jsval) (k : nat) (v x : jsval) :
  (k < length a)%nat →
  x ∈ <[k := v]> a ↔ x = v ∨ ∃ j : nat, j ≠ k ∧ a !! j = Some x.
Proof.
  intros Hk. rewrite list_elem_of_lookup. split.
  - intros [j Hj]. destruct (decide (j = k)) as [->|Hne].
    + rewrite list_lookup_insert_eq in Hj by done. left. congruence.
    + rewrite list_lookup_insert_ne in Hj by done. right. eauto.
  - intros [->|(j & Hne & Hj)].
    + exists k. by apply list_lookup_insert_eq.
    + exists j. by rewrite list_lookup_insert_ne.
Qed.

(** ** One iteration of the loop *)

Lemma elem_of_pages_of (fr : list jsval) (p : Z) :
  p ∈ pages_of fr ↔ JNum p ∈ fr.
Proof.
  unfold pages_of. rewrite list_elem_of_omap. split.
  - intros (v & Hv & Hp). destruct v; naive_solver.
  - intros Hp. exists (JNum p). done.
Qed.

Lemma coherent_entry (n : Z) :
  0 <= n → coherent n (replicate (Z.to_nat n) JNull) [].
Proof.
  intros Hn. split.
  - rewrite length_replicate. lia.
  - intros v Hv. apply elem_of_replicate in Hv as [-> _]. done.
  - intros i j p Hi _. apply lookup_replicate in Hi as [? _]. done.
  - constructor.
  - intros p. split.
    + intros Hp. apply elem_of_replicate in Hp as [? _]. done.
    + intros Hp. by apply elem_of_nil in Hp.
Qed.

(** The stack is never longer than the frames array. *)
Lemma coherent_stack_length (n : Z) (fr : list jsval) (sk : list Z) :
  coherent n fr sk → Z.of_nat (length sk) <= n.
Proof.
  intros [Hlen _ _ Hnd Hsame]. rewrite <- Hlen.
  assert (JNum <$> sk ⊆+ fr) as Hsub.
  { apply NoDup_submseteq.
    - apply NoDup_fmap_2; [|done]. intros ?? [=]. done.
    - intros v Hv. apply list_elem_of_fmap in Hv as (p & -> & Hp).
      by apply Hsame. }
  apply submseteq_length in Hsub. rewrite length_fmap in Hsub. lia.
Qed.

(** With every slot taken and at least one frame, the stack is not empty. *)
Lemma coherent_full_stack (n : Z) (fr : list jsval) (sk : list Z) :
  coherent n fr sk → 1 <= n → JNull ∉ fr → sk ≠ [].
Proof.
  intros [Hlen Hcells _ _ Hsame] Hn Hfull ->.
  destruct fr as [|v fr]; simpl in Hlen; [lia|].
  destruct v as [| |p].
  - apply Hfull. left.
  - by apply (Hcells JUndefined); [left|].
  - assert (p ∈ @nil Z) as Hp by (apply Hsame; left).
    by apply elem_of_nil in Hp.
Qed.

(** The three branches of the body. *)

Lemma process_hit (i page : Z) (e : env) :
  JNum page ∈ frames e →
  process i page e =
    (StepData.mk (i + 1) page (frames e) (stack e) true false JNull (-1) (-1),
     Env (count_hit (g e)) (frames e) (stack e)).
Proof.
  intros Hin. unfold process.
  destruct (indexOf_in _ _ Hin) as (n & -> & _).
  destruct (Z.eqb_spec (Z.of_nat n) (-1)); [lia | done].
Qed.

Lemma process_fault_empty (i page : Z) (e : env) :
  JNum page ∉ frames e → JNull ∈ frames e →
  ∃ k : nat,
    frames e !! k = Some JNull ∧
    (∀ j : nat, (j < k)%nat → frames e !! j ≠ Some JNull) ∧
    process i page e =
      (StepData.mk (i + 1) page (<[k := JNum page]> (frames e))
         (stack e ++ [page]) false true JNull (-1) (Z.of_nat k),
       Env (count_fault (g e)) (<[k := JNum page]> (frames e))
         (stack e ++ [page])).
Proof.
  intros Hout Hnull. unfold process.
  rewrite (indexOf_notin _ _ Hout). simpl.
  destruct (indexOf_in _ _ Hnull) as (k & -> & Hk & Hfirst).
  exists k. split; [done|]. split; [done|].
  destruct (Z.eqb_spec (Z.of_nat k) (-1)); [lia|]. simpl.
  rewrite array_set_in_range by (by eapply lookup_lt_Some). done.
Qed.

Lemma process_fault_full (n i page : Z) (e : env) :
  coherent n (frames e) (stack e) → 1 <= n →
  JNum page ∉ frames e → JNull ∉ frames e →
  ∃ (victim : Z) (below : list Z) (k : nat),
    stack e = below ++ [victim] ∧
    frames e !! k = Some (JNum victim) ∧
    indexOf (JNum victim) (frames e) = Z.of_nat k ∧
    process i page e =
      (StepData.mk (i + 1) page (<[k := JNum page]> (frames e))
         (below ++ [page]) false true (JNum victim) (Z.of_nat k) (Z.of_nat k),
       Env (count_fault (g e)) (<[k := JNum page]> (frames e))
         (below ++ [page])).
Proof.
  intros Hcoh Hn Hout Hfull.
  destruct (stack_top (stack e)) as (below & victim & Hstack).
  { by eapply coherent_full_stack. }
  assert (JNum victim ∈ frames e) as Hres.
  { apply (coh_same _ _ _ Hcoh). rewrite Hstack.
    apply elem_of_app. right. left. }
  destruct (indexOf_in _ _ Hres) as (k & Hidx & Hk & _).
  exists victim, below, k. split; [done|]. split; [done|]. split; [done|].
  unfold process. rewrite (indexOf_notin _ _ Hout). simpl.
  rewrite (indexOf_notin _ _ Hfull). simpl.
  rewrite Hstack, pop_snoc, Hidx.
  rewrite array_set_in_range by (by eapply lookup_lt_Some). done.
Qed.

(** Overwriting a slot with a page that is not resident keeps the slots
    distinct. *)
Lemma overwrite_slots (fr : list jsval) (k : nat) (page : Z) :
  (k < length fr)%nat → JNum page ∉ fr →
  (∀ (i j : nat) (p : Z),
      fr !! i = Some (JNum p) → fr !! j = Some (JNum p) → i = j) →
  ∀ (i j : nat) (p : Z),
    <[k := JNum page]> fr !! i = Some (JNum p) →
    <[k := JNum page]> fr !! j = Some (JNum p) → i = j.
Proof.
  intros Hk Hout Hslots i j p Hi Hj.
  destruct (decide (i = k)) as [->|Hik], (decide (j = k)) as [->|Hjk];
    [done| | |].
  - rewrite list_lookup_insert_eq in Hi by done.
    rewrite list_lookup_insert_ne in Hj by done.
    exfalso. apply Hout. apply list_elem_of_lookup. exists j. congruence.
  - rewrite list_lookup_insert_eq in Hj by done.
    rewrite list_lookup_insert_ne in Hi by done.
    exfalso. apply Hout. apply list_elem_of_lookup. exists i. congruence.
  - rewrite list_lookup_insert_ne in Hi, Hj by done. eauto.
Qed.

Lemma overwrite_cells (fr : list jsval) (k : nat) (page : Z) :
  (∀ v, v ∈ fr → v ≠ JUndefined) →
  ∀ v, v ∈ <[k := JNum page]> fr → v ≠ JUndefined.
Proof.
  intros Hcells v Hv. destruct (decide (k < length fr)%nat) as [Hk|Hk].
  - apply elem_of_overwrite in Hv as [->|(j & _ & Hj)]; [done| |done].
    apply Hcells. apply list_elem_of_lookup. eauto.
  - rewrite list_insert_ge in Hv by lia. auto.
Qed.

Lemma coherent_load_empty (n : Z) (fr : list jsval) (sk : list Z)
  (k : nat) (page : Z) :
  coherent n fr sk → JNum page ∉ fr → fr !! k = Some JNull →
  coherent n (<[k := JNum page]> fr) (sk ++ [page]).
Proof.
  intros [Hlen Hcells Hslots Hnd Hsame] Hout Hk.
  assert (k < length fr)%nat as Hlt by (by eapply lookup_lt_Some).
  split.
  - by rewrite length_insert.
  - by apply overwrite_cells.
  - by apply overwrite_slots.
  - apply NoDup_app. split; [done|]. split; [|apply NoDup_singleton].
    intros p Hp Hp'. apply list_elem_of_singleton in Hp' as ->.
    apply Hout. by apply Hsame.
  - intros p. rewrite elem_of_overwrite by done. rewrite elem_of_app.
    rewrite list_elem_of_singleton. split.
    + intros [[= ->]|(j & _ & Hj)]; [by right|].
      left. apply Hsame. apply list_elem_of_lookup. eauto.
    + intros [Hp| ->]; [|by left]. right.
      apply Hsame, list_elem_of_lookup in Hp as [j Hj].
      exists j. split; [|done]. intros ->. congruence.
Qed.

Lemma coherent_replace_top (n : Z) (fr : list jsval) (below : list Z)
  (k : nat) (victim page : Z) :
  coherent n fr (below ++ [victim]) → JNum page ∉ fr →
  fr !! k = Some (JNum victim) →
  coherent n (<[k := JNum page]> fr) (below ++ [page]).
Proof.
  intros [Hlen Hcells Hslots Hnd Hsame] Hout Hk.
  assert (k < length fr)%nat as Hlt by (by eapply lookup_lt_Some).
  apply NoDup_app in Hnd as (Hnd & Hvictim & _).
  assert (victim ∉ below) as Hvb.
  { intros Hv. apply (Hvictim victim Hv). left. }
  split.
  - by rewrite length_insert.
  - by apply overwrite_cells.
  - by apply overwrite_slots.
  - apply NoDup_app. split; [done|]. split; [|apply NoDup_singleton].
    intros p Hp Hp'. apply list_elem_of_singleton in Hp' as ->.
    apply Hout. apply Hsame. apply elem_of_app. by left.
  - intros p. rewrite elem_of_overwrite by done. rewrite elem_of_app.
    rewrite list_elem_of_singleton. split.
    + intros [[= ->]|(j & Hjk & Hj)]; [by right|]. left.
      assert (p ∈ below ++ [victim]) as Hp.
      { apply Hsame. apply list_elem_of_lookup. eauto. }
      apply elem_of_app in Hp as [Hp|Hp]; [done|].
      apply list_elem_of_singleton in Hp as ->.
      exfalso. apply Hjk. by eapply Hslots.
    + intros [Hp| ->]; [|by left]. right.
      assert (JNum p ∈ fr) as Hres.
      { apply Hsame. apply elem_of_app. by left. }
      apply list_elem_of_lookup in Hres as [j Hj].
      exists j. split; [|done]. intros ->.
      rewrite Hk in Hj. injection Hj as ->. done.
Qed.

(** The body of the loop keeps the invariant. *)
Lemma process_coherent (n i page : Z) (e : env) :
  1 <= n → coherent n (frames e) (stack e) →
  coherent n (frames (process i page e).2) (stack (process i page e).2).
Proof.
  intros Hn Hcoh.
  destruct (decide (JNum page ∈ frames e)) as [Hin|Hout].
  { rewrite process_hit by done. done. }
  destruct (decide (JNull ∈ frames e)) as [Hnull|Hfull].
  - destruct (process_fault_empty i page e Hout Hnull) as (k & Hk & _ & ->).
    simpl. by apply coherent_load_empty.
  - destruct (process_fault_full n i page e Hcoh Hn Hout Hfull)
      as (victim & below & k & Hstack & Hk & _ & ->).
    simpl. rewrite Hstack in Hcoh. by eapply coherent_replace_top.
Qed.

(** The record of an iteration shows the arrays as the iteration leaves
    them. *)
Lemma process_snapshot (i page : Z) (e : env) :
  StepData.frames (process i page e).1 = frames (process i page e).2 ∧
  StepData.stack (process i page e).1 = stack (process i page e).2.
Proof.
  unfold process.
  destruct (negb _); [done|]. destruct (negb _); [done|].
  destruct (pop (stack e)). done.
Qed.

Lemma process_step_page (i page : Z) (e : env) :
  StepData.step (process i page e).1 = i + 1 ∧
  StepData.page (process i page e).1 = page.
Proof.
  unfold process.
  destruct (negb _); [done|]. destruct (negb _); [done|].
  destruct (pop (stack e)). done.
Qed.

(** Exactly one of the two outcome flags is set, and a hit keeps the three
    sentinel values. *)
Lemma process_flags (i page : Z) (e : env) :
  let sd := (process i page e).1 in
  StepData.isHit sd = negb (StepData.isFault sd) ∧
  (StepData.isHit sd = true →
   StepData.replacedPage sd = JNull ∧ StepData.replacedIndex sd = -1 ∧
   StepData.newPageIndex sd = -1).
Proof.
  unfold process.
  destruct (negb _); [done|]. destruct (negb _); [done|].
  destruct (pop (stack e)). done.
Qed.

Lemma loop_body_eq (i page : Z) (e : env) :
  loop_body i page e =
    Env (push_history (process i page e).1 (g (process i page e).2))
      (frames (process i page e).2) (stack (process i page e).2).
Proof. unfold loop_body. by destruct (process i page e). Qed.

Lemma process_history (i page : Z) (e : env) :
  State.stateHistory (g (process i page e).2) = State.stateHistory (g e).
Proof.
  unfold process.
  destruct (negb _); [done|]. destruct (negb _); [done|].
  destruct (pop (stack e)). done.
Qed.

Lemma loop_body_history (i page : Z) (e : env) :
  State.stateHistory (g (loop_body i page e)) =
    State.stateHistory (g e) ++ [(process i page e).1].
Proof. rewrite loop_body_eq. simpl. by rewrite process_history. Qed.

(** ** The loop *)

(** The engine returns normally exactly for the frame counts that are array
    lengths, and throws [RangeError] for the others. *)
Lemma buildStateHistory_normal (s : State.t) :
  0 <= State.frames s < 4294967296 →
  buildStateHistory s =
    Normal (g (for_loop 0 (State.referenceString s) (entry s))).
Proof.
  intros Hn. unfold buildStateHistory, new_Array_fill_null. simpl.
  destruct (Z.ltb_spec (State.frames s) 0); [lia|].
  destruct (Z.ltb_spec 4294967295 (State.frames s)); [lia | done].
Qed.

Lemma buildStateHistory_throw (s : State.t) :
  State.frames s < 0 ∨ 4294967296 <= State.frames s →
  buildStateHistory s = Throw RangeError (clear_history s).
Proof.
  intros Hn. unfold buildStateHistory, new_Array_fill_null. simpl.
  destruct (Z.ltb_spec (State.frames s) 0); [done|].
  destruct (Z.ltb_spec 4294967295 (State.frames s)); [done | lia].
Qed.

Lemma for_loop_app (j : Z) (l1 l2 : list Z) (e : env) :
  for_loop j (l1 ++ l2) e =
    for_loop (j + Z.of_nat (length l1)) l2 (for_loop j l1 e).
Proof.
  revert j e. induction l1 as [|p l1 IH]; intros j e; simpl.
  - f_equal. lia.
  - rewrite IH. f_equal. lia.
Qed.

Lemma for_loop_history_length (j : Z) (l : list Z) (e : env) :
  length (State.stateHistory (g (for_loop j l e))) =
    (length (State.stateHistory (g e)) + length l)%nat.
Proof.
  revert j e. induction l as [|p l IH]; intros j e; simpl; [lia|].
  rewrite IH, loop_body_history, length_app. simpl. lia.
Qed.

Lemma for_loop_history_prefix (j : Z) (l : list Z) (e : env) :
  State.stateHistory (g e) `prefix_of`
    State.stateHistory (g (for_loop j l e)).
Proof.
  revert j e. induction l as [|p l IH]; intros j e; simpl; [done|].
  etrans; [|apply IH]. rewrite loop_body_history. by apply prefix_app_r.
Qed.

Lemma for_loop_coherent (n j : Z) (l : list Z) (e : env) :
  1 <= n → coherent n (frames e) (stack e) →
  coherent n (frames (for_loop j l e)) (stack (for_loop j l e)).
Proof.
  intros Hn. revert j e. induction l as [|p l IH]; intros j e Hcoh; [done|].
  simpl. apply IH. rewrite loop_body_eq. simpl. by apply process_coherent.
Qed.

Lemma env_before_S (s : State.t) (i : nat) (page : Z) :
  State.referenceString s !! i = Some page →
  env_before s (S i) = loop_body (Z.of_nat i) page (env_before s i).
Proof.
  intros Hi. unfold env_before.
  rewrite (take_S_r _ _ _ Hi), for_loop_app. simpl.
  rewrite length_take_le; [done|]. apply lookup_lt_Some in Hi. lia.
Qed.

Lemma env_before_all (s : State.t) :
  env_before s (length (State.referenceString s)) =
    for_loop 0 (State.referenceString s) (entry s).
Proof. unfold env_before. by rewrite firstn_all. Qed.

(** The whole run is the run of the remaining references from the
    variables that [env_before] gives. *)
Lemma for_loop_split (s : State.t) (i : nat) :
  (i ≤ length (State.referenceString s))%nat →
  for_loop 0 (State.referenceString s) (entry s) =
    for_loop (Z.of_nat i) (drop i (State.referenceString s)) (env_before s i).
Proof.
  intros Hi. rewrite <- (take_drop i (State.referenceString s)) at 1.
  rewrite for_loop_app, length_take_le by done. done.
Qed.

Lemma env_before_coherent (s : State.t) (i : nat) :
  1 <= State.frames s →
  coherent (State.frames s) (frames (env_before s i)) (stack (env_before s i)).
Proof.
  intros Hn. apply for_loop_coherent; [done|].
  simpl. apply coherent_entry. lia.
Qed.

Lemma env_before_history_length (s : State.t) (i : nat) :
  (i ≤ length (State.referenceString s))%nat →
  length (State.stateHistory (g (env_before s i))) = i.
Proof.
  intros Hi. unfold env_before.
  rewrite for_loop_history_length, length_take_le by done. done.
Qed.

(** The history that the iterations before [i] have built is the beginning
    of the final history. *)
Lemma env_before_history (s : State.t) (i : nat) :
  (i ≤ length (State.referenceString s))%nat →
  State.stateHistory (g (env_before s i)) =
    take i (State.stateHistory
              (g (for_loop 0 (State.referenceString s) (entry s)))).
Proof.
  intros Hi.
  rewrite <- (take_drop i (State.referenceString s)).
  rewrite for_loop_app. fold (env_before s i).
  destruct (for_loop_history_prefix
              (0 + Z.of_nat (length (take i (State.referenceString s))))
              (drop i (State.referenceString s)) (env_before s i))
    as [tail ->].
  rewrite take_app_length'; [done|]. symmetry. by apply env_before_history_length.
Qed.

(** Record [i] of the final history is the one that iteration [i] built. *)
Lemma history_lookup (s : State.t) (i : nat) (page : Z) :
  State.referenceString s !! i = Some page →
  State.stateHistory (g (for_loop 0 (State.referenceString s) (entry s))) !! i
    = Some (process (Z.of_nat i) page (env_before s i)).1.
Proof.
  intros Hi. pose proof (lookup_lt_Some _ _ _ Hi) as Hlt.
  rewrite <- (lookup_take_lt _ (S i) i) by lia.
  rewrite <- env_before_history by lia.
  rewrite (env_before_S _ _ _ Hi), loop_body_history.
  rewrite lookup_app_r; rewrite env_before_history_length by lia; [|lia].
  by rewrite Nat.sub_diag.
Qed.

(** The arrays at the beginning of an iteration are the snapshots of the
    previous record. *)
Lemma env_before_snapshot (s : State.t) (i : nat) (page : Z) :
  State.referenceString s !! i = Some page →
  frames (env_before s (S i)) =
    StepData.frames (process (Z.of_nat i) page (env_before s i)).1 ∧
  stack (env_before s (S i)) =
    StepData.stack (process (Z.of_nat i) page (env_before s i)).1.
Proof.
  intros Hi. rewrite (env_before_S _ _ _ Hi), loop_body_eq. simpl.
  destruct (process_snapshot (Z.of_nat i) page (env_before s i)). done.
Qed.

Lemma array_set_length (a : list jsval) (i : Z) (v : jsval) :
  length (array_set a i v) = length a.
Proof. unfold array_set. destruct (_ && _); [apply length_insert | done]. Qed.

Lemma process_frames_length (i page : Z) (e : env) :
  length (frames (process i page e).2) = length (frames e).
Proof.
  unfold process.
  destruct (negb _); [done|]. destruct (negb _); simpl.
  - apply array_set_length.
  - destruct (pop (stack e)). simpl. apply array_set_length.
Qed.

Lemma for_loop_frames_length (j : Z) (l : list Z) (e : env) :
  length (frames (for_loop j l e)) = length (frames e).
Proof.
  revert j e. induction l as [|p l IH]; intros j e; simpl; [done|].
  rewrite IH, loop_body_eq. simpl. apply process_frames_length.
Qed.

Lemma env_before_frames_length (s : State.t) (i : nat) :
  length (frames (env_before s i)) = Z.to_nat (State.frames s).
Proof.
  unfold env_before. rewrite for_loop_frames_length. simpl.
  apply length_replicate.
Qed.

(** Some slot exists only if there is at least one frame. *)
Lemma env_before_occupied (s : State.t) (i : nat) (v : jsval) :
  v ∈ frames (env_before s i) → 1 <= State.frames s.
Proof.
  intros Hv. pose proof (env_before_frames_length s i) as Hlen.
  destruct (frames (env_before s i)); [by apply elem_of_nil in Hv|].
  simpl in Hlen. lia.
Qed.

(** Before the first iteration every slot is empty. *)
Lemma env_before_0 (s : State.t) (p : Z) : JNum p ∉ frames (env_before s 0).
Proof.
  unfold env_before. rewrite take_0. simpl.
  intros Hp. apply elem_of_replicate in Hp as [? _]. done.
Qed.

(** The top of the stack is the page of the latest fault. *)
Lemma process_top (i page : Z) (e : env) :
  last (stack e) = last (loads (State.stateHistory (g e))) →
  last (stack (process i page e).2) =
    last (loads (State.stateHistory (g e) ++ [(process i page e).1])).
Proof.
  intros Htop. unfold loads. rewrite filter_app, fmap_app.
  unfold process.
  destruct (negb _).
  { simpl. by rewrite app_nil_r. }
  destruct (negb _).
  { simpl. by rewrite !last_snoc. }
  destruct (pop (stack e)). simpl. by rewrite !last_snoc.
Qed.

Lemma for_loop_top (j : Z) (l : list Z) (e : env) :
  last (stack e) = last (loads (State.stateHistory (g e))) →
  last (stack (for_loop j l e)) =
    last (loads (State.stateHistory (g (for_loop j l e)))).
Proof.
  revert j e. induction l as [|p l IH]; intros j e Htop; [done|].
  simpl. apply IH. rewrite loop_body_history.
  rewrite loop_body_eq. simpl. by apply process_top.
Qed.

Lemma env_before_top (s : State.t) (i : nat) :
  last (stack (env_before s i)) =
    last (loads (State.stateHistory (g (env_before s i)))).
Proof. by apply for_loop_top. Qed.

(** Every record of the final history is the record of some iteration. *)
Lemma history_elem (s : State.t) (r : StepData.t) :
  r ∈ State.stateHistory (g (for_loop 0 (State.referenceString s) (entry s))) →
  ∃ (i : nat) (page : Z),
    State.referenceString s !! i = Some page ∧
    r = (process (Z.of_nat i) page (env_before s i)).1.
Proof.
  intros Hr. apply list_elem_of_lookup in Hr as [i Hi].
  pose proof (lookup_lt_Some _ _ _ Hi) as Hlt.
  rewrite for_loop_history_length in Hlt. simpl in Hlt.
  destruct (lookup_lt_is_Some_2 (State.referenceString s) i Hlt)
    as [page Hpage].
  exists i, page. split; [done|].
  rewrite (history_lookup _ _ _ Hpage) in Hi. congruence.
Qed.

(** * The claims *)

(** C1. Fault with all slots full.  For every reference string and
    frameCount >= 1 (and below 2^32, so that the frames array exists), when
    iteration [i] requests a page that occupies no slot while no slot is
    empty, the engine pops the top of the stack as the victim, overwrites
    the one slot that holds the victim with the new page, pushes the new
    page on top of the stack, and records a fault whose [newPageIndex] (and
    [replacedIndex]) is the overwritten slot and whose [replacedPage] is the
    victim.  The victim is the page of the latest earlier fault, that is the
    most recently loaded resident page. *)
Theorem C1_fault_full_evicts_top (s : State.t) (i : nat) (page : Z) :
  1 <= State.frames s →
  State.frames s < 4294967296 →
  State.referenceString s !! i = Some page →
  JNum page ∉ frames (env_before s i) →
  JNull ∉ frames (env_before s i) →
  ∃ (s' : State.t) (victim : Z) (below : list Z) (slot : nat)
    (r : StepData.t),
    buildStateHistory s = Normal s' ∧
    stack (env_before s i) = below ++ [victim] ∧
    last (loads (take i (State.stateHistory s'))) = Some victim ∧
    frames (env_before s i) !! slot = Some (JNum victim) ∧
    (∀ j : nat, frames (env_before s i) !! j = Some (JNum victim) → j = slot) ∧
    Z.of_nat slot < State.frames s ∧
    State.stateHistory s' !! i = Some r ∧
    StepData.isFault r = true ∧ StepData.isHit r = false ∧
    StepData.replacedPage r = JNum victim ∧
    StepData.replacedIndex r = Z.of_nat slot ∧
    StepData.newPageIndex r = Z.of_nat slot ∧
    StepData.frames r = <[slot := JNum page]> (frames (env_before s i)) ∧
    StepData.stack r = below ++ [page] ∧
    frames (env_before s (S i)) = StepData.frames r ∧
    stack (env_before s (S i)) = StepData.stack r.
Proof.
  intros Hn Hmax Hi Hout Hfull.
  pose proof (env_before_coherent s i Hn) as Hcoh.
  destruct (process_fault_full _ (Z.of_nat i) page _ Hcoh Hn Hout Hfull)
    as (victim & below & slot & Hstack & Hslot & _ & Hproc).
  pose proof (history_lookup s i page Hi) as Hrec.
  pose proof (env_before_snapshot s i page Hi) as [Hfr Hsk].
  pose proof (lookup_lt_Some _ _ _ Hi) as Hlt.
  rewrite Hproc in Hrec, Hfr, Hsk. simpl in Hrec, Hfr, Hsk.
  eexists _, victim, below, slot, _.
  split; [apply buildStateHistory_normal; lia|].
  split; [done|].
  split.
  { rewrite <- env_before_history by lia.
    rewrite <- env_before_top, Hstack. apply last_snoc. }
  split; [done|].
  split; [intros j Hj; by eapply (coh_slots _ _ _ Hcoh)|].
  split.
  { apply lookup_lt_Some in Hslot. rewrite <- (coh_length _ _ _ Hcoh). lia. }
  split; [exact Hrec|]. simpl. done.
Qed.

(** C9. With frameCount >= 1, in the all-slots-full fault branch the stack
    is not empty, the popped victim occupies a frame, the lookup of its slot
    does not answer -1 and the overwrite targets an index of the frames
    array, in [0, frameCount). *)
Theorem C9_victim_lookup_succeeds (s : State.t) (i : nat) (page : Z) :
  1 <= State.frames s →
  State.referenceString s !! i = Some page →
  JNum page ∉ frames (env_before s i) →
  JNull ∉ frames (env_before s i) →
  stack (env_before s i) ≠ [] ∧
  ∃ (victim : Z) (popped : list Z),
    pop (stack (env_before s i)) = (JNum victim, popped) ∧
    JNum victim ∈ frames (env_before s i) ∧
    indexOf (JNum victim) (frames (env_before s i)) ≠ -1 ∧
    0 <= indexOf (JNum victim) (frames (env_before s i)) < State.frames s ∧
    Z.of_nat (length (frames (env_before s i))) = State.frames s.
Proof.
  intros Hn Hi Hout Hfull.
  pose proof (env_before_coherent s i Hn) as Hcoh.
  destruct (process_fault_full _ (Z.of_nat i) page _ Hcoh Hn Hout Hfull)
    as (victim & below & slot & Hstack & Hslot & Hidx & _).
  pose proof (lookup_lt_Some _ _ _ Hslot) as Hlt.
  pose proof (coh_length _ _ _ Hcoh) as Hlen.
  split; [by eapply coherent_full_stack|].
  exists victim, below. rewrite Hstack, pop_snoc, Hidx.
  split; [done|].
  split; [apply list_elem_of_lookup; eauto|].
  split; [lia|]. split; [lia | done].
Qed.

(** C5. Hit.  With a frameCount below 2^32 (so that the frames array
    exists), when iteration [i] requests a page that occupies some slot, its
    record is a hit, the frames and the stack are left as they were (the
    snapshots of the record are the arrays before the iteration, and the
    arrays after it are the same), and both snapshots equal those of the
    previous record. *)
Theorem C5_hit_changes_nothing (s : State.t) (i : nat) (page : Z) :
  State.frames s < 4294967296 →
  State.referenceString s !! i = Some page →
  JNum page ∈ frames (env_before s i) →
  ∃ (s' : State.t) (r : StepData.t),
    buildStateHistory s = Normal s' ∧
    State.stateHistory s' !! i = Some r ∧
    StepData.isHit r = true ∧ StepData.isFault r = false ∧
    StepData.frames r = frames (env_before s i) ∧
    StepData.stack r = stack (env_before s i) ∧
    frames (env_before s (S i)) = frames (env_before s i) ∧
    stack (env_before s (S i)) = stack (env_before s i) ∧
    ∃ (i' : nat) (r' : StepData.t),
      i = S i' ∧ State.stateHistory s' !! i' = Some r' ∧
      StepData.frames r = StepData.frames r' ∧
      StepData.stack r = StepData.stack r'.
Proof.
  intros Hmax Hi Hin.
  pose proof (env_before_occupied _ _ _ Hin) as Hn.
  pose proof (history_lookup s i page Hi) as Hrec.
  pose proof (env_before_snapshot s i page Hi) as [Hfr Hsk].
  rewrite (process_hit _ _ _ Hin) in Hrec, Hfr, Hsk.
  simpl in Hrec, Hfr, Hsk.
  eexists _, _.
  split; [apply buildStateHistory_normal; lia|].
  split; [exact Hrec|]. simpl. do 6 (split; [done|]).
  destruct i as [|i']; [by apply env_before_0 in Hin|].
  pose proof (lookup_lt_Some _ _ _ Hi) as Hlt.
  destruct (lookup_lt_is_Some_2 (State.referenceString s) i') as [page' Hi'];
    [lia|].
  pose proof (env_before_snapshot s i' page' Hi') as [Hfr' Hsk'].
  eexists i', _. split; [done|].
  split; [exact (history_lookup s i' page' Hi')|]. done.
Qed.

(** C6. Fault with an empty slot.  With a frameCount below 2^32 (so that the
    frames array exists), when iteration [i] requests a page that occupies
    no slot while some slot is empty, the engine stores the page in the
    lowest-indexed empty slot, pushes it on top of the stack, and records a
    fault whose [newPageIndex] is that slot and whose [replacedPage] is
    [null] (with [replacedIndex] -1): nothing is evicted. *)
Theorem C6_fault_empty_slot (s : State.t) (i : nat) (page : Z) :
  State.frames s < 4294967296 →
  State.referenceString s !! i = Some page →
  JNum page ∉ frames (env_before s i) →
  JNull ∈ frames (env_before s i) →
  ∃ (s' : State.t) (slot : nat) (r : StepData.t),
    buildStateHistory s = Normal s' ∧
    frames (env_before s i) !! slot = Some JNull ∧
    (∀ j : nat, (j < slot)%nat → frames (env_before s i) !! j ≠ Some JNull) ∧
    State.stateHistory s' !! i = Some r ∧
    StepData.isFault r = true ∧ StepData.isHit r = false ∧
    StepData.newPageIndex r = Z.of_nat slot ∧
    StepData.replacedPage r = JNull ∧
    StepData.replacedIndex r = -1 ∧
    StepData.frames r = <[slot := JNum page]> (frames (env_before s i)) ∧
    StepData.stack r = stack (env_before s i) ++ [page] ∧
    frames (env_before s (S i)) = StepData.frames r ∧
    stack (env_before s (S i)) = StepData.stack r.
Proof.
  intros Hmax Hi Hout Hnull.
  pose proof (env_before_occupied _ _ _ Hnull) as Hn.
  destruct (process_fault_empty (Z.of_nat i) page _ Hout Hnull)
    as (slot & Hslot & Hfirst & Hproc).
  pose proof (history_lookup s i page Hi) as Hrec.
  pose proof (env_before_snapshot s i page Hi) as [Hfr Hsk].
  rewrite Hproc in Hrec, Hfr, Hsk. simpl in Hrec, Hfr, Hsk.
  eexists _, slot, _.
  split; [apply buildStateHistory_normal; lia|].
  do 2 (split; [done|]).
  split; [exact Hrec|]. simpl. done.
Qed.

(** A fault stores the new page in a slot of the frames array. *)
Lemma process_fault_index (n i page : Z) (e : env) :
  1 <= n → coherent n (frames e) (stack e) →
  StepData.isFault (process i page e).1 = true →
  0 <= StepData.newPageIndex (process i page e).1 < n.
Proof.
  intros Hn Hcoh. pose proof (coh_length _ _ _ Hcoh) as Hlen.
  destruct (decide (JNum page ∈ frames e)) as [Hin|Hout].
  { rewrite process_hit by done. done. }
  destruct (decide (JNull ∈ frames e)) as [Hnull|Hfull].
  - destruct (process_fault_empty i page e Hout Hnull) as (k & Hk & _ & ->).
    simpl. apply lookup_lt_Some in Hk. lia.
  - destruct (process_fault_full n i page e Hcoh Hn Hout Hfull)
      as (victim & below & k & _ & Hk & _ & ->).
    simpl. apply lookup_lt_Some in Hk. lia.
Qed.

(** C4. For every reference string and frameCount >= 1 (and below 2^32, so
    that the frames array exists), the engine returns, and in every record
    produced the set of pages in the frames snapshot equals the set of
    elements of the stack snapshot, both sets have at most frameCount
    elements (so has the stack as a sequence), and no page occurs twice in
    the stack. *)
Theorem C4_stack_frames_consistent (s : State.t) :
  1 <= State.frames s →
  State.frames s < 4294967296 →
  ∃ s' : State.t,
    buildStateHistory s = Normal s' ∧
    ∀ r : StepData.t, r ∈ State.stateHistory s' →
      (list_to_set (pages_of (StepData.frames r)) : gset Z) =
        list_to_set (StepData.stack r) ∧
      Z.of_nat (size (list_to_set (pages_of (StepData.frames r)) : gset Z))
        <= State.frames s ∧
      Z.of_nat (size (list_to_set (StepData.stack r) : gset Z))
        <= State.frames s ∧
      Z.of_nat (length (StepData.stack r)) <= State.frames s ∧
      NoDup (StepData.stack r).
Proof.
  intros Hn Hmax. eexists. split; [apply buildStateHistory_normal; lia|].
  intros r Hr. apply history_elem in Hr as (i & page & Hi & ->).
  destruct (process_snapshot (Z.of_nat i) page (env_before s i)) as [-> ->].
  pose proof (process_coherent _ (Z.of_nat i) page _ Hn
                (env_before_coherent s i Hn)) as Hcoh.
  set (fr := frames _) in *. set (sk := stack _) in *.
  assert ((list_to_set (pages_of fr) : gset Z) = list_to_set sk) as Hset.
  { apply set_eq. intros p.
    rewrite !elem_of_list_to_set, elem_of_pages_of.
    apply (coh_same _ _ _ Hcoh). }
  pose proof (coherent_stack_length _ _ _ Hcoh) as Hlen.
  pose proof (coh_stack _ _ _ Hcoh) as Hnd.
  rewrite Hset, (size_list_to_set sk Hnd). done.
Qed.

(** C10. For every reference string and frameCount >= 1 (and below 2^32, so
    that the frames array exists), the engine returns, and every record has
    exactly one of [isHit] and [isFault] set; a hit keeps the sentinels
    [replacedPage = null], [replacedIndex = -1] and [newPageIndex = -1]; a
    fault has [newPageIndex >= 0] (and below frameCount). *)
Theorem C10_outcome_flags (s : State.t) :
  1 <= State.frames s →
  State.frames s < 4294967296 →
  ∃ s' : State.t,
    buildStateHistory s = Normal s' ∧
    ∀ r : StepData.t, r ∈ State.stateHistory s' →
      xorb (StepData.isHit r) (StepData.isFault r) = true ∧
      (StepData.isHit r = true →
       StepData.replacedPage r = JNull ∧ StepData.replacedIndex r = -1 ∧
       StepData.newPageIndex r = -1) ∧
      (StepData.isFault r = true →
       0 <= StepData.newPageIndex r < State.frames s).
Proof.
  intros Hn Hmax. eexists. split; [apply buildStateHistory_normal; lia|].
  intros r Hr. apply history_elem in Hr as (i & page & Hi & ->).
  destruct (process_flags (Z.of_nat i) page (env_before s i)) as [Hx Hhit].
  split; [rewrite Hx; by destruct (StepData.isFault _)|].
  split; [exact Hhit|].
  apply process_fault_index; [done|]. by apply env_before_coherent.
Qed.

(** C7. For every reference string of length N and frameCount >= 1 (and
    below 2^32, so that the frames array exists) the engine returns exactly
    N records, one per reference in input order (their [page] fields spell
    the reference string), with [step] fields 1, 2, ..., N. *)
Theorem C7_one_record_per_reference (s : State.t) :
  1 <= State.frames s →
  State.frames s < 4294967296 →
  ∃ s' : State.t,
    buildStateHistory s = Normal s' ∧
    length (State.stateHistory s') = length (State.referenceString s) ∧
    StepData.page <$> State.stateHistory s' = State.referenceString s ∧
    StepData.step <$> State.stateHistory s' =
      Z.of_nat <$> seq 1 (length (State.referenceString s)).
Proof.
  intros Hn Hmax. eexists. split; [apply buildStateHistory_normal; lia|].
  assert (length (State.stateHistory
            (g (for_loop 0 (State.referenceString s) (entry s)))) =
          length (State.referenceString s)) as Hlen.
  { by rewrite for_loop_history_length. }
  split; [done|].
  split; apply list_eq; intros i; rewrite list_lookup_fmap.
  - destruct (State.referenceString s !! i) as [page|] eqn:Hi.
    + rewrite (history_lookup _ _ _ Hi). simpl.
      by destruct (process_step_page (Z.of_nat i) page (env_before s i))
        as [_ ->].
    + apply lookup_ge_None in Hi.
      rewrite (lookup_ge_None_2 (State.stateHistory _) i) by lia. done.
  - rewrite list_lookup_fmap.
    destruct (State.referenceString s !! i) as [page|] eqn:Hi.
    + rewrite (history_lookup _ _ _ Hi). simpl.
      rewrite lookup_seq_lt by (by eapply lookup_lt_Some). simpl.
      destruct (process_step_page (Z.of_nat i) page (env_before s i))
        as [-> _].
      f_equal. lia.
    + apply lookup_ge_None in Hi.
      rewrite (lookup_ge_None_2 (State.stateHistory _) i) by lia.
      rewrite lookup_seq_ge by lia. done.
Qed.


(** C8. An empty reference string is a legal input: with a frameCount from
    1 to 2^32 - 1 the engine returns normally with an empty history and both
    counters at zero, and [renderStats] over it shows 0 hits, 0 faults, 0
    steps and the hit ratio "0%", whatever the cursor is: the division is
    not evaluated. *)
Theorem C8_empty_reference_string (toFixed1 : Z → Z → string) (s : State.t) :
  1 <= State.frames s →
  State.frames s < 4294967296 →
  State.referenceString s = [] →
  ∃ s' : State.t,
    buildStateHistory s = Normal s' ∧
    State.stateHistory s' = [] ∧
    State.totalHits s' = 0 ∧ State.totalFaults s' = 0 ∧
    Stats.totalHits (renderStats toFixed1 s') = 0 ∧
    Stats.totalFaults (renderStats toFixed1 s') = 0 ∧
    Stats.totalSteps (renderStats toFixed1 s') = 0 ∧
    Stats.hitRatio (renderStats toFixed1 s') = "0%"%string.
Proof.
  intros Hn Hmax Hrefs. eexists.
  split; [apply buildStateHistory_normal; lia|].
  rewrite Hrefs. simpl. done.
Qed.

(** The empty reference string reaches the engine through the loader: the
    text "," passes the checks and splits into no page at all. *)
Lemma loadAndValidate_no_pages :
  loadAndValidate (Some 3) "," State.initial =
    (Normal (State.mk 3 [] [] (-1) true 0 0), Some (Alert_loaded 0 3)).
Proof. reflexivity. Qed.

(** C3, as stated, fails: the engine has no check of the frame count.  With
    0 frames and the reference string 7 it returns normally, with one
    record (a fault whose victim is [undefined] and whose slot is -1). *)
Lemma C3_engine_accepts_zero_frames :
  buildStateHistory (State.mk 0 [7] [] (-1) false 0 0) =
    Normal (State.mk 0 [7]
              [StepData.mk 1 7 [] [7] false true JUndefined (-1) (-1)]
              (-1) false 0 1).
Proof. reflexivity. Qed.

(** C3, amended.  A frame count below 1 does not reach the engine:
    [loadAndValidate] answers it with the alert for an invalid number of
    frames and returns with the state, and the history in it, unchanged; no
    record is produced. *)
Theorem C3_loader_rejects_frames_below_one
  (fv : Z) (refStringInput : string) (s : State.t) :
  fv < 1 →
  loadAndValidate (Some fv) refStringInput s =
    (Normal s, Some Alert_invalid_frames).
Proof.
  intros Hfv. unfold loadAndValidate.
  destruct (Z.ltb_spec fv 1); [done | lia].
Qed.

(** The loop does not touch [state.frames] and [state.referenceString]. *)
Lemma for_loop_inputs (j : Z) (l : list Z) (e : env) :
  State.frames (g (for_loop j l e)) = State.frames (g e) ∧
  State.referenceString (g (for_loop j l e)) = State.referenceString (g e).
Proof.
  revert j e. induction l as [|p l IH]; intros j e; simpl; [done|].
  destruct (IH (j + 1) (loop_body j p e)) as [-> ->].
  rewrite loop_body_eq. simpl. unfold process.
  destruct (negb _); [done|]. destruct (negb _); [done|].
  destruct (pop (stack e)). done.
Qed.

(** The loader runs the engine with 1 to 10 frames only. *)
Lemma loadAndValidate_loaded (framesValue : option Z) (refStringInput : string)
  (s : State.t) (c : completion State.t) (pages fv : Z) :
  loadAndValidate framesValue refStringInput s
    = (c, Some (Alert_loaded pages fv)) →
  framesValue = Some fv ∧ 1 <= fv <= 10 ∧
  ∃ s' : State.t, c = Normal s' ∧ State.frames s' = fv.
Proof.
  unfold loadAndValidate. destruct framesValue as [fv'|]; [|congruence].
  destruct (Z.ltb_spec fv' 1); [simpl; congruence|].
  destruct (Z.gtb_spec fv' 10); [simpl; congruence|]. simpl.
  destruct (String.eqb _ _); [congruence|].
  destruct (first_invalid _); [congruence|].
  rewrite buildStateHistory_normal by (simpl; lia).
  intros [= <- _ <-]. split; [done|]. split; [lia|].
  eexists. split; [done|]. by rewrite (proj1 (for_loop_inputs _ _ _)).
Qed.

(** * The theorems at concrete inputs *)

(** The fourth reference of 7 0 1 2 with 3 frames meets full frames. *)
Lemma C1_witness :
  let s := State.mk 3 [7; 0; 1; 2] [] (-1) false 0 0 in
  1 <= State.frames s ∧
  State.frames s < 4294967296 ∧
  State.referenceString s !! 3%nat = Some 2 ∧
  (JNum 2 ∉ frames (env_before s 3)) ∧
  (JNull ∉ frames (env_before s 3)) ∧
  ∃ (s' : State.t) (victim : Z) (slot : nat) (r : StepData.t),
    buildStateHistory s = Normal s' ∧
    State.stateHistory s' !! 3%nat = Some r ∧
    last (stack (env_before s 3)) = Some victim ∧
    StepData.replacedPage r = JNum victim ∧
    StepData.newPageIndex r = Z.of_nat slot.
Proof.
  intros s.
  assert (1 <= State.frames s) as H1 by (simpl; lia).
  assert (State.frames s < 4294967296) as Hm by (simpl; lia).
  assert (State.referenceString s !! 3%nat = Some 2) as H2 by reflexivity.
  assert (JNum 2 ∉ frames (env_before s 3)) as H3
    by (apply (bool_decide_unpack _); vm_compute; exact I).
  assert (JNull ∉ frames (env_before s 3)) as H4
    by (apply (bool_decide_unpack _); vm_compute; exact I).
  do 5 (split; [assumption|]).
  destruct (C1_fault_full_evicts_top s 3 2 H1 Hm H2 H3 H4)
    as (s' & victim & below & slot & r & Hb & Hst & _ & _ & _ & _ & Hr & _ & _
        & Hrp & _ & Hnew & _).
  exists s', victim, slot, r.
  split; [exact Hb|]. split; [exact Hr|].
  split; [rewrite Hst; apply last_snoc|]. split; [exact Hrp | exact Hnew].
Defined.

Lemma C9_witness :
  let s := State.mk 3 [7; 0; 1; 2] [] (-1) false 0 0 in
  1 <= State.frames s ∧
  State.referenceString s !! 3%nat = Some 2 ∧
  (JNum 2 ∉ frames (env_before s 3)) ∧
  (JNull ∉ frames (env_before s 3)) ∧
  stack (env_before s 3) ≠ [].
Proof.
  intros s.
  assert (1 <= State.frames s) as H1 by (simpl; lia).
  assert (State.referenceString s !! 3%nat = Some 2) as H2 by reflexivity.
  assert (JNum 2 ∉ frames (env_before s 3)) as H3
    by (apply (bool_decide_unpack _); vm_compute; exact I).
  assert (JNull ∉ frames (env_before s 3)) as H4
    by (apply (bool_decide_unpack _); vm_compute; exact I).
  do 4 (split; [assumption|]).
  exact (proj1 (C9_victim_lookup_succeeds s 3 2 H1 H2 H3 H4)).
Defined.

(** The fifth reference of 7 0 1 2 0 with 3 frames is resident. *)
Lemma C5_witness :
  let s := State.mk 3 [7; 0; 1; 2; 0] [] (-1) false 0 0 in
  State.frames s < 4294967296 ∧
  State.referenceString s !! 4%nat = Some 0 ∧
  (JNum 0 ∈ frames (env_before s 4)) ∧
  ∃ (s' : State.t) (r : StepData.t),
    buildStateHistory s = Normal s' ∧
    State.stateHistory s' !! 4%nat = Some r ∧
    StepData.isHit r = true ∧
    StepData.stack r = stack (env_before s 4).
Proof.
  intros s.
  assert (State.frames s < 4294967296) as Hm by (simpl; lia).
  assert (State.referenceString s !! 4%nat = Some 0) as H1 by reflexivity.
  assert (JNum 0 ∈ frames (env_before s 4)) as H2
    by (apply (bool_decide_unpack _); vm_compute; exact I).
  do 3 (split; [assumption|]).
  destruct (C5_hit_changes_nothing s 4 0 Hm H1 H2)
    as (s' & r & Hb & Hr & Hhit & _ & _ & Hsk & _).
  exists s', r. split; [exact Hb|]. split; [exact Hr|].
  split; [exact Hhit | exact Hsk].
Defined.

(** The second reference of 7 0 with 3 frames finds slot 1 empty. *)
Lemma C6_witness :
  let s := State.mk 3 [7; 0] [] (-1) false 0 0 in
  State.frames s < 4294967296 ∧
  State.referenceString s !! 1%nat = Some 0 ∧
  (JNum 0 ∉ frames (env_before s 1)) ∧
  (JNull ∈ frames (env_before s 1)) ∧
  ∃ (s' : State.t) (slot : nat) (r : StepData.t),
    buildStateHistory s = Normal s' ∧
    State.stateHistory s' !! 1%nat = Some r ∧
    StepData.newPageIndex r = Z.of_nat slot ∧
    StepData.replacedPage r = JNull.
Proof.
  intros s.
  assert (State.frames s < 4294967296) as Hm by (simpl; lia).
  assert (State.referenceString s !! 1%nat = Some 0) as H1 by reflexivity.
  assert (JNum 0 ∉ frames (env_before s 1)) as H2
    by (apply (bool_decide_unpack _); vm_compute; exact I).
  assert (JNull ∈ frames (env_before s 1)) as H3
    by (apply (bool_decide_unpack _); vm_compute; exact I).
  do 4 (split; [assumption|]).
  destruct (C6_fault_empty_slot s 1 0 Hm H1 H2 H3)
    as (s' & slot & r & Hb & _ & _ & Hr & _ & _ & Hnew & Hrp & _).
  exists s', slot, r. split; [exact Hb|]. split; [exact Hr|].
  split; [exact Hnew | exact Hrp].
Defined.

Lemma C4_witness :
  let s := State.mk 3 [7; 0; 1; 2; 0; 3; 0; 4] [] (-1) false 0 0 in
  1 <= State.frames s ∧
  State.frames s < 4294967296 ∧
  ∃ s' : State.t,
    buildStateHistory s = Normal s' ∧
    ∀ r : StepData.t, r ∈ State.stateHistory s' → NoDup (StepData.stack r).
Proof.
  intros s.
  assert (1 <= State.frames s) as H1 by (simpl; lia).
  assert (State.frames s < 4294967296) as Hm by (simpl; lia).
  do 2 (split; [assumption|]).
  destruct (C4_stack_frames_consistent s H1 Hm) as (s' & Hb & Hall).
  exists s'. split; [exact Hb|].
  intros r Hr. exact (proj2 (proj2 (proj2 (proj2 (Hall r Hr))))).
Defined.

Lemma C10_witness :
  let s := State.mk 3 [7; 0; 1; 2; 0; 3; 0; 4] [] (-1) false 0 0 in
  1 <= State.frames s ∧
  State.frames s < 4294967296 ∧
  ∃ s' : State.t,
    buildStateHistory s = Normal s' ∧
    ∀ r : StepData.t, r ∈ State.stateHistory s' →
      xorb (StepData.isHit r) (StepData.isFault r) = true.
Proof.
  intros s.
  assert (1 <= State.frames s) as H1 by (simpl; lia).
  assert (State.frames s < 4294967296) as Hm by (simpl; lia).
  do 2 (split; [assumption|]).
  destruct (C10_outcome_flags s H1 Hm) as (s' & Hb & Hall).
  exists s'. split; [exact Hb|].
  intros r Hr. exact (proj1 (Hall r Hr)).
Defined.

Lemma C7_witness :
  let s := State.mk 3 [7; 0; 1; 2; 0; 3; 0; 4] [] (-1) false 0 0 in
  1 <= State.frames s ∧
  State.frames s < 4294967296 ∧
  ∃ s' : State.t,
    buildStateHistory s = Normal s' ∧
    length (State.stateHistory s') = 8%nat ∧
    StepData.step <$> State.stateHistory s' = [1; 2; 3; 4; 5; 6; 7; 8].
Proof.
  intros s.
  assert (1 <= State.frames s) as H1 by (simpl; lia).
  assert (State.frames s < 4294967296) as Hm by (simpl; lia).
  do 2 (split; [assumption|]).
  destruct (C7_one_record_per_reference s H1 Hm) as (s' & Hb & Hlen & _ & Hstep).
  exists s'. split; [exact Hb|]. split; [exact Hlen | exact Hstep].
Defined.

Lemma C8_witness :
  let s := State.mk 3 [] [] (-1) false 0 0 in
  1 <= State.frames s ∧
  State.frames s < 4294967296 ∧
  State.referenceString s = [] ∧
  ∃ s' : State.t,
    buildStateHistory s = Normal s' ∧
    State.stateHistory s' = [] ∧
    Stats.hitRatio (renderStats (λ _ _, "NaN"%string) s') = "0%"%string.
Proof.
  intros s.
  assert (1 <= State.frames s) as H1 by (simpl; lia).
  assert (State.frames s < 4294967296) as Hm by (simpl; lia).
  assert (State.referenceString s = []) as H2 by reflexivity.
  do 3 (split; [assumption|]).
  destruct (C8_empty_reference_string (λ _ _, "NaN"%string) s H1 Hm H2)
    as (s' & Hb & Hh & _ & _ & _ & _ & _ & Hratio).
  exists s'. split; [exact Hb|]. split; [exact Hh | exact Hratio].
Defined.

Lemma C3_witness :
  0 < 1 ∧
  loadAndValidate (Some 0) "7 0 1" State.initial =
    (Normal State.initial, Some Alert_invalid_frames).
Proof.
  assert (0 < 1) as H1 by lia.
  split; [assumption|].
  exact (C3_loader_rejects_frames_below_one 0 "7 0 1" State.initial H1).
Defined.

(** * Further properties of the engine *)

(** ** The layout of the frames *)

Lemma packed_entry (n : Z) : packed n (replicate (Z.to_nat n) JNull) [].
Proof. split; simpl; [f_equal|]; lia. Qed.

Lemma packed_length (n : Z) (fr : list jsval) (sk : list Z) :
  packed n fr sk → length fr = Z.to_nat n.
Proof.
  intros [-> Hle]. rewrite length_app, length_fmap, length_replicate. lia.
Qed.

Lemma packed_lookup_stack (n : Z) (fr : list jsval) (sk : list Z)
  (k : nat) (p : Z) :
  packed n fr sk → sk !! k = Some p → fr !! k = Some (JNum p).
Proof.
  intros [-> _] Hk. rewrite lookup_app_l.
  - by rewrite list_lookup_fmap, Hk.
  - rewrite length_fmap. by eapply lookup_lt_Some.
Qed.

Lemma packed_lookup_page (n : Z) (fr : list jsval) (sk : list Z)
  (k : nat) (p : Z) :
  packed n fr sk → fr !! k = Some (JNum p) → sk !! k = Some p.
Proof.
  intros [-> _] Hk. destruct (decide (k < length sk)%nat) as [Hlt|Hge].
  - rewrite lookup_app_l in Hk by (by rewrite length_fmap).
    rewrite list_lookup_fmap in Hk.
    destruct (sk !! k); simpl in Hk; congruence.
  - rewrite lookup_app_r in Hk by (rewrite length_fmap; lia).
    apply lookup_replicate in Hk as [? _]. done.
Qed.

(** The first empty slot is the one just after the stack. *)
Lemma packed_first_null (n : Z) (fr : list jsval) (sk : list Z) (k : nat) :
  packed n fr sk → fr !! k = Some JNull →
  (∀ j : nat, (j < k)%nat → fr !! j ≠ Some JNull) →
  k = length sk ∧ (length sk < Z.to_nat n)%nat.
Proof.
  intros Hp Hk Hfirst.
  pose proof (lookup_lt_Some _ _ _ Hk) as Hlt.
  rewrite (packed_length _ _ _ Hp) in Hlt.
  destruct Hp as [-> Hle].
  assert (length sk ≤ k)%nat as Hge.
  { destruct (decide (k < length sk)%nat) as [Hlt'|]; [|lia].
    rewrite lookup_app_l in Hk by (by rewrite length_fmap).
    rewrite list_lookup_fmap in Hk.
    destruct (sk !! k); simpl in Hk; congruence. }
  split; [|lia].
  destruct (decide (k = length sk)) as [|Hne]; [done|].
  exfalso. apply (Hfirst (length sk)); [lia|].
  rewrite lookup_app_r by (by rewrite length_fmap).
  rewrite length_fmap, Nat.sub_diag.
  apply lookup_replicate. split; [done | lia].
Qed.

(** With no empty slot the stack has as many pages as there are frames. *)
Lemma packed_full (n : Z) (fr : list jsval) (sk : list Z) :
  packed n fr sk → JNull ∉ fr → length sk = Z.to_nat n.
Proof.
  intros [-> Hle] Hfull.
  destruct (decide (length sk = Z.to_nat n)) as [|Hne]; [done|].
  exfalso. apply Hfull. apply elem_of_app. right.
  apply elem_of_replicate. split; [done | lia].
Qed.

Lemma packed_load (n : Z) (fr : list jsval) (sk : list Z) (page : Z) :
  packed n fr sk → (length sk < Z.to_nat n)%nat →
  packed n (<[length sk := JNum page]> fr) (sk ++ [page]).
Proof.
  intros [-> Hle] Hlt. split; [|rewrite length_app; simpl; lia].
  rewrite insert_app_r_alt by (by rewrite length_fmap).
  rewrite length_fmap, Nat.sub_diag, length_app. simpl.
  replace (Z.to_nat n - length sk)%nat
    with (S (Z.to_nat n - (length sk + 1)))%nat by lia.
  simpl. rewrite fmap_app, <- app_assoc. done.
Qed.

Lemma packed_replace_top (n : Z) (fr : list jsval) (below : list Z)
  (victim page : Z) :
  packed n fr (below ++ [victim]) →
  packed n (<[length below := JNum page]> fr) (below ++ [page]).
Proof.
  intros [-> Hle]. rewrite length_app in *. simpl in *.
  split; [|rewrite length_app; simpl; lia].
  rewrite !fmap_app, <- !app_assoc.
  rewrite insert_app_r_alt by (by rewrite length_fmap).
  rewrite length_fmap, Nat.sub_diag, length_app. simpl. done.
Qed.

(** The three branches of the body, under the invariants: a hit, a load
    into the slot just after the stack, or the replacement of the page in
    the last slot. *)
Lemma process_cases (n i page : Z) (e : env) :
  1 <= n → coherent n (frames e) (stack e) → packed n (frames e) (stack e) →
  (JNum page ∈ frames e ∧
   process i page e =
     (StepData.mk (i + 1) page (frames e) (stack e) true false JNull (-1) (-1),
      Env (count_hit (g e)) (frames e) (stack e)))
  ∨ ((JNum page ∉ frames e) ∧ JNull ∈ frames e ∧
     Z.of_nat (length (stack e)) < n ∧
     process i page e =
       (StepData.mk (i + 1) page
          (<[length (stack e) := JNum page]> (frames e)) (stack e ++ [page])
          false true JNull (-1) (Z.of_nat (length (stack e))),
        Env (count_fault (g e))
          (<[length (stack e) := JNum page]> (frames e)) (stack e ++ [page])))
  ∨ ((JNum page ∉ frames e) ∧ (JNull ∉ frames e) ∧
     ∃ (below : list Z) (victim : Z),
       stack e = below ++ [victim] ∧ Z.of_nat (length below) = n - 1 ∧
       process i page e =
         (StepData.mk (i + 1) page
            (<[length below := JNum page]> (frames e)) (below ++ [page])
            false true (JNum victim) (n - 1) (n - 1),
          Env (count_fault (g e))
            (<[length below := JNum page]> (frames e)) (below ++ [page]))).
Proof.
  intros Hn Hcoh Hp.
  destruct (decide (JNum page ∈ frames e)) as [Hin|Hout].
  { left. split; [done|]. by apply process_hit. }
  right. destruct (decide (JNull ∈ frames e)) as [Hnull|Hfull].
  - left. destruct (process_fault_empty i page e Hout Hnull)
      as (k & Hk & Hfirst & Hproc).
    destruct (packed_first_null _ _ _ _ Hp Hk Hfirst) as [-> Hlt].
    do 2 (split; [done|]). split; [lia|]. exact Hproc.
  - right. do 2 (split; [done|]).
    destruct (process_fault_full n i page e Hcoh Hn Hout Hfull)
      as (victim & below & k & Hstack & Hk & _ & Hproc).
    pose proof (packed_full _ _ _ Hp Hfull) as Hlen.
    rewrite Hstack, length_app in Hlen. simpl in Hlen.
    assert (k = length below) as ->.
    { apply (coh_slots _ _ _ Hcoh k (length below) victim Hk).
      apply (packed_lookup_stack _ _ _ _ _ Hp). rewrite Hstack.
      rewrite lookup_app_r by done. by rewrite Nat.sub_diag. }
    exists below, victim. split; [done|]. split; [lia|].
    rewrite Hproc. replace (Z.of_nat (length below)) with (n - 1) by lia.
    done.
Qed.

Lemma process_packed (n i page : Z) (e : env) :
  1 <= n → coherent n (frames e) (stack e) → packed n (frames e) (stack e) →
  packed n (frames (process i page e).2) (stack (process i page e).2).
Proof.
  intros Hn Hcoh Hp.
  destruct (process_cases n i page e Hn Hcoh Hp)
    as [[_ ->]|[(_ & _ & Hlt & ->)|(_ & _ & below & victim & Hst & _ & ->)]];
    simpl.
  - done.
  - apply packed_load; [done | lia].
  - rewrite Hst in Hp. by eapply packed_replace_top.
Qed.

Lemma for_loop_packed (n j : Z) (l : list Z) (e : env) :
  1 <= n → coherent n (frames e) (stack e) → packed n (frames e) (stack e) →
  packed n (frames (for_loop j l e)) (stack (for_loop j l e)).
Proof.
  intros Hn. revert j e.
  induction l as [|p l IH]; intros j e Hcoh Hp; [done|].
  simpl. apply IH; rewrite loop_body_eq; simpl.
  - by apply process_coherent.
  - by apply process_packed.
Qed.

Lemma env_before_packed (s : State.t) (i : nat) :
  1 <= State.frames s →
  packed (State.frames s) (frames (env_before s i)) (stack (env_before s i)).
Proof.
  intros Hn. apply for_loop_packed; simpl; [done| |apply packed_entry].
  apply coherent_entry. lia.
Qed.

(** The cases of an iteration of the engine, for at least one frame. *)
Lemma iteration_cases (s : State.t) (i : nat) (page : Z) :
  1 <= State.frames s →
  let e := env_before s i in
  let n := State.frames s in
  (JNum page ∈ frames e ∧
   process (Z.of_nat i) page e =
     (StepData.mk (Z.of_nat i + 1) page (frames e) (stack e)
        true false JNull (-1) (-1),
      Env (count_hit (g e)) (frames e) (stack e)))
  ∨ ((JNum page ∉ frames e) ∧ JNull ∈ frames e ∧
     Z.of_nat (length (stack e)) < n ∧
     process (Z.of_nat i) page e =
       (StepData.mk (Z.of_nat i + 1) page
          (<[length (stack e) := JNum page]> (frames e)) (stack e ++ [page])
          false true JNull (-1) (Z.of_nat (length (stack e))),
        Env (count_fault (g e))
          (<[length (stack e) := JNum page]> (frames e)) (stack e ++ [page])))
  ∨ ((JNum page ∉ frames e) ∧ (JNull ∉ frames e) ∧
     ∃ (below : list Z) (victim : Z),
       stack e = below ++ [victim] ∧ Z.of_nat (length below) = n - 1 ∧
       process (Z.of_nat i) page e =
         (StepData.mk (Z.of_nat i + 1) page
            (<[length below := JNum page]> (frames e)) (below ++ [page])
            false true (JNum victim) (n - 1) (n - 1),
          Env (count_fault (g e))
            (<[length below := JNum page]> (frames e)) (below ++ [page]))).
Proof.
  intros Hn e n. apply process_cases; [done| |].
  - by apply env_before_coherent.
  - by apply env_before_packed.
Qed.

(** Every record of the history, with the variables it was built from. *)
Lemma history_elem_cases (s : State.t) (r : StepData.t) :
  1 <= State.frames s →
  r ∈ State.stateHistory (g (for_loop 0 (State.referenceString s) (entry s))) →
  ∃ (i : nat) (page : Z),
    State.referenceString s !! i = Some page ∧
    r = (process (Z.of_nat i) page (env_before s i)).1 ∧
    coherent (State.frames s) (frames (env_before s i))
      (stack (env_before s i)) ∧
    packed (State.frames s) (frames (env_before s i))
      (stack (env_before s i)).
Proof.
  intros Hn Hr. apply history_elem in Hr as (i & page & Hi & ->).
  exists i, page. split; [done|]. split; [done|].
  split; [by apply env_before_coherent | by apply env_before_packed].
Qed.

(** X1. With a frameCount from 1 to 2^32 - 1, in every record the frames
    snapshot spells the stack snapshot slot by slot, bottom of the stack in
    slot 0, followed by the empty slots: the order of the slots is the order
    of loading. *)
Theorem frames_spell_the_stack (s : State.t) :
  1 <= State.frames s →
  State.frames s < 4294967296 →
  ∃ s' : State.t,
    buildStateHistory s = Normal s' ∧
    ∀ r : StepData.t, r ∈ State.stateHistory s' →
      StepData.frames r =
        (JNum <$> StepData.stack r) ++
        replicate (Z.to_nat (State.frames s) - length (StepData.stack r)) JNull.
Proof.
  intros Hn Hmax. eexists. split; [apply buildStateHistory_normal; lia|].
  intros r Hr.
  apply (history_elem_cases s r Hn) in Hr as (i & page & Hi & -> & Hcoh & Hp).
  destruct (process_snapshot (Z.of_nat i) page (env_before s i)) as [-> ->].
  by destruct (process_packed _ (Z.of_nat i) page _ Hn Hcoh Hp) as [-> _].
Qed.

(** X2. With a frameCount from 1 to 2^32 - 1, a fault puts the new page in
    the slot whose index is the height of the stack below it; and whenever a
    page is evicted, the slot is the last one, frameCount - 1: once the
    frames are full only the last frame ever changes. *)
Theorem eviction_hits_last_slot (s : State.t) :
  1 <= State.frames s →
  State.frames s < 4294967296 →
  ∃ s' : State.t,
    buildStateHistory s = Normal s' ∧
    ∀ r : StepData.t, r ∈ State.stateHistory s' →
      StepData.isFault r = true →
      StepData.newPageIndex r = Z.of_nat (length (StepData.stack r)) - 1 ∧
      (StepData.replacedPage r ≠ JNull →
       StepData.replacedIndex r = State.frames s - 1 ∧
       StepData.newPageIndex r = State.frames s - 1).
Proof.
  intros Hn Hmax. eexists. split; [apply buildStateHistory_normal; lia|].
  intros r Hr.
  apply (history_elem_cases s r Hn) in Hr as (i & page & Hi & -> & Hcoh & Hp).
  destruct (process_cases _ (Z.of_nat i) page _ Hn Hcoh Hp)
    as [[_ ->]|[(_ & _ & _ & ->)|(_ & _ & below & victim & _ & Hlen & ->)]];
    simpl; intros Hf; [done| |].
  - rewrite length_app. simpl. split; [lia | done].
  - rewrite length_app. simpl. split; [lia | done].
Qed.

(** A page in a slot other than the last one stays there over an
    iteration. *)
Lemma sticky_step (s : State.t) (i k : nat) (page p : Z) :
  1 <= State.frames s →
  State.referenceString s !! i = Some page →
  Z.of_nat k < State.frames s - 1 →
  frames (env_before s i) !! k = Some (JNum p) →
  frames (env_before s (S i)) !! k = Some (JNum p).
Proof.
  intros Hn Hi Hk Hp.
  destruct (env_before_snapshot s i page Hi) as [-> _].
  pose proof (env_before_packed s i Hn) as Hpk.
  pose proof (lookup_lt_Some _ _ _ (packed_lookup_page _ _ _ _ _ Hpk Hp)).
  destruct (iteration_cases s i page Hn)
    as [[_ ->]|[(_ & _ & _ & ->)|(_ & _ & below & victim & _ & Hlen & ->)]];
    simpl; [done| |]; rewrite list_lookup_insert_ne by lia; done.
Qed.

Lemma sticky_steps (s : State.t) (i d k : nat) (p : Z) :
  1 <= State.frames s →
  (i + d ≤ length (State.referenceString s))%nat →
  Z.of_nat k < State.frames s - 1 →
  frames (env_before s i) !! k = Some (JNum p) →
  frames (env_before s (i + d)) !! k = Some (JNum p).
Proof.
  intros Hn Hle Hk Hp. induction d as [|d IH].
  - by rewrite Nat.add_0_r.
  - destruct (lookup_lt_is_Some_2 (State.referenceString s) (i + d))
      as [page Hpage]; [lia|].
    rewrite Nat.add_succ_r. eapply sticky_step; [done..|]. apply IH. lia.
Qed.

(** The frames snapshot of record [i] is the frames array after
    iteration [i]. *)
Lemma record_frames (s : State.t) (i : nat) (r : StepData.t) :
  State.stateHistory (g (for_loop 0 (State.referenceString s) (entry s))) !! i
    = Some r →
  (i < length (State.referenceString s))%nat ∧
  StepData.frames r = frames (env_before s (S i)) ∧
  StepData.stack r = stack (env_before s (S i)).
Proof.
  intros Hr. pose proof (lookup_lt_Some _ _ _ Hr) as Hlt.
  rewrite for_loop_history_length in Hlt. simpl in Hlt.
  destruct (lookup_lt_is_Some_2 (State.referenceString s) i Hlt)
    as [page Hpage].
  rewrite (history_lookup _ _ _ Hpage) in Hr. injection Hr as <-.
  destruct (env_before_snapshot s i page Hpage) as [-> ->]. done.
Qed.

(** X3. With a frameCount from 1 to 2^32 - 1, a page loaded into a slot other
    than the last one is never evicted: it is in the same slot in every
    later record. *)
Theorem early_slots_never_change (s : State.t) :
  1 <= State.frames s →
  State.frames s < 4294967296 →
  ∃ s' : State.t,
    buildStateHistory s = Normal s' ∧
    ∀ (i j k : nat) (ri rj : StepData.t) (p : Z),
      (i ≤ j)%nat →
      State.stateHistory s' !! i = Some ri →
      State.stateHistory s' !! j = Some rj →
      Z.of_nat k < State.frames s - 1 →
      StepData.frames ri !! k = Some (JNum p) →
      StepData.frames rj !! k = Some (JNum p).
Proof.
  intros Hn Hmax. eexists. split; [apply buildStateHistory_normal; lia|].
  intros i j k ri rj p Hij Hri Hrj Hk Hp.
  apply record_frames in Hri as (_ & Hfi & _).
  apply record_frames in Hrj as (Hj & Hfj & _).
  rewrite Hfi in Hp. rewrite Hfj.
  replace (S j) with (S i + (j - i))%nat by lia.
  apply sticky_steps; [done | lia | done | done].
Qed.

(** ** Counters *)

Lemma count_hits_cons (r : StepData.t) (h : list StepData.t) :
  count_hits (r :: h) = (if StepData.isHit r then 1 else 0) + count_hits h.
Proof.
  unfold count_hits. rewrite filter_cons.
  destruct (StepData.isHit r); simpl; [|done].
  destruct (decide (true = true)); [simpl; lia | done].
Qed.

Lemma count_faults_cons (r : StepData.t) (h : list StepData.t) :
  count_faults (r :: h) = (if StepData.isFault r then 1 else 0) + count_faults h.
Proof.
  unfold count_faults. rewrite filter_cons.
  destruct (StepData.isFault r); simpl; [|done].
  destruct (decide (true = true)); [simpl; lia | done].
Qed.

Lemma count_hits_app (h1 h2 : list StepData.t) :
  count_hits (h1 ++ h2) = count_hits h1 + count_hits h2.
Proof. unfold count_hits. rewrite filter_app, length_app. lia. Qed.

Lemma count_faults_app (h1 h2 : list StepData.t) :
  count_faults (h1 ++ h2) = count_faults h1 + count_faults h2.
Proof. unfold count_faults. rewrite filter_app, length_app. lia. Qed.

(** Each iteration raises the counter of the flag it sets. *)
Lemma process_counters (i page : Z) (e : env) :
  State.totalHits (g (process i page e).2) =
    State.totalHits (g e) + count_hits [(process i page e).1] ∧
  State.totalFaults (g (process i page e).2) =
    State.totalFaults (g e) + count_faults [(process i page e).1].
Proof.
  rewrite count_hits_cons, count_faults_cons.
  unfold process, count_hits, count_faults.
  destruct (negb _); [simpl; split; lia|].
  destruct (negb _); [simpl; split; lia|].
  destruct (pop (stack e)). simpl. split; lia.
Qed.

Lemma for_loop_counters (j : Z) (l : list Z) (e : env) :
  State.totalHits (g (for_loop j l e))
    - count_hits (State.stateHistory (g (for_loop j l e)))
  = State.totalHits (g e) - count_hits (State.stateHistory (g e)) ∧
  State.totalFaults (g (for_loop j l e))
    - count_faults (State.stateHistory (g (for_loop j l e)))
  = State.totalFaults (g e) - count_faults (State.stateHistory (g e)).
Proof.
  revert j e. induction l as [|p l IH]; intros j e; simpl; [done|].
  destruct (IH (j + 1) (loop_body j p e)) as [-> ->].
  rewrite loop_body_history, count_hits_app, count_faults_app.
  rewrite loop_body_eq. simpl.
  destruct (process_counters j p e) as [-> ->]. lia.
Qed.

(** In a history whose records set exactly one flag, hits and faults add up
    to the number of records. *)
Lemma count_sum (h : list StepData.t) :
  Forall (λ r, StepData.isHit r = negb (StepData.isFault r)) h →
  count_hits h + count_faults h = Z.of_nat (length h).
Proof.
  induction 1 as [|r h Hr _ IH]; [done|].
  rewrite count_hits_cons, count_faults_cons. simpl length.
  rewrite Hr. destruct (StepData.isFault r); simpl; lia.
Qed.

Lemma history_flags (s : State.t) :
  Forall (λ r, StepData.isHit r = negb (StepData.isFault r))
    (State.stateHistory (g (for_loop 0 (State.referenceString s) (entry s)))).
Proof.
  apply Forall_forall. intros r Hr.
  apply history_elem in Hr as (i & page & _ & ->).
  by destruct (process_flags (Z.of_nat i) page (env_before s i)) as [-> _].
Qed.

(** X4. With a frameCount from 0 to 2^32 - 1, the running counters of the
    engine are the numbers of hit and of fault records of the history it
    built, and add up to the number of references. *)
Theorem counters_count_the_records (s : State.t) :
  0 <= State.frames s →
  State.frames s < 4294967296 →
  ∃ s' : State.t,
    buildStateHistory s = Normal s' ∧
    State.totalHits s' = count_hits (State.stateHistory s') ∧
    State.totalFaults s' = count_faults (State.stateHistory s') ∧
    State.totalHits s' + State.totalFaults s' =
      Z.of_nat (length (State.referenceString s)).
Proof.
  intros Hn Hmax. eexists. split; [by apply buildStateHistory_normal|].
  destruct (for_loop_counters 0 (State.referenceString s) (entry s))
    as [Hh Hf].
  simpl in Hh, Hf.
  change (count_hits []) with 0 in Hh. change (count_faults []) with 0 in Hf.
  pose proof (count_sum _ (history_flags s)) as Hsum.
  rewrite for_loop_history_length in Hsum. simpl in Hsum.
  split; [lia|]. split; [lia|]. lia.
Qed.

(** The counting loop of [renderStats] counts the records up to the
    cursor. *)
Lemma stats_loop_spec (i cur : Z) (rest : list StepData.t) (hits faults : Z) :
  stats_loop i cur rest hits faults =
    (hits + count_hits (take (Z.to_nat (cur - i + 1)) rest),
     faults + count_faults (take (Z.to_nat (cur - i + 1)) rest)).
Proof.
  revert i hits faults.
  induction rest as [|sd rest IH]; intros i hits faults; simpl.
  - rewrite take_nil. unfold count_hits, count_faults. simpl. f_equal; lia.
  - destruct (Z.leb_spec i cur) as [Hle|Hgt].
    + rewrite IH.
      replace (Z.to_nat (cur - i + 1)) with (S (Z.to_nat (cur - (i + 1) + 1)))
        by lia.
      simpl. rewrite count_hits_cons, count_faults_cons.
      destruct (StepData.isHit sd), (StepData.isFault sd); f_equal; lia.
    + replace (Z.to_nat (cur - i + 1)) with 0%nat by lia.
      simpl. unfold count_hits, count_faults. simpl. f_equal; lia.
Qed.

(** X5. With the cursor at [c] (from -1, not started), [renderStats] over a
    history of the engine (run with a frameCount from 0 to 2^32 - 1) shows
    hits and faults that add up to the number of steps up to the cursor, at
    most the length of the history; it shows [c + 1] as the current step,
    even when that exceeds the number of steps; and with the cursor on or
    past the last step it shows the counters of the engine. *)
Theorem renderStats_counts_up_to_cursor
  (toFixed1 : Z → Z → string) (s : State.t) (c : Z) :
  0 <= State.frames s → State.frames s < 4294967296 → -1 <= c →
  ∃ s' : State.t,
    buildStateHistory s = Normal s' ∧
    let shown := renderStats toFixed1 (with_currentStep c s') in
    let N := Z.of_nat (length (State.referenceString s)) in
    Stats.totalHits shown + Stats.totalFaults shown = Z.min (c + 1) N ∧
    Stats.currentStep shown = c + 1 ∧
    Stats.totalSteps shown = N ∧
    (N - 1 <= c →
     Stats.totalHits shown = State.totalHits s' ∧
     Stats.totalFaults shown = State.totalFaults s').
Proof.
  intros Hn Hmax Hc. eexists. split; [by apply buildStateHistory_normal|].
  set (h := State.stateHistory
              (g (for_loop 0 (State.referenceString s) (entry s)))).
  assert (length h = length (State.referenceString s)) as Hlen.
  { unfold h. by rewrite for_loop_history_length. }
  unfold renderStats. simpl. fold h. rewrite stats_loop_spec. simpl.
  rewrite Hlen. split.
  - assert (Forall (λ r, StepData.isHit r = negb (StepData.isFault r))
              (take (Z.to_nat (c - 0 + 1)) h)) as Hfl.
    { apply Forall_take. apply history_flags. }
    apply count_sum in Hfl. rewrite length_take in Hfl. lia.
  - do 2 (split; [done|]). intros Hlast.
    rewrite take_ge by lia.
    destruct (for_loop_counters 0 (State.referenceString s) (entry s))
      as [Hh Hf].
    simpl in Hh, Hf.
    change (count_hits []) with 0 in Hh. change (count_faults []) with 0 in Hf.
    fold h in Hh, Hf. lia.
Qed.

(** ** Edge cases of the frame count *)

(** With an empty frames array every lookup fails and the write lands
    outside the array. *)
Lemma process_no_frames (i page : Z) (e : env) :
  frames e = [] →
  process i page e =
    (StepData.mk (i + 1) page [] ((pop (stack e)).2 ++ [page]) false true
       (pop (stack e)).1 (-1) (-1),
     Env (count_fault (g e)) [] ((pop (stack e)).2 ++ [page])).
Proof.
  intros Hfr. unfold process. rewrite Hfr. simpl.
  destruct (pop (stack e)) as [victim popped]. simpl.
  by destruct victim.
Qed.

Lemma env_before_no_frames (s : State.t) (i : nat) :
  State.frames s = 0 →
  (i ≤ length (State.referenceString s))%nat →
  frames (env_before s i) = [] ∧
  stack (env_before s i) = option_list (last (take i (State.referenceString s))).
Proof.
  intros Hn Hi. split.
  { apply length_zero_iff_nil. rewrite env_before_frames_length. lia. }
  induction i as [|i IH]; [by rewrite take_0|].
  destruct (lookup_lt_is_Some_2 (State.referenceString s) i) as [page Hpage];
    [lia|].
  rewrite (env_before_S _ _ _ Hpage), loop_body_eq.
  rewrite process_no_frames
    by (apply length_zero_iff_nil; rewrite env_before_frames_length; lia).
  simpl. rewrite IH by lia.
  rewrite (take_S_r _ _ _ Hpage), last_snoc. simpl.
  by destruct (last (take i (State.referenceString s))).
Qed.

(** X6. With 0 frames the engine still returns one record per reference: each
    is a fault that stores nothing (the frames snapshot is empty and both
    indices are -1), the stack holds only the requested page, and the
    replaced page is [undefined] at the first step and the previous
    reference afterwards. *)
Theorem zero_frames_all_faults (s : State.t) :
  State.frames s = 0 →
  ∃ s' : State.t,
    buildStateHistory s = Normal s' ∧
    ∀ (i : nat) (page : Z),
      State.referenceString s !! i = Some page →
      State.stateHistory s' !! i =
        Some (StepData.mk (Z.of_nat i + 1) page [] [page] false true
                (from_option JNum JUndefined
                   (last (take i (State.referenceString s))))
                (-1) (-1)).
Proof.
  intros Hn. eexists. split; [apply buildStateHistory_normal; lia|].
  intros i page Hi. rewrite (history_lookup _ _ _ Hi).
  pose proof (lookup_lt_Some _ _ _ Hi) as Hlt.
  destruct (env_before_no_frames s i Hn) as [Hfr Hsk]; [lia|].
  rewrite (process_no_frames _ _ _ Hfr), Hsk. simpl.
  by destruct (last (take i (State.referenceString s))).
Qed.

(** ** Recomputation *)

(** What an iteration reads and writes besides the two inputs: the arrays,
    the history and the counters. *)
Lemma loop_body_core (i page : Z) (e1 e2 : env) :
  frames e1 = frames e2 → stack e1 = stack e2 →
  State.stateHistory (g e1) = State.stateHistory (g e2) →
  State.totalHits (g e1) = State.totalHits (g e2) →
  State.totalFaults (g e1) = State.totalFaults (g e2) →
  frames (loop_body i page e1) = frames (loop_body i page e2) ∧
  stack (loop_body i page e1) = stack (loop_body i page e2) ∧
  State.stateHistory (g (loop_body i page e1)) =
    State.stateHistory (g (loop_body i page e2)) ∧
  State.totalHits (g (loop_body i page e1)) =
    State.totalHits (g (loop_body i page e2)) ∧
  State.totalFaults (g (loop_body i page e1)) =
    State.totalFaults (g (loop_body i page e2)).
Proof.
  destruct e1 as [g1 fr1 sk1], e2 as [g2 fr2 sk2]. simpl.
  intros <- <- Hh Ht Hf. unfold loop_body, process. simpl.
  destruct (negb _); [simpl; rewrite Hh, Ht, Hf; done|].
  destruct (negb _); [simpl; rewrite Hh, Ht, Hf; done|].
  destruct (pop sk1). simpl. rewrite Hh, Ht, Hf. done.
Qed.

Lemma for_loop_core (j : Z) (l : list Z) (e1 e2 : env) :
  frames e1 = frames e2 → stack e1 = stack e2 →
  State.stateHistory (g e1) = State.stateHistory (g e2) →
  State.totalHits (g e1) = State.totalHits (g e2) →
  State.totalFaults (g e1) = State.totalFaults (g e2) →
  State.stateHistory (g (for_loop j l e1)) =
    State.stateHistory (g (for_loop j l e2)) ∧
  State.totalHits (g (for_loop j l e1)) =
    State.totalHits (g (for_loop j l e2)) ∧
  State.totalFaults (g (for_loop j l e1)) =
    State.totalFaults (g (for_loop j l e2)).
Proof.
  revert j e1 e2. induction l as [|p l IH]; intros j e1 e2 H1 H2 H3 H4 H5.
  - done.
  - simpl.
    destruct (loop_body_core j p e1 e2 H1 H2 H3 H4 H5)
      as (? & ? & ? & ? & ?).
    by apply IH.
Qed.

(** The loop leaves the cursor and the loaded flag alone. *)
Lemma for_loop_cursor (j : Z) (l : list Z) (e : env) :
  State.currentStep (g (for_loop j l e)) = State.currentStep (g e) ∧
  State.isLoaded (g (for_loop j l e)) = State.isLoaded (g e).
Proof.
  revert j e. induction l as [|p l IH]; intros j e; simpl; [done|].
  destruct (IH (j + 1) (loop_body j p e)) as [-> ->].
  rewrite loop_body_eq. simpl. unfold process.
  destruct (negb _); [done|]. destruct (negb _); [done|].
  destruct (pop (stack e)). done.
Qed.

(** X7. The engine recomputes from scratch: its result depends on the frame
    count and the reference string only.  Two states that agree on these
    two get the same history and counters, whatever history and counters
    they held before; the cursor and the loaded flag are passed through. *)
Theorem engine_ignores_previous_run (s1 s2 : State.t) :
  State.frames s1 = State.frames s2 →
  State.referenceString s1 = State.referenceString s2 →
  ∀ s1' : State.t, buildStateHistory s1 = Normal s1' →
  ∃ s2' : State.t,
    buildStateHistory s2 = Normal s2' ∧
    State.stateHistory s2' = State.stateHistory s1' ∧
    State.totalHits s2' = State.totalHits s1' ∧
    State.totalFaults s2' = State.totalFaults s1' ∧
    State.frames s2' = State.frames s2 ∧
    State.referenceString s2' = State.referenceString s2 ∧
    State.currentStep s2' = State.currentStep s2 ∧
    State.isLoaded s2' = State.isLoaded s2.
Proof.
  intros Hfr Hrefs s1' Hb.
  assert (0 <= State.frames s1 < 4294967296 ∨
          (State.frames s1 < 0 ∨ 4294967296 <= State.frames s1))
    as [Hin|Hout] by lia.
  2:{ rewrite buildStateHistory_throw in Hb by done. discriminate. }
  rewrite buildStateHistory_normal in Hb by done. injection Hb as <-.
  eexists. split; [apply buildStateHistory_normal; lia|].
  rewrite Hrefs.
  destruct (for_loop_core 0 (State.referenceString s2) (entry s2) (entry s1))
    as (-> & -> & ->); simpl; try done.
  { by rewrite Hfr. }
  destruct (for_loop_inputs 0 (State.referenceString s2) (entry s2))
    as [-> ->].
  destruct (for_loop_cursor 0 (State.referenceString s2) (entry s2))
    as [-> ->].
  done.
Qed.

(** ** Residency *)

(** After an iteration the requested page is resident and in the stack; if
    the iteration faulted, the page is the top of the stack. *)
Lemma process_requested (n i page : Z) (e : env) :
  1 <= n → coherent n (frames e) (stack e) → packed n (frames e) (stack e) →
  JNum page ∈ frames (process i page e).2 ∧
  page ∈ stack (process i page e).2 ∧
  (StepData.isFault (process i page e).1 = true →
   last (stack (process i page e).2) = Some page).
Proof.
  intros Hn Hcoh Hp.
  pose proof (packed_length _ _ _ Hp) as Hlen.
  destruct (process_cases n i page e Hn Hcoh Hp)
    as [[Hin ->]|[(_ & _ & Hlt & ->)|(_ & _ & below & victim & _ & Hb & ->)]];
    simpl.
  - split; [done|]. split; [by apply (coh_same _ _ _ Hcoh) | done].
  - split; [|split].
    + apply list_elem_of_lookup. exists (length (stack e)).
      apply list_lookup_insert_eq. lia.
    + apply elem_of_app. right. left.
    + intros _. apply last_snoc.
  - split; [|split].
    + apply list_elem_of_lookup. exists (length below).
      apply list_lookup_insert_eq. lia.
    + apply elem_of_app. right. left.
    + intros _. apply last_snoc.
Qed.

(** X8. With a frameCount from 1 to 2^32 - 1, in every record the requested
    page is in the frames snapshot and in the stack snapshot, and after a
    fault it is the top of the stack. *)
Theorem requested_page_is_resident (s : State.t) :
  1 <= State.frames s →
  State.frames s < 4294967296 →
  ∃ s' : State.t,
    buildStateHistory s = Normal s' ∧
    ∀ r : StepData.t, r ∈ State.stateHistory s' →
      JNum (StepData.page r) ∈ StepData.frames r ∧
      StepData.page r ∈ StepData.stack r ∧
      (StepData.isFault r = true →
       last (StepData.stack r) = Some (StepData.page r)).
Proof.
  intros Hn Hmax. eexists. split; [apply buildStateHistory_normal; lia|].
  intros r Hr.
  apply (history_elem_cases s r Hn) in Hr as (i & page & Hi & -> & Hcoh & Hp).
  destruct (process_snapshot (Z.of_nat i) page (env_before s i)) as [-> ->].
  destruct (process_step_page (Z.of_nat i) page (env_before s i)) as [_ ->].
  by apply (process_requested (State.frames s)).
Qed.

(** X9. With a frameCount from 1 to 2^32 - 1, a reference that repeats the one
    just before it is a hit. *)
Theorem repeated_reference_hits (s : State.t) (i : nat) (page : Z) :
  1 <= State.frames s →
  State.frames s < 4294967296 →
  State.referenceString s !! i = Some page →
  State.referenceString s !! S i = Some page →
  ∃ (s' : State.t) (r : StepData.t),
    buildStateHistory s = Normal s' ∧
    State.stateHistory s' !! S i = Some r ∧
    StepData.isHit r = true ∧ StepData.isFault r = false.
Proof.
  intros Hn Hmax Hi HSi. eexists _, _.
  split; [apply buildStateHistory_normal; lia|].
  split; [apply (history_lookup _ _ _ HSi)|].
  rewrite process_hit; [done|].
  destruct (env_before_snapshot s i page Hi) as [-> _].
  destruct (process_snapshot (Z.of_nat i) page (env_before s i)) as [-> _].
  apply (process_requested (State.frames s)); [done| |].
  - by apply env_before_coherent.
  - by apply env_before_packed.
Qed.

(** A resident page has been requested before. *)
Lemma elem_of_array_set (a : list jsval) (i : Z) (v x : jsval) :
  x ∈ array_set a i v → x = v ∨ x ∈ a.
Proof.
  unfold array_set. destruct (_ && _) eqn:Hin; [|by right].
  apply andb_true_iff in Hin as [Hle Hlt].
  apply Z.leb_le in Hle. apply Z.ltb_lt in Hlt.
  intros Hx. apply elem_of_overwrite in Hx as [->|(j & _ & Hj)]; [by left| |lia].
  right. apply list_elem_of_lookup. eauto.
Qed.

Lemma process_resident (i page : Z) (e : env) (p : Z) :
  JNum p ∈ frames (process i page e).2 → p = page ∨ JNum p ∈ frames e.
Proof.
  unfold process.
  destruct (negb _); [by right|].
  destruct (negb _); simpl.
  - intros Hp. apply elem_of_array_set in Hp as [[= ->]|Hp]; auto.
  - destruct (pop (stack e)). simpl.
    intros Hp. apply elem_of_array_set in Hp as [[= ->]|Hp]; auto.
Qed.

Lemma env_before_resident (s : State.t) (i : nat) (p : Z) :
  (i ≤ length (State.referenceString s))%nat →
  JNum p ∈ frames (env_before s i) → p ∈ take i (State.referenceString s).
Proof.
  intros Hi. induction i as [|i IH].
  - intros Hp. by apply env_before_0 in Hp.
  - destruct (lookup_lt_is_Some_2 (State.referenceString s) i)
      as [page Hpage]; [lia|].
    rewrite (env_before_S _ _ _ Hpage), loop_body_eq. simpl.
    rewrite (take_S_r _ _ _ Hpage), elem_of_app, list_elem_of_singleton.
    intros Hp. apply process_resident in Hp as [->|Hp]; [by right|].
    left. apply IH; [lia | done].
Qed.

Lemma process_miss (i page : Z) (e : env) :
  JNum page ∉ frames e →
  StepData.isFault (process i page e).1 = true ∧
  StepData.isHit (process i page e).1 = false.
Proof.
  intros Hout. unfold process. rewrite (indexOf_notin _ _ Hout). simpl.
  destruct (negb _); [done|]. by destruct (pop (stack e)).
Qed.

(** X10. The first request of a page always faults, whatever the number of
    frames from 0 to 2^32 - 1. *)
Theorem first_request_faults (s : State.t) (i : nat) (page : Z) :
  0 <= State.frames s →
  State.frames s < 4294967296 →
  State.referenceString s !! i = Some page →
  page ∉ take i (State.referenceString s) →
  ∃ (s' : State.t) (r : StepData.t),
    buildStateHistory s = Normal s' ∧
    State.stateHistory s' !! i = Some r ∧
    StepData.isFault r = true ∧ StepData.isHit r = false.
Proof.
  intros Hn Hmax Hi Hnew. eexists _, _.
  split; [by apply buildStateHistory_normal|].
  split; [apply (history_lookup _ _ _ Hi)|].
  apply process_miss. intros Hp. apply Hnew.
  apply env_before_resident; [|done].
  apply lookup_lt_Some in Hi. lia.
Qed.

(** ** One frame *)

Lemma env_after_single_frame (s : State.t) (i : nat) (p : Z) :
  State.frames s = 1 →
  State.referenceString s !! i = Some p →
  frames (env_before s (S i)) = [JNum p] ∧ stack (env_before s (S i)) = [p].
Proof.
  intros Hn Hi.
  assert (1 <= State.frames s) as Hn1 by lia.
  pose proof (env_before_packed s (S i) Hn1) as Hpk.
  assert (JNum p ∈ frames (env_before s (S i))) as Hin.
  { rewrite (env_before_S _ _ _ Hi), loop_body_eq. simpl.
    apply (process_requested (State.frames s)); [done| |].
    - by apply env_before_coherent.
    - by apply env_before_packed. }
  destruct Hpk as [Hfr Hle]. rewrite Hn in Hfr, Hle.
  destruct (stack (env_before s (S i))) as [|x [|y sk]]; simpl in *; [| |lia].
  - rewrite Hfr in Hin. apply list_elem_of_singleton in Hin. done.
  - rewrite Hfr in Hin. apply list_elem_of_singleton in Hin as [= ->].
    by rewrite Hfr.
Qed.

(** X11. With one frame, the frame and the stack hold the latest reference.  A
    reference that repeats the previous one hits; any other one faults and
    evicts the previous reference from slot 0. *)
Theorem single_frame_holds_latest (s : State.t) (i : nat) (p q : Z) :
  State.frames s = 1 →
  State.referenceString s !! i = Some p →
  State.referenceString s !! S i = Some q →
  ∃ (s' : State.t) (r : StepData.t),
    buildStateHistory s = Normal s' ∧
    State.stateHistory s' !! S i = Some r ∧
    StepData.frames r = [JNum q] ∧ StepData.stack r = [q] ∧
    (p = q → StepData.isHit r = true ∧ StepData.replacedPage r = JNull) ∧
    (p ≠ q →
     StepData.isFault r = true ∧ StepData.replacedPage r = JNum p ∧
     StepData.replacedIndex r = 0 ∧ StepData.newPageIndex r = 0).
Proof.
  intros Hn Hi HSi. eexists _, _.
  split; [apply buildStateHistory_normal; lia|].
  split; [apply (history_lookup _ _ _ HSi)|].
  destruct (env_after_single_frame s i p Hn Hi) as [Hfr Hsk].
  unfold process. rewrite Hfr, Hsk. unfold indexOf. simpl.
  destruct (decide (JNum p = JNum q)) as [[= ->]|Hne]; simpl.
  - split; [done|]. split; [done|]. split; [done|]. intros Hqq. done.
  - destruct (decide (JNum p = JNum p)); [|done]. simpl.
    split; [done|]. split; [done|].
    split; [intros ->; done | done].
Qed.

(** ** Enough frames *)

(** While the frames outnumber the distinct pages, the stack holds exactly
    the pages requested so far. *)
Lemma env_before_all_seen (s : State.t) (i : nat) :
  Z.of_nat (size (list_to_set (State.referenceString s) : gset Z))
    <= State.frames s →
  (i ≤ length (State.referenceString s))%nat →
  (list_to_set (stack (env_before s i)) : gset Z) =
    list_to_set (take i (State.referenceString s)).
Proof.
  intros Hsize Hi. induction i as [|i IH]; [by rewrite take_0|].
  destruct (lookup_lt_is_Some_2 (State.referenceString s) i)
    as [page Hpage]; [lia|].
  assert ((list_to_set (take (S i) (State.referenceString s)) : gset Z) ⊆
          list_to_set (State.referenceString s)) as Hsub.
  { intros x. rewrite !elem_of_list_to_set. apply subseteq_take. }
  assert (1 <= State.frames s) as Hn.
  { apply subseteq_size in Hsub.
    rewrite (take_S_r _ _ _ Hpage), list_to_set_app_L in Hsub.
    simpl in Hsub.
    assert (size ({[page]} : gset Z) ≤
            size (list_to_set (take i (State.referenceString s)) ∪
                  ({[page]} ∪ ∅) : gset Z))%nat as Hone.
    { apply subseteq_size. intros x Hx.
      apply elem_of_union. right. apply elem_of_union. by left. }
    rewrite size_singleton in Hone. lia. }
  pose proof (env_before_coherent s i Hn) as Hcoh.
  pose proof (env_before_packed s i Hn) as Hpk.
  specialize (IH ltac:(lia)).
  rewrite (take_S_r _ _ _ Hpage), list_to_set_app_L. simpl.
  destruct (env_before_snapshot s i page Hpage) as [_ ->].
  destruct (iteration_cases s i page Hn)
    as [[Hin ->]|[(_ & _ & _ & ->)
                 |(Hout & Hfull & below & victim & Hst & _ & _)]];
    simpl.
  - apply (coh_same _ _ _ Hcoh) in Hin. rewrite IH.
    assert (page ∈ (list_to_set (take i (State.referenceString s)) : gset Z))
      as Hseen by (rewrite <- IH; by apply elem_of_list_to_set).
    rewrite union_empty_r_L. apply set_eq. intros x.
    rewrite elem_of_union, elem_of_singleton.
    split; [by left | by intros [Hx| ->]].
  - rewrite list_to_set_app_L, IH. done.
  - exfalso.
    pose proof (packed_full _ _ _ Hpk Hfull) as Hlen.
    pose proof (size_list_to_set (C := gset Z) _ (coh_stack _ _ _ Hcoh))
      as Hsz.
    assert (page ∉ (list_to_set (stack (env_before s i)) : gset Z)) as Hnew.
    { rewrite elem_of_list_to_set. intros Hp. apply Hout.
      by apply (coh_same _ _ _ Hcoh). }
    apply subseteq_size in Hsub.
    rewrite (take_S_r _ _ _ Hpage), list_to_set_app_L, <- IH in Hsub.
    simpl in Hsub. rewrite union_empty_r_L in Hsub.
    rewrite size_union in Hsub
      by (apply disjoint_singleton_r; exact Hnew).
    rewrite size_singleton in Hsub. lia.
Qed.

(** X12. When the frames are at least as many as the distinct pages of the
    reference string (and fewer than 2^32), nothing is ever evicted, and a
    reference hits exactly when its page was requested before: only first
    requests fault. *)
Theorem enough_frames_no_eviction (s : State.t) :
  Z.of_nat (size (list_to_set (State.referenceString s) : gset Z))
    <= State.frames s →
  State.frames s < 4294967296 →
  ∃ s' : State.t,
    buildStateHistory s = Normal s' ∧
    ∀ (i : nat) (page : Z) (r : StepData.t),
      State.referenceString s !! i = Some page →
      State.stateHistory s' !! i = Some r →
      StepData.replacedPage r = JNull ∧
      (StepData.isHit r = true ↔ page ∈ take i (State.referenceString s)).
Proof.
  intros Hsize Hmax. eexists. split; [apply buildStateHistory_normal; lia|].
  intros i page r Hi Hr.
  rewrite (history_lookup _ _ _ Hi) in Hr. injection Hr as <-.
  pose proof (lookup_lt_Some _ _ _ Hi) as Hlt.
  pose proof (env_before_all_seen s i Hsize ltac:(lia)) as Hseen.
  pose proof (env_before_all_seen s (S i) Hsize ltac:(lia)) as Hseen'.
  assert (1 <= State.frames s) as Hn.
  { assert (size ({[page]} : gset Z) ≤
            size (list_to_set (State.referenceString s) : gset Z))%nat
      as Hone.
    { apply subseteq_size. intros x Hx. apply elem_of_singleton in Hx as ->.
      apply elem_of_list_to_set. by eapply list_elem_of_lookup_2. }
    rewrite size_singleton in Hone. lia. }
  pose proof (env_before_coherent s i Hn) as Hcoh.
  assert (∀ p, p ∈ stack (env_before s i) ↔
               p ∈ take i (State.referenceString s)) as Hmem.
  { intros p. rewrite <- !(elem_of_list_to_set (C := gset Z)).
    by rewrite Hseen. }
  destruct (env_before_snapshot s i page Hi) as [_ Hsk].
  destruct (iteration_cases s i page Hn)
    as [[Hin Hproc]|[(Hout & _ & _ & Hproc)
                    |(Hout & Hfull & below & victim & Hst & _ & Hproc)]];
    rewrite Hproc in *; simpl in *.
  - split; [done|]. split; [|done]. intros _.
    apply Hmem. by apply (coh_same _ _ _ Hcoh).
  - split; [done|]. split; [done|]. intros Hp. exfalso.
    apply Hout. apply (coh_same _ _ _ Hcoh). by apply Hmem.
  - exfalso.
    pose proof (packed_full _ _ _ (env_before_packed s i Hn) Hfull) as Hlen.
    pose proof (size_list_to_set (C := gset Z) _ (coh_stack _ _ _ Hcoh))
      as Hsz.
    assert (page ∉ (list_to_set (stack (env_before s i)) : gset Z)) as Hnew.
    { rewrite elem_of_list_to_set. intros Hp. apply Hout.
      by apply (coh_same _ _ _ Hcoh). }
    assert ((list_to_set (take (S i) (State.referenceString s)) : gset Z) ⊆
            list_to_set (State.referenceString s)) as Hsub.
    { intros x. rewrite !elem_of_list_to_set. apply subseteq_take. }
    apply subseteq_size in Hsub.
    rewrite (take_S_r _ _ _ Hi), list_to_set_app_L, <- Hseen in Hsub.
    simpl in Hsub. rewrite union_empty_r_L in Hsub.
    rewrite size_union in Hsub
      by (apply disjoint_singleton_r; exact Hnew).
    rewrite size_singleton in Hsub. lia.
Qed.

(** * Properties of the loader *)

(** ** Strings *)

Lemma app_cons (c : ascii) (a b : string) :
  String c a +:+ b = String c (a +:+ b).
Proof. reflexivity. Qed.

Lemma app_empty_r (s : string) : s +:+ "" = s.
Proof. induction s as [|c s IH]; [done|]. by rewrite app_cons, IH. Qed.

Lemma app_assoc_string (a b c : string) : (a +:+ b) +:+ c = a +:+ (b +:+ c).
Proof. induction a as [|x a IH]; [done|]. by rewrite !app_cons, IH. Qed.

Lemma rev_app_acc (s acc : string) :
  String.rev_app s acc = String.rev s +:+ acc.
Proof.
  unfold String.rev. revert acc.
  induction s as [|c s IH]; intros acc; simpl; [done|].
  rewrite IH, (IH (String c "")), app_assoc_string. done.
Qed.

Lemma rev_app_app (a b acc : string) :
  String.rev_app (a +:+ b) acc = String.rev_app b (String.rev_app a acc).
Proof.
  revert acc. induction a as [|c a IH]; intros acc; [done|].
  rewrite app_cons. simpl. apply IH.
Qed.

Lemma rev_app_distr (a b : string) :
  String.rev (a +:+ b) = String.rev b +:+ String.rev a.
Proof. unfold String.rev at 1. by rewrite rev_app_app, rev_app_acc. Qed.

Lemma rev_cons (c : ascii) (s : string) :
  String.rev (String c s) = String.rev s +:+ String c "".
Proof. unfold String.rev at 1. simpl. apply rev_app_acc. Qed.

Lemma rev_involutive (s : string) : String.rev (String.rev s) = s.
Proof.
  induction s as [|c s IH]; [done|].
  rewrite rev_cons, rev_app_distr, IH. done.
Qed.

Lemma all_spaces_app (a b : string) :
  all_spaces (a +:+ b) = all_spaces a && all_spaces b.
Proof.
  induction a as [|c a IH]; [done|].
  rewrite app_cons. simpl. by rewrite IH, andb_assoc.
Qed.

Lemma all_spaces_rev (s : string) : all_spaces (String.rev s) = all_spaces s.
Proof.
  induction s as [|c s IH]; [done|].
  rewrite rev_cons, all_spaces_app, IH. simpl.
  by rewrite andb_true_r, andb_comm.
Qed.

Lemma no_separator_app (a b : string) :
  no_separator (a +:+ b) = no_separator a && no_separator b.
Proof.
  induction a as [|c a IH]; [done|].
  rewrite app_cons. simpl. by rewrite IH, andb_assoc.
Qed.

Lemma no_separator_rev (s : string) :
  no_separator (String.rev s) = no_separator s.
Proof.
  induction s as [|c s IH]; [done|].
  rewrite rev_cons, no_separator_app, IH. simpl.
  by rewrite andb_true_r, andb_comm.
Qed.

Lemma all_spaces_separators (w : string) :
  all_spaces w = true → all_separators w = true.
Proof.
  induction w as [|c w IH]; [done|]. simpl.
  intros [Hc Hw]%andb_true_iff. unfold is_separator.
  by rewrite Hc, IH.
Qed.

(** [trimStart] removes a run of whitespace from the front. *)
Lemma trim_start_decompose (s : string) :
  ∃ w : string, all_spaces w = true ∧ s = w +:+ trim_start s.
Proof.
  induction s as [|c s (w & Hw & IH)]; [by exists ""|]. simpl.
  destruct (is_space c) eqn:Hc.
  - exists (String c w). simpl. rewrite Hc, Hw, app_cons, <- IH. done.
  - by exists "".
Qed.

(** [trim] removes a run of whitespace from each end. *)
Lemma trim_decompose (s : string) :
  ∃ w1 w2 : string,
    all_spaces w1 = true ∧ all_spaces w2 = true ∧
    s = w1 +:+ trim s +:+ w2.
Proof.
  destruct (trim_start_decompose s) as (w1 & Hw1 & Hs).
  destruct (trim_start_decompose (String.rev (trim_start s)))
    as (w2 & Hw2 & Hr).
  exists w1, (String.rev w2). split; [done|].
  split; [by rewrite all_spaces_rev|].
  unfold trim. rewrite <- rev_app_distr, <- Hr, rev_involutive. done.
Qed.

Lemma trim_start_no_separator (t : string) :
  no_separator t = true → trim_start t = t.
Proof.
  destruct t as [|c t]; [done|]. simpl.
  intros [Hc _]%andb_true_iff. unfold is_separator in Hc.
  by destruct (is_space c).
Qed.

(** A piece without separators is not changed by [trim]. *)
Lemma trim_no_separator (t : string) : no_separator t = true → trim t = t.
Proof.
  intros Ht. unfold trim.
  rewrite (trim_start_no_separator t Ht).
  rewrite trim_start_no_separator by (by rewrite no_separator_rev).
  apply rev_involutive.
Qed.

(** ** Tokens *)

Lemma tokens_from_nil (cur : string) :
  tokens_from "" cur = filter (λ p, p ≠ EmptyString) [trim (String.rev cur)].
Proof. reflexivity. Qed.

Lemma tokens_from_sep (c : ascii) (r cur : string) :
  is_separator c = true →
  tokens_from (String c r) cur =
    filter (λ p, p ≠ EmptyString) [trim (String.rev cur)] ++ tokens_from r "".
Proof.
  intros Hc. unfold tokens_from. cbn [split_pieces]. rewrite Hc.
  rewrite fmap_cons.
  change (trim (String.rev cur) :: (trim <$> split_pieces r ""))
    with ([trim (String.rev cur)] ++ (trim <$> split_pieces r "")).
  by rewrite filter_app.
Qed.

Lemma tokens_from_char (c : ascii) (r cur : string) :
  is_separator c = false →
  tokens_from (String c r) cur = tokens_from r (String c cur).
Proof. intros Hc. unfold tokens_from. cbn [split_pieces]. by rewrite Hc. Qed.

(** Separators in front of the first token yield no token. *)
Lemma tokens_from_separators (w r : string) :
  all_separators w = true → tokens_from (w +:+ r) "" = tokens_from r "".
Proof.
  induction w as [|c w IH]; [done|]. simpl.
  intros [Hc Hw]%andb_true_iff.
  rewrite app_cons, (tokens_from_sep _ _ _ Hc), IH by done. done.
Qed.

Lemma tokens_from_token (t r cur : string) :
  no_separator t = true →
  tokens_from (t +:+ r) cur = tokens_from r (String.rev_app t cur).
Proof.
  revert cur. induction t as [|c t IH]; intros cur; [done|]. simpl.
  intros [Hc Ht]%andb_true_iff. apply negb_true_iff in Hc.
  rewrite app_cons, (tokens_from_char _ _ _ Hc). by apply IH.
Qed.

Lemma filter_token (t : string) :
  t ≠ EmptyString → no_separator t = true →
  filter (λ p, p ≠ EmptyString) [trim (String.rev (String.rev t))] = [t].
Proof.
  intros Hne Ht. rewrite rev_involutive, (trim_no_separator t Ht).
  rewrite filter_cons_True by done. done.
Qed.

(** A token followed by a non-empty run of separators. *)
Lemma tokens_from_item (t w r : string) :
  t ≠ EmptyString → no_separator t = true →
  all_separators w = true → w ≠ EmptyString →
  tokens_from (t +:+ w +:+ r) "" = t :: tokens_from r "".
Proof.
  intros Hne Ht Hw Hwne. rewrite (tokens_from_token _ _ _ Ht).
  fold (String.rev t). destruct w as [|c w]; [done|].
  simpl in Hw. apply andb_true_iff in Hw as [Hc Hw].
  rewrite app_cons, (tokens_from_sep _ _ _ Hc), filter_token by done.
  by rewrite tokens_from_separators.
Qed.

(** A token at the end of the text. *)
Lemma tokens_from_last (t : string) :
  t ≠ EmptyString → no_separator t = true → tokens_from t "" = [t].
Proof.
  intros Hne Ht. rewrite <- (app_empty_r t) at 1.
  rewrite (tokens_from_token _ _ _ Ht). fold (String.rev t).
  rewrite tokens_from_nil. by apply filter_token.
Qed.

(** Whitespace after the last token yields no token. *)
Lemma tokens_from_trailing (x w cur : string) :
  all_spaces w = true → tokens_from (x +:+ w) cur = tokens_from x cur.
Proof.
  intros Hw. revert cur. induction x as [|c x IH]; intros cur.
  - change ("" +:+ w) with w. destruct w as [|c w]; [done|].
    simpl in Hw. apply andb_true_iff in Hw as [Hc Hw].
    assert (is_separator c = true) as Hsep
      by (unfold is_separator; by rewrite Hc).
    rewrite (tokens_from_sep _ _ _ Hsep), tokens_from_nil.
    rewrite <- (app_empty_r w).
    rewrite tokens_from_separators by (by apply all_spaces_separators).
    by rewrite app_nil_r.
  - rewrite app_cons. destruct (is_separator c) eqn:Hc.
    + by rewrite !(tokens_from_sep _ _ _ Hc), IH.
    + by rewrite !(tokens_from_char _ _ _ Hc), IH.
Qed.

(** [trim] in front of the split changes nothing in the tokens. *)
Lemma tokens_trim (s : string) : tokens (trim s) = tokens s.
Proof.
  destruct (trim_decompose s) as (w1 & w2 & Hw1 & Hw2 & Hs).
  change (tokens_from (trim s) "" = tokens_from s "").
  rewrite Hs at 2.
  rewrite tokens_from_separators by (by apply all_spaces_separators).
  by rewrite tokens_from_trailing.
Qed.

Lemma tokens_interleave (items : list (string * string)) :
  well_separated items → tokens_from (interleave items) "" = items.*1.
Proof.
  induction items as [|[t sep] items IH]; [done|].
  simpl. intros (Hne & Ht & Hsep & Hlast & Hrest).
  destruct sep as [|c sep].
  - destruct items as [|item items]; [|by destruct Hlast].
    simpl. change ("" +:+ "") with "". rewrite app_empty_r.
    by rewrite tokens_from_last.
  - rewrite tokens_from_item by done. by rewrite IH.
Qed.

(** ** Digits and numerals *)

Lemma is_digit_not_separator (c : ascii) :
  is_digit c = true → is_separator c = false.
Proof.
  unfold is_digit, is_separator, is_space.
  generalize (nat_of_ascii c). intros n.
  intros [H1 H2]%andb_true_iff.
  apply Nat.leb_le in H1. apply Nat.leb_le in H2.
  repeat (apply orb_false_iff; split).
  - apply andb_false_iff. right. apply Nat.leb_gt. lia.
  - apply Nat.eqb_neq. lia.
  - apply Nat.eqb_neq. lia.
Qed.

Lemma all_digits_no_separator (t : string) :
  all_digits t = true → no_separator t = true.
Proof.
  induction t as [|c t IH]; [done|]. simpl.
  intros [Hc Ht]%andb_true_iff.
  by rewrite (is_digit_not_separator c Hc), IH.
Qed.

Lemma first_invalid_none (pages : list string) :
  Forall (λ p, digits_only p = true) pages → first_invalid pages = None.
Proof. induction 1 as [|p pages Hp _ IH]; [done|]. simpl. by rewrite Hp. Qed.

Lemma first_invalid_none_inv (pages : list string) :
  first_invalid pages = None → Forall (λ p, digits_only p = true) pages.
Proof.
  induction pages as [|p pages IH]; [constructor|]. simpl.
  destruct (digits_only p) eqn:Hp; [|done]. intros H. constructor; auto.
Qed.

Lemma parse_digits_nonneg (t : string) (acc : Z) :
  all_digits t = true → 0 <= acc → 0 <= parse_digits t acc.
Proof.
  revert acc. induction t as [|c t IH]; intros acc; [done|]. simpl.
  intros [Hc Ht]%andb_true_iff Hacc. apply IH; [done|].
  unfold is_digit in Hc. apply andb_true_iff in Hc as [H1 _].
  apply Nat.leb_le in H1. lia.
Qed.

Lemma pretty_N_char_digit (x : N) : is_digit (pretty_N_char x) = true.
Proof. unfold pretty_N_char. by repeat case_match. Qed.

Lemma pretty_N_char_value (x : N) :
  (x < 10)%N → Z.of_nat (nat_of_ascii (pretty_N_char x)) - 48 = Z.of_N x.
Proof.
  intros Hx.
  assert (x = 0 ∨ x = 1 ∨ x = 2 ∨ x = 3 ∨ x = 4 ∨ x = 5 ∨ x = 6 ∨ x = 7
          ∨ x = 8 ∨ x = 9)%N as Hcases by lia.
  repeat (destruct Hcases as [->|Hcases]; [reflexivity|]). by subst.
Qed.

Lemma pretty_N_go_digits (x : N) (s : string) :
  all_digits (pretty_N_go x s) = all_digits s.
Proof.
  revert s. induction (N.lt_wf_0 x) as [x _ IH]; intros s.
  assert (x = 0 ∨ 0 < x)%N as [->|Hx] by lia.
  - by rewrite pretty_N_go_0.
  - rewrite pretty_N_go_step by done.
    rewrite IH by (by apply N.div_lt). simpl.
    by rewrite pretty_N_char_digit.
Qed.

Lemma pretty_N_go_nonempty (x : N) (s : string) :
  s ≠ EmptyString → pretty_N_go x s ≠ EmptyString.
Proof.
  revert s. induction (N.lt_wf_0 x) as [x _ IH]; intros s Hs.
  assert (x = 0 ∨ 0 < x)%N as [->|Hx] by lia.
  - by rewrite pretty_N_go_0.
  - rewrite pretty_N_go_step by done. apply IH; [by apply N.div_lt | done].
Qed.

Lemma pretty_N_go_parse (x : N) (s : string) :
  parse_digits (pretty_N_go x s) 0 = parse_digits s (Z.of_N x).
Proof.
  revert s. induction (N.lt_wf_0 x) as [x _ IH]; intros s.
  assert (x = 0 ∨ 0 < x)%N as [->|Hx] by lia.
  - by rewrite pretty_N_go_0.
  - rewrite pretty_N_go_step by done.
    rewrite IH by (by apply N.div_lt). simpl.
    rewrite pretty_N_char_value by (apply N.mod_lt; lia).
    f_equal. rewrite (N.div_mod x 10) at 3 by lia. lia.
Qed.

Lemma number_text_pos (n : Z) :
  0 < n → number_text n = pretty_N_go (Z.to_N n) "".
Proof.
  intros Hn. destruct n as [|p|p]; [lia| |lia].
  unfold number_text, pretty, pretty_Z, pretty, pretty_positive, pretty,
    pretty_N.
  destruct (decide (N.pos p = 0%N)); [done|]. done.
Qed.

(** The numeral of a non-negative integer is a non-empty string of digits
    that denotes the integer. *)
Lemma number_text_spec (n : Z) :
  0 <= n →
  number_text n ≠ EmptyString ∧ all_digits (number_text n) = true ∧
  parseInt_digits (number_text n) = n.
Proof.
  intros Hn. destruct (decide (n = 0)) as [->|Hne]; [done|].
  rewrite number_text_pos by lia. unfold parseInt_digits.
  rewrite pretty_N_go_digits, pretty_N_go_parse. simpl.
  split; [|split; [done | lia]].
  rewrite pretty_N_go_step by lia. by apply pretty_N_go_nonempty.
Qed.

Lemma tokens_join_space (ts : list string) :
  Forall (λ t, t ≠ EmptyString ∧ no_separator t = true) ts →
  tokens (join_space ts) = ts.
Proof.
  change (tokens (join_space ts)) with (tokens_from (join_space ts) "").
  induction 1 as [|t ts [Hne Ht] Hts IH]; [done|].
  destruct ts as [|t' ts].
  - simpl. by apply tokens_from_last.
  - change (join_space (t :: t' :: ts))
      with (t +:+ " " +:+ join_space (t' :: ts)).
    rewrite tokens_from_item by done. by rewrite IH.
Qed.

(** ** What the loader accepts *)

(** A text whose tokens are digit strings is loaded, under a valid frame
    count. *)
Lemma loadAndValidate_digit_tokens
  (fv : Z) (text : string) (ts : list string) (s : State.t) :
  1 <= fv <= 10 → tokens text = ts → ts ≠ [] →
  Forall (λ t, t ≠ EmptyString ∧ all_digits t = true) ts →
  ∃ s' : State.t,
    loadAndValidate (Some fv) text s =
      (Normal s', Some (Alert_loaded (Z.of_nat (length ts)) fv)) ∧
    buildStateHistory (store_input fv (parseInt_digits <$> ts) s) = Normal s' ∧
    State.frames s' = fv ∧
    State.referenceString s' = parseInt_digits <$> ts ∧
    State.isLoaded s' = true.
Proof.
  intros Hfv Htok Hne Hdig. unfold loadAndValidate.
  destruct (Z.ltb_spec fv 1); [lia|].
  destruct (Z.gtb_spec fv 10); [lia|]. simpl.
  rewrite tokens_trim, Htok.
  destruct (String.eqb_spec (trim text) "") as [Hempty|_].
  { exfalso. apply Hne. rewrite <- Htok, <- tokens_trim, Hempty. done. }
  rewrite first_invalid_none.
  2:{ eapply Forall_impl; [exact Hdig|]. intros t [Ht1 Ht2].
      unfold digits_only. rewrite Ht2.
      by destruct (String.eqb_spec t ""). }
  rewrite buildStateHistory_normal by (simpl; lia).
  eexists. rewrite length_fmap. split; [done|]. split; [done|].
  destruct (for_loop_inputs 0
              (State.referenceString (store_input fv (parseInt_digits <$> ts) s))
              (entry (store_input fv (parseInt_digits <$> ts) s)))
    as [-> ->].
  destruct (for_loop_cursor 0
              (State.referenceString (store_input fv (parseInt_digits <$> ts) s))
              (entry (store_input fv (parseInt_digits <$> ts) s)))
    as [_ ->].
  done.
Qed.

(** X13. The loader splits the text at any runs of whitespace and commas: a text
    made of digit tokens, each followed by a run of separators (the last run
    may be empty) and possibly preceded by separators, is loaded as the
    pages that the tokens denote, in order.  The tokens denote numbers below
    2^53, which [parseInt] returns exactly. *)
Theorem loadAndValidate_accepts_separated_digits
  (fv : Z) (lead : string) (items : list (string * string)) (s : State.t) :
  1 <= fv <= 10 →
  all_separators lead = true →
  well_separated items → items ≠ [] →
  Forall (λ t, all_digits t = true) items.*1 →
  Forall (λ t, parseInt_digits t < 9007199254740992) items.*1 →
  ∃ s' : State.t,
    loadAndValidate (Some fv) (lead +:+ interleave items) s =
      (Normal s', Some (Alert_loaded (Z.of_nat (length items)) fv)) ∧
    buildStateHistory (store_input fv (parseInt_digits <$> items.*1) s)
      = Normal s' ∧
    State.frames s' = fv ∧
    State.referenceString s' = parseInt_digits <$> items.*1 ∧
    State.isLoaded s' = true.
Proof.
  intros Hfv Hlead Hitems Hne Hdig Hsafe.
  rewrite <- (length_fmap fst items).
  apply loadAndValidate_digit_tokens; [done| | |].
  - change (tokens_from (lead +:+ interleave items) "" = items.*1).
    rewrite tokens_from_separators by done. by apply tokens_interleave.
  - by destruct items.
  - clear Hne Hsafe. induction items as [|[t sep] items IH]; [constructor|].
    simpl in *. destruct Hitems as (Ht & _ & _ & _ & Hrest).
    apply Forall_cons in Hdig as [Hd Hdig]. constructor; auto.
Qed.

Lemma loadAndValidate_joined_numbers
  (fv : Z) (pages : list Z) (s : State.t) :
  1 <= fv <= 10 → pages ≠ [] → Forall (λ p, 0 <= p) pages →
  ∃ s' : State.t,
    loadAndValidate (Some fv) (join_space (number_text <$> pages)) s =
      (Normal s', Some (Alert_loaded (Z.of_nat (length pages)) fv)) ∧
    buildStateHistory (store_input fv pages s) = Normal s' ∧
    State.frames s' = fv ∧
    State.referenceString s' = pages ∧
    State.isLoaded s' = true.
Proof.
  intros Hfv Hne Hpos.
  assert (parseInt_digits <$> (number_text <$> pages) = pages) as Hparse.
  { clear Hne. induction Hpos as [|p pages Hp _ IH]; [done|].
    rewrite !fmap_cons, IH. f_equal. by apply number_text_spec. }
  destruct (loadAndValidate_digit_tokens fv
              (join_space (number_text <$> pages)) (number_text <$> pages) s)
    as (s' & Hload & Hb & Hfr & Hrefs & Hl); [done| | | |].
  - apply tokens_join_space. apply Forall_fmap.
    eapply Forall_impl; [exact Hpos|]. intros p Hp. simpl.
    destruct (number_text_spec p Hp) as (H1 & H2 & _).
    split; [done | by apply all_digits_no_separator].
  - by destruct pages.
  - apply Forall_fmap. eapply Forall_impl; [exact Hpos|]. intros p Hp. simpl.
    destruct (number_text_spec p Hp) as (H1 & H2 & _). done.
  - rewrite length_fmap in Hload. rewrite Hparse in Hb, Hrefs.
    by exists s'.
Qed.

(** X14. Round trip: the numerals of non-negative integers below 2^53 joined by
    single spaces, as [join(' ')] writes them, are loaded as these
    integers. *)
Theorem loadAndValidate_reads_back_joined_numbers
  (fv : Z) (pages : list Z) (s : State.t) :
  1 <= fv <= 10 → pages ≠ [] →
  Forall (λ p, 0 <= p < 9007199254740992) pages →
  ∃ s' : State.t,
    loadAndValidate (Some fv) (join_space (number_text <$> pages)) s =
      (Normal s', Some (Alert_loaded (Z.of_nat (length pages)) fv)) ∧
    State.referenceString s' = pages ∧
    State.frames s' = fv ∧ State.isLoaded s' = true.
Proof.
  intros Hfv Hne Hsafe.
  assert (Forall (λ p, 0 <= p) pages) as Hpos.
  { eapply Forall_impl; [exact Hsafe|]. intros p Hp. simpl in Hp. lia. }
  destruct (loadAndValidate_joined_numbers fv pages s Hfv Hne Hpos)
    as (s' & Hload & _ & Hfr & Hrefs & Hl).
  by exists s'.
Qed.

(** X15. Whatever the random draws, the text that [generateRandomString] writes
    passes the checks of the loader: it is loaded as the drawn pages, 8 to 13
    of them, each from 0 to 8. *)
Theorem generated_string_always_loads
  (lengthDraw : Z) (pageDraw : nat → Z) (fv : Z) (s : State.t) :
  0 <= lengthDraw <= 5 → (∀ i : nat, 0 <= pageDraw i <= 8) →
  1 <= fv <= 10 →
  ∃ s' : State.t,
    loadAndValidate (Some fv) (generateRandomString lengthDraw pageDraw) s =
      (Normal s', Some (Alert_loaded (lengthDraw + 8) fv)) ∧
    State.referenceString s' =
      pageDraw <$> seq 0 (Z.to_nat (lengthDraw + 8)) ∧
    8 <= Z.of_nat (length (State.referenceString s')) <= 13 ∧
    Forall (λ p, 0 <= p <= 8) (State.referenceString s').
Proof.
  intros Hlen Hdraw Hfv. unfold generateRandomString.
  set (pages := pageDraw <$> seq 0 (Z.to_nat (lengthDraw + 8))).
  assert (length pages = Z.to_nat (lengthDraw + 8)) as Hpages.
  { unfold pages. by rewrite length_fmap, length_seq. }
  destruct (loadAndValidate_joined_numbers fv pages s)
    as (s' & Hload & _ & _ & Hrefs & _); [done| |  |].
  - intros Hnil. rewrite Hnil in Hpages. simpl in Hpages. lia.
  - apply Forall_fmap, Forall_forall. intros i _. simpl. apply Hdraw.
  - exists s'. rewrite Hload, Hrefs, Hpages.
    split; [do 3 f_equal; lia|]. split; [done|]. split; [lia|].
    apply Forall_fmap, Forall_forall. intros i _. simpl. apply Hdraw.
Qed.

(** ** What the loader does to the state *)

(** X16. The loader never throws and always shows one alert; unless that alert
    is the success message, the state is exactly as before: a rejected
    input leaves the previous simulation in place. *)
Theorem rejected_load_keeps_state
  (framesValue : option Z) (refStringInput : string) (s : State.t) :
  ∃ (s' : State.t) (a : alert),
    loadAndValidate framesValue refStringInput s = (Normal s', Some a) ∧
    ((∃ pages fv : Z, a = Alert_loaded pages fv) ∨ s' = s).
Proof.
  unfold loadAndValidate. destruct framesValue as [fv|]; [|by eauto].
  destruct (Z.ltb_spec fv 1); [by eauto|].
  destruct (Z.gtb_spec fv 10); [by eauto|]. simpl.
  destruct (String.eqb _ _); [by eauto|].
  destruct (first_invalid _); [by eauto|].
  rewrite buildStateHistory_normal by (simpl; lia). eauto 10.
Qed.

(** X17. After a successful load of a text whose tokens denote numbers below
    2^53 (which [parseInt] returns exactly), the frame count is the validated
    one, between 1 and 10; the reference string is the tokens of the trimmed
    text read as decimal numerals, all non-negative; the history has one
    record per page; the loaded flag is set; and the cursor is NOT reset: it
    keeps the value it had before the load. *)
Theorem successful_load_state
  (framesValue : option Z) (refStringInput : string) (s : State.t)
  (c : completion State.t) (pages fv : Z) :
  Forall (λ t, parseInt_digits t < 9007199254740992)
    (tokens (trim refStringInput)) →
  loadAndValidate framesValue refStringInput s
    = (c, Some (Alert_loaded pages fv)) →
  ∃ s' : State.t,
    c = Normal s' ∧ framesValue = Some fv ∧ 1 <= fv <= 10 ∧
    State.frames s' = fv ∧ State.isLoaded s' = true ∧
    State.referenceString s' =
      parseInt_digits <$> tokens (trim refStringInput) ∧
    pages = Z.of_nat (length (State.referenceString s')) ∧
    Forall (λ p, 0 <= p) (State.referenceString s') ∧
    length (State.stateHistory s') = length (State.referenceString s') ∧
    State.currentStep s' = State.currentStep s.
Proof.
  intros Hsafe. unfold loadAndValidate.
  destruct framesValue as [fv'|]; [|congruence].
  destruct (Z.ltb_spec fv' 1); [simpl; congruence|].
  destruct (Z.gtb_spec fv' 10); [simpl; congruence|]. simpl.
  destruct (String.eqb _ _); [congruence|].
  destruct (first_invalid _) eqn:Hvalid; [congruence|].
  rewrite buildStateHistory_normal by (simpl; lia).
  intros [= <- <- <-].
  eexists. split; [done|]. split; [done|]. split; [lia|].
  match goal with
  | |- context [for_loop 0 ?r ?e] =>
      destruct (for_loop_inputs 0 r e) as [-> ->];
      destruct (for_loop_cursor 0 r e) as [-> ->]
  end.
  rewrite for_loop_history_length. simpl.
  rewrite length_fmap.
  do 4 (split; [done|]). split; [|done].
  apply first_invalid_none_inv in Hvalid.
  apply Forall_fmap. eapply Forall_impl; [exact Hvalid|].
  intros t Ht. simpl. unfold digits_only in Ht.
  apply andb_true_iff in Ht as [_ Ht].
  by apply parse_digits_nonneg.
Qed.

(** * Properties of the playback *)

(** ** Stepping with the cursor *)

(** Unfolds the field updates of the page. *)
Ltac page_simpl :=
  repeat progress
    (unfold Page.currentStep, Page.steps, Page.updateNavigationButtons,
       Page.set_currentStep, Page.set_log, Page.set_buttons, Page.set_state,
       Page.set_isPlaying, Page.set_playInterval, Page.set_speed,
       Page.clearLog, Page.showAlert, Page.clearInterval, Page.setInterval
       in *;
     simpl in *).

Lemma with_currentStep_same (s : State.t) :
  with_currentStep (State.currentStep s) s = s.
Proof. by destruct s. Qed.

Lemma with_currentStep_twice (c c' : Z) (s : State.t) :
  with_currentStep c (with_currentStep c' s) = with_currentStep c s.
Proof. done. Qed.

Lemma history_at_lookup (u : Page.t) (c : Z) :
  0 <= c < Page.steps u → ∃ r, Page.history_at u c = Some r.
Proof.
  intros Hc. unfold Page.history_at.
  destruct (Z.ltb_spec c 0); [lia|].
  apply lookup_lt_is_Some_2. unfold Page.steps in Hc. lia.
Qed.

(** X18. [Next] and [Previous] keep the cursor on a step: from a
    cursor in 0 .. N-1 they move it by one inside 0 .. N-1, do nothing at the respective end, leave
    the history alone, and set the [disabled] flags of the two buttons to
    tell whether the cursor is on the first or the last step. *)
Theorem navigation_keeps_cursor_on_a_step (u : Page.t) :
  0 <= Page.currentStep u < Page.steps u →
  (∃ u' : Page.t,
     Page.nextStep u = Done u' ∧
     Page.currentStep u' = Z.min (Page.currentStep u + 1) (Page.steps u - 1) ∧
     State.stateHistory (Page.state u') = State.stateHistory (Page.state u) ∧
     (Page.currentStep u = Page.steps u - 1 → u' = u) ∧
     (Page.currentStep u < Page.steps u - 1 →
      Buttons.prevBtn (Page.buttons u') = false ∧
      Buttons.nextBtn (Page.buttons u') =
        (Page.currentStep u' =? Page.steps u - 1))) ∧
  (Page.currentStep (Page.previousStep u) = Z.max (Page.currentStep u - 1) 0 ∧
   State.stateHistory (Page.state (Page.previousStep u)) =
     State.stateHistory (Page.state u) ∧
   (Page.currentStep u = 0 → Page.previousStep u = u) ∧
   (0 < Page.currentStep u →
    Buttons.nextBtn (Page.buttons (Page.previousStep u)) = false ∧
    Buttons.prevBtn (Page.buttons (Page.previousStep u)) =
      (Page.currentStep (Page.previousStep u) =? 0))).
Proof.
  intros Hc. split.
  - unfold Page.nextStep.
    destruct (Z.geb_spec (Page.currentStep u) (Page.steps u - 1)) as [Hend|Hmid].
    + exists u. split; [done|]. split; [lia|]. split; [done|].
      split; [done | lia].
    + destruct (history_at_lookup (Page.set_currentStep (Page.currentStep u + 1) u)
                  (Page.currentStep u + 1)) as [r Hr].
      { unfold Page.steps in *. simpl. lia. }
      change (Page.currentStep
                (Page.set_currentStep (Page.currentStep u + 1) u))
        with (Page.currentStep u + 1).
      rewrite Hr. simpl. eexists. split; [done|]. clear Hr.
      page_simpl.
      split; [lia|]. split; [done|]. split; [lia|]. intros _.
      split.
      * apply Z.leb_gt. lia.
      * destruct (Z.geb_spec (State.currentStep (Page.state u) + 1)
                    (Z.of_nat (length (State.stateHistory (Page.state u))) - 1)),
          (Z.eqb_spec (State.currentStep (Page.state u) + 1)
             (Z.of_nat (length (State.stateHistory (Page.state u))) - 1));
          done || lia.
  - unfold Page.previousStep.
    destruct (Z.leb_spec (Page.currentStep u) 0) as [Hfirst|Hmid].
    + split; [lia|]. split; [done|]. split; [done | lia].
    + unfold Page.updateLogHighlight. page_simpl.
      split; [lia|]. split; [done|]. split; [lia|]. intros _.
      split.
      * rewrite Z.geb_leb. apply Z.leb_gt. lia.
      * destruct (Z.leb_spec (State.currentStep (Page.state u) - 1) 0),
          (Z.eqb_spec (State.currentStep (Page.state u) - 1) 0); done || lia.
Qed.

(** X19. Stepping forth and back, or back and forth, returns the simulation state
    to what it was, cursor included; but every forward step appends an entry
    to the log and no backward step removes one, so afterwards the log is
    one entry longer: on the way back and forth it holds the entry of the
    same step twice. *)
Theorem back_and_forth_lengthens_the_log (u : Page.t) :
  0 <= Page.currentStep u < Page.steps u →
  (Page.currentStep u < Page.steps u - 1 →
   ∃ u1 : Page.t,
     Page.nextStep u = Done u1 ∧
     Page.state (Page.previousStep u1) = Page.state u ∧
     length (Page.log (Page.previousStep u1)) = S (length (Page.log u))) ∧
  (0 < Page.currentStep u →
   ∃ (u2 : Page.t) (r : StepData.t),
     Page.nextStep (Page.previousStep u) = Done u2 ∧
     Page.state u2 = Page.state u ∧
     Page.history_at u (Page.currentStep u) = Some r ∧
     last (Page.log u2) = Some (log_entry_of r) ∧
     length (Page.log u2) = S (length (Page.log u))).
Proof.
  intros Hc. split.
  - intros Hmid. unfold Page.nextStep.
    destruct (Z.geb_spec (Page.currentStep u) (Page.steps u - 1)); [lia|].
    destruct (history_at_lookup (Page.set_currentStep (Page.currentStep u + 1) u)
                (Page.currentStep u + 1)) as [r Hr].
    { unfold Page.steps in *. simpl. lia. }
    change (Page.currentStep
              (Page.set_currentStep (Page.currentStep u + 1) u))
      with (Page.currentStep u + 1).
    rewrite Hr. simpl. eexists. split; [done|]. clear Hr.
    unfold Page.previousStep. page_simpl.
    destruct (Z.leb_spec (State.currentStep (Page.state u) + 1) 0); [lia|].
    unfold Page.updateLogHighlight. page_simpl.
    rewrite Z.add_simpl_r, with_currentStep_twice, with_currentStep_same.
    split; [done|].
    rewrite length_imap, length_app, length_fmap. simpl. lia.
  - intros Hpos. unfold Page.previousStep.
    destruct (Z.leb_spec (Page.currentStep u) 0); [lia|].
    destruct (history_at_lookup u (Page.currentStep u) Hc) as [r Hr].
    unfold Page.nextStep, Page.updateLogHighlight. page_simpl.
    destruct (Z.geb_spec (State.currentStep (Page.state u) - 1)
                (Z.of_nat (length (State.stateHistory (Page.state u))) - 1));
      [lia|].
    unfold Page.history_at in *. page_simpl.
    rewrite Z.sub_simpl_r, Hr. simpl.
    eexists _, r. split; [done|]. page_simpl.
    rewrite with_currentStep_twice, with_currentStep_same.
    split; [done|]. split; [done|].
    split; [apply last_snoc|].
    rewrite length_app, length_fmap, length_imap. simpl. lia.
Qed.

(** X20. A text that holds separators only, with a comma among them, passes the
    checks of the loader and is loaded as an empty reference string; [Start]
    is enabled, and pressing it throws [TypeError], because the first log
    entry is built from [state.stateHistory[0]], which is [undefined].  The
    cursor is already on step 0 of a history without steps. *)
Theorem start_after_loading_no_pages_throws (u : Page.t) (fv : Z) (text : string) :
  1 <= fv <= 10 → all_separators text = true → trim text ≠ EmptyString →
  ∃ u1 u2 : Page.t,
    Page.handle (Page.Click_load (Some fv) text) u = Done u1 ∧
    State.isLoaded (Page.state u1) = true ∧
    State.referenceString (Page.state u1) = [] ∧
    State.stateHistory (Page.state u1) = [] ∧
    Buttons.startBtn (Page.buttons u1) = false ∧
    Page.handle Page.Click_start u1 = Failed TypeError u2 ∧
    Page.currentStep u2 = 0 ∧ Page.steps u2 = 0 ∧ Page.log u2 = [].
Proof.
  intros Hfv Hsep Htrim.
  assert (tokens (trim text) = []) as Htok.
  { rewrite tokens_trim. change (tokens_from text "" = []).
    rewrite <- (app_empty_r text). by rewrite tokens_from_separators. }
  assert (loadAndValidate (Some fv) text (Page.state u) =
            (Normal (clear_history (store_input fv [] (Page.state u))),
             Some (Alert_loaded 0 fv))) as Hload.
  { unfold loadAndValidate.
    destruct (Z.ltb_spec fv 1); [lia|].
    destruct (Z.gtb_spec fv 10); [lia|]. simpl.
    destruct (String.eqb_spec (trim text) ""); [done|].
    rewrite Htok. simpl.
    rewrite buildStateHistory_normal by (simpl; lia). done. }
  simpl. unfold Page.loadAndValidate. rewrite Hload.
  eexists _, _. split; [done|]. page_simpl.
  do 4 (split; [done|]).
  unfold Page.startSimulation. page_simpl. done.
Qed.

(** ** The log while stepping forward *)

Lemma run_snoc (es : list Page.event) (e : Page.event) (u : Page.t) :
  Page.run (es ++ [e]) u = after (Page.handle e (Page.run es u)).
Proof. revert u. induction es as [|e' es IH]; intros u; [done|]. apply IH. Qed.

(** [Start] on a loaded page with at least one step. *)
Lemma startSimulation_loaded (u : Page.t) (r : StepData.t) :
  State.isLoaded (Page.state u) = true →
  State.stateHistory (Page.state u) !! 0%nat = Some r →
  Page.startSimulation u =
    Done (Page.mk (with_currentStep 0 (Page.state u)) (Page.isPlaying u)
            (Page.playInterval u) (Page.speed u) (Page.intervals u)
            (Page.nextTimer u)
            (Buttons.mk true true (Page.steps u <=? 1) false true)
            [log_entry_of r] (Page.notices u)).
Proof.
  intros Hloaded Hr. unfold Page.startSimulation. rewrite Hloaded. simpl.
  unfold Page.history_at. simpl.
  change (Z.to_nat 0) with 0%nat. rewrite Hr. done.
Qed.

(** A forward step from a cursor before the last step. *)
Lemma nextStep_inside (u : Page.t) (r : StepData.t) :
  -1 <= Page.currentStep u < Page.steps u - 1 →
  State.stateHistory (Page.state u) !! Z.to_nat (Page.currentStep u + 1)
    = Some r →
  Page.nextStep u =
    Done (Page.mk (with_currentStep (Page.currentStep u + 1) (Page.state u))
            (Page.isPlaying u) (Page.playInterval u) (Page.speed u)
            (Page.intervals u) (Page.nextTimer u)
            (Buttons.mk (Buttons.startBtn (Page.buttons u))
               (Page.currentStep u + 1 <=? 0)
               (Page.currentStep u + 1 >=? Page.steps u - 1)
               (Buttons.playBtn (Page.buttons u))
               (Buttons.pauseBtn (Page.buttons u)))
            ((LogEntry.set_current false <$> Page.log u) ++ [log_entry_of r])
            (Page.notices u)).
Proof.
  intros Hc Hr. unfold Page.nextStep.
  destruct (Z.geb_spec (Page.currentStep u) (Page.steps u - 1)); [lia|].
  unfold Page.history_at.
  change (Page.currentStep (Page.set_currentStep (Page.currentStep u + 1) u))
    with (Page.currentStep u + 1).
  destruct (Z.ltb_spec (Page.currentStep u + 1) 0); [lia|].
  change (State.stateHistory
            (Page.state (Page.set_currentStep (Page.currentStep u + 1) u)))
    with (State.stateHistory (Page.state u)).
  rewrite Hr. done.
Qed.

(** X21. After [Start] and [k] clicks on [Next] the cursor is on step [k] and the
    log holds the entries of the steps 0 to [k], in order, the last one
    marked as current; nothing else of the simulation state has changed. *)
Theorem forward_steps_fill_the_log (u : Page.t) (k : nat) :
  State.isLoaded (Page.state u) = true →
  Buttons.startBtn (Page.buttons u) = false →
  Z.of_nat k < Page.steps u →
  let u' := Page.run (Page.Click_start :: replicate k Page.Click_next) u in
  Page.state u' = with_currentStep (Z.of_nat k) (Page.state u) ∧
  Page.log u' =
    (LogEntry.set_current false <$>
       (log_entry_of <$> take k (State.stateHistory (Page.state u)))) ++
    (log_entry_of <$>
       option_list (State.stateHistory (Page.state u) !! k)).
Proof.
  intros Hloaded Hstart Hk. simpl.
  cut (let u' := Page.run (Page.Click_start :: replicate k Page.Click_next) u in
       Page.state u' = with_currentStep (Z.of_nat k) (Page.state u) ∧
       Page.log u' =
         (LogEntry.set_current false <$>
            (log_entry_of <$> take k (State.stateHistory (Page.state u)))) ++
         (log_entry_of <$>
            option_list (State.stateHistory (Page.state u) !! k)) ∧
       Buttons.nextBtn (Page.buttons u') = (Z.of_nat k >=? Page.steps u - 1)).
  { simpl. intros (? & ? & _). done. }
  induction k as [|k IH].
  - destruct (lookup_lt_is_Some_2 (State.stateHistory (Page.state u)) 0)
      as [r Hr].
    { unfold Page.steps in Hk. lia. }
    simpl. rewrite Hstart, (startSimulation_loaded u r Hloaded Hr), Hr. simpl.
    split; [done|]. split; [done|].
    change (Z.of_nat 0) with 0.
    destruct (Z.leb_spec (Page.steps u) 1), (Z.geb_spec 0 (Page.steps u - 1));
      done || lia.
  - rewrite replicate_S_end, app_comm_cons, run_snoc.
    destruct IH as (Hst & Hlog & Hnext); [lia|].
    set (uk := Page.run (Page.Click_start :: replicate k Page.Click_next) u)
      in *.
    assert (Page.currentStep uk = Z.of_nat k) as Hcur
      by (unfold Page.currentStep; by rewrite Hst).
    assert (Page.steps uk = Page.steps u) as Hsteps
      by (unfold Page.steps; by rewrite Hst).
    destruct (lookup_lt_is_Some_2 (State.stateHistory (Page.state u)) (S k))
      as [r Hr].
    { unfold Page.steps in Hk. lia. }
    destruct (lookup_lt_is_Some_2 (State.stateHistory (Page.state u)) k)
      as [r0 Hr0].
    { unfold Page.steps in Hk. lia. }
    simpl. rewrite Hnext.
    destruct (Z.geb_spec (Z.of_nat k) (Page.steps u - 1)); [lia|].
    rewrite (nextStep_inside uk r).
    2:{ rewrite Hcur, Hsteps. lia. }
    2:{ rewrite Hcur, Hst. simpl.
        replace (Z.to_nat (Z.of_nat k + 1)) with (S k) by lia. done. }
    simpl. rewrite Hcur, Hsteps, Hst, Hlog, Hr, Hr0.
    rewrite with_currentStep_twice.
    split; [f_equal; lia|]. split.
    + rewrite (take_S_r _ _ _ Hr0). simpl.
      rewrite !fmap_app. simpl. do 2 f_equal.
      rewrite <- list_fmap_compose.
      apply list_fmap_ext. intros i x _. done.
    + f_equal. lia.
Qed.

(** ** Auto-play *)

Lemma run_app (es1 es2 : list Page.event) (u : Page.t) :
  Page.run (es1 ++ es2) u = Page.run es2 (Page.run es1 u).
Proof. revert u. induction es1 as [|e es1 IH]; intros u; [done|]. apply IH. Qed.

(** A firing of the callback before the last step. *)
Lemma autoPlayTick_inside (u : Page.t) (r : StepData.t) :
  -1 <= Page.currentStep u < Page.steps u - 1 →
  State.stateHistory (Page.state u) !! Z.to_nat (Page.currentStep u + 1)
    = Some r →
  Page.autoPlayTick u =
    Done (Page.mk (with_currentStep (Page.currentStep u + 1) (Page.state u))
            (Page.isPlaying u) (Page.playInterval u) (Page.speed u)
            (Page.intervals u) (Page.nextTimer u) (Page.buttons u)
            ((LogEntry.set_current false <$> Page.log u) ++ [log_entry_of r])
            (Page.notices u)).
Proof.
  intros Hc Hr. unfold Page.autoPlayTick.
  destruct (Z.geb_spec (Page.currentStep u) (Page.steps u - 1)); [lia|].
  unfold Page.history_at.
  change (Page.currentStep (Page.set_currentStep (Page.currentStep u + 1) u))
    with (Page.currentStep u + 1).
  destruct (Z.ltb_spec (Page.currentStep u + 1) 0); [lia|].
  change (State.stateHistory
            (Page.state (Page.set_currentStep (Page.currentStep u + 1) u)))
    with (State.stateHistory (Page.state u)).
  rewrite Hr. done.
Qed.

(** While the cursor is before the last step, each firing of the armed
    interval moves it one step on and touches neither the timer nor the
    buttons. *)
Lemma firings_advance (u : Page.t) (id : positive) (d : Z) (m : nat) :
  Page.intervals u = [(id, d)] →
  -1 <= Page.currentStep u →
  Page.currentStep u + Z.of_nat m <= Page.steps u - 1 →
  let um := Page.run (replicate m (Page.Interval_fires id)) u in
  Page.currentStep um = Page.currentStep u + Z.of_nat m ∧
  Page.steps um = Page.steps u ∧
  Page.isPlaying um = Page.isPlaying u ∧
  Page.playInterval um = Page.playInterval u ∧
  Page.intervals um = [(id, d)] ∧
  Page.buttons um = Page.buttons u.
Proof.
  intros Hint Hc. induction m as [|m IH]; intros Hm.
  { simpl. rewrite Z.add_0_r. done. }
  rewrite replicate_S_end, run_snoc.
  destruct IH as (Hcur & Hsteps & Hplay & Hpi & Hints & Hbtn); [lia|].
  set (um := Page.run (replicate m (Page.Interval_fires id)) u) in *.
  simpl. rewrite Hints. simpl.
  rewrite bool_decide_eq_true_2 by (apply list_elem_of_singleton; done).
  destruct (lookup_lt_is_Some_2 (State.stateHistory (Page.state um))
              (Z.to_nat (Page.currentStep um + 1))) as [r Hr].
  { unfold Page.steps in *. lia. }
  rewrite (autoPlayTick_inside um r) by (done || lia). simpl.
  unfold Page.currentStep, Page.steps in *. simpl.
  split; [lia|]. done.
Qed.

(** On the last step the firing pauses the playback and disarms the
    interval. *)
Lemma firing_at_the_end (u : Page.t) (id : positive) (d : Z) :
  Page.intervals u = [(id, d)] → Page.playInterval u = Some id →
  Page.steps u - 1 <= Page.currentStep u →
  let u' := after (Page.handle (Page.Interval_fires id) u) in
  Page.currentStep u' = Page.currentStep u ∧
  Page.isPlaying u' = false ∧ Page.playInterval u' = None ∧
  Page.intervals u' = [] ∧
  Buttons.playBtn (Page.buttons u') = false ∧
  Buttons.pauseBtn (Page.buttons u') = true.
Proof.
  intros Hint Hpi Hc. simpl. rewrite Hint. simpl.
  rewrite bool_decide_eq_true_2 by (apply list_elem_of_singleton; done).
  unfold Page.autoPlayTick.
  destruct (Z.geb_spec (Page.currentStep u) (Page.steps u - 1)); [|lia].
  simpl. unfold Page.pauseAutoPlay. page_simpl. rewrite Hpi. page_simpl.
  rewrite Hint. rewrite filter_cons_False by (simpl; auto).
  done.
Qed.

Lemma firings_without_interval (u : Page.t) (id : positive) (m : nat) :
  Page.intervals u = [] →
  Page.run (replicate m (Page.Interval_fires id)) u = u.
Proof.
  intros Hint. induction m as [|m IH]; [done|].
  simpl. rewrite Hint. simpl. exact IH.
Qed.

(** X22. Auto-play from a paused page with at least one step: [Play] arms one
    interval with the current speed as delay (after moving the cursor back
    to -1 if it was on the last step); each firing moves the cursor one step
    on; and the firing that finds the cursor on the last step stops the
    playback: the interval is disarmed, [Play] is enabled again and [Pause]
    disabled, and the cursor stays on the last step whatever fires
    later. *)
Theorem autoplay_runs_to_the_last_step_and_stops (u : Page.t) :
  Page.isPlaying u = false → Page.playInterval u = None →
  Page.intervals u = [] →
  0 < Page.steps u → -1 <= Page.currentStep u →
  let c0 := if Page.currentStep u >=? Page.steps u - 1
            then -1 else Page.currentStep u in
  let id := Page.nextTimer u in
  let u1 := Page.startAutoPlay u in
  Page.isPlaying u1 = true ∧ Page.playInterval u1 = Some id ∧
  Page.intervals u1 = [(id, Page.speed u)] ∧ Page.currentStep u1 = c0 ∧
  (∀ m : nat, Z.of_nat m <= Page.steps u - 1 - c0 →
     let um := Page.run (replicate m (Page.Interval_fires id)) u1 in
     Page.currentStep um = c0 + Z.of_nat m ∧ Page.isPlaying um = true) ∧
  (∀ m : nat, Page.steps u - 1 - c0 < Z.of_nat m →
     let um := Page.run (replicate m (Page.Interval_fires id)) u1 in
     Page.currentStep um = Page.steps u - 1 ∧
     Page.isPlaying um = false ∧ Page.playInterval um = None ∧
     Page.intervals um = [] ∧
     Buttons.playBtn (Page.buttons um) = false ∧
     Buttons.pauseBtn (Page.buttons um) = true).
Proof.
  intros Hplay Hpi Hint Hsteps Hc c0 id u1.
  assert (Page.isPlaying u1 = true ∧ Page.playInterval u1 = Some id ∧
          Page.intervals u1 = [(id, Page.speed u)] ∧
          Page.currentStep u1 = c0 ∧ Page.steps u1 = Page.steps u)
    as (H1 & H2 & H3 & H4 & H5).
  { unfold u1, c0, id, Page.startAutoPlay.
    destruct (Z.geb_spec (Page.currentStep u) (Page.steps u - 1));
      page_simpl; rewrite Hint; done. }
  do 4 (split; [done|]).
  assert (-1 <= c0) as Hc0.
  { unfold c0. destruct (Z.geb_spec (Page.currentStep u) (Page.steps u - 1));
      lia. }
  assert (c0 <= Page.steps u - 1) as Hc0'.
  { unfold c0. destruct (Z.geb_spec (Page.currentStep u) (Page.steps u - 1));
      lia. }
  split.
  - intros m Hm. cbv zeta.
    destruct (firings_advance u1 id (Page.speed u) m H3)
      as (Hcur & _ & Hpl & _); [lia | lia |].
    rewrite Hcur, Hpl, H4. done.
  - intros m Hm. cbv zeta.
    set (m0 := Z.to_nat (Page.steps u - 1 - c0)).
    replace m with (m0 + (1 + (m - m0 - 1)))%nat by lia.
    rewrite replicate_add, run_app.
    destruct (firings_advance u1 id (Page.speed u) m0 H3)
      as (Hcur & Hst & Hpl & Hpi' & Hints & _); [lia | lia |].
    set (ua := Page.run (replicate m0 (Page.Interval_fires id)) u1) in *.
    rewrite replicate_add, run_app.
    change (Page.run (replicate 1 (Page.Interval_fires id)) ua)
      with (after (Page.handle (Page.Interval_fires id) ua)).
    destruct (firing_at_the_end ua id (Page.speed u) Hints)
      as (Hcur' & Hpl' & Hpi'' & Hints' & Hb1 & Hb2);
      [congruence | lia |].
    rewrite firings_without_interval by done.
    rewrite Hcur', Hcur, H4. unfold m0. split; [lia | done].
Qed.

(** ** The timer *)

Lemma one_timer_ext (u u' : Page.t) :
  timer_part u' = timer_part u → one_timer u → one_timer u'.
Proof. unfold timer_part, one_timer. intros [= -> -> ->]. done. Qed.

Lemma one_timer_idle (u : Page.t) :
  timer_part u = (false, None, []) → one_timer u.
Proof. unfold timer_part, one_timer. intros [= -> -> ->]. done. Qed.

Lemma addLogEntry_timer (sd : option StepData.t) (u : Page.t) :
  timer_part (after (Page.addLogEntry sd u)) = timer_part u.
Proof. by destruct sd. Qed.

Lemma loadAndValidate_timer (fv : option Z) (text : string) (u : Page.t) :
  timer_part (after (Page.loadAndValidate fv text u)) = timer_part u.
Proof.
  unfold Page.loadAndValidate.
  destruct (loadAndValidate fv text (Page.state u)) as [[s'|e s'] [[]|]];
    done.
Qed.

Lemma startSimulation_timer (u : Page.t) :
  timer_part (after (Page.startSimulation u)) = timer_part u.
Proof.
  unfold Page.startSimulation. destruct (negb _); [done|].
  by rewrite addLogEntry_timer.
Qed.

Lemma nextStep_timer (u : Page.t) :
  timer_part (after (Page.nextStep u)) = timer_part u.
Proof.
  unfold Page.nextStep. destruct (_ >=? _); [done|].
  destruct (Page.history_at _ _); done.
Qed.

Lemma previousStep_timer (u : Page.t) :
  timer_part (Page.previousStep u) = timer_part u.
Proof. unfold Page.previousStep. by destruct (_ <=? _). Qed.

Lemma pauseAutoPlay_timer (u : Page.t) :
  one_timer u → timer_part (Page.pauseAutoPlay u) = (false, None, []).
Proof.
  unfold one_timer, timer_part, Page.pauseAutoPlay. page_simpl.
  destruct (Page.isPlaying u).
  - intros (id & -> & Hint). page_simpl.
    destruct (Page.intervals u) as [|[id' d] [|? ?]]; simpl in Hint;
      [done| |done].
    injection Hint as ->.
    rewrite filter_cons_False by (simpl; auto). done.
  - intros [-> ->]. done.
Qed.

Lemma startAutoPlay_timer (u : Page.t) :
  Page.isPlaying u = false → one_timer u → one_timer (Page.startAutoPlay u).
Proof.
  unfold one_timer. intros -> [Hpi Hint]. unfold Page.startAutoPlay.
  destruct (_ >=? _); page_simpl; rewrite Hint; eauto.
Qed.

Lemma setSpeed_timer (d : Z) (u : Page.t) :
  one_timer u → one_timer (Page.setSpeed d u).
Proof.
  unfold one_timer, Page.setSpeed. page_simpl.
  destruct (Page.isPlaying u) eqn:Hplay.
  - intros (id & -> & Hint). page_simpl.
    destruct (Page.intervals u) as [|[id' d'] [|? ?]]; simpl in Hint;
      [done| |done].
    injection Hint as ->.
    rewrite filter_cons_False by (simpl; auto). simpl. eauto.
  - intros [-> ->]. done.
Qed.

Lemma autoPlayTick_timer (u : Page.t) :
  one_timer u → one_timer (after (Page.autoPlayTick u)).
Proof.
  intros Hone. unfold Page.autoPlayTick. destruct (_ >=? _).
  - simpl. by apply one_timer_idle, pauseAutoPlay_timer.
  - eapply one_timer_ext; [apply addLogEntry_timer | done].
Qed.

(** X23. At most one interval is ever armed, and it is armed exactly while
    [state.isPlaying] holds, as long as [startAutoPlay] is not entered while
    the playback is running: every event keeps this, provided that the
    [Play] button is disabled whenever the page is playing. *)
Theorem events_keep_one_timer (e : Page.event) (u : Page.t) :
  one_timer u →
  (Page.isPlaying u = true → Buttons.playBtn (Page.buttons u) = true) →
  one_timer (after (Page.handle e u)).
Proof.
  intros Hone Hbtn.
  assert (one_timer (Page.pauseAutoPlay u)) as Hpause.
  { by apply one_timer_idle, pauseAutoPlay_timer. }
  destruct e as [fv text| | | | | | |d|k|id]; simpl.
  - eapply one_timer_ext; [apply loadAndValidate_timer | done].
  - unfold Page.resetSimulator. eapply one_timer_ext; [|exact Hpause]. done.
  - destruct (Buttons.startBtn _); [done|].
    eapply one_timer_ext; [apply startSimulation_timer | done].
  - destruct (Buttons.prevBtn _); [done|].
    eapply one_timer_ext; [apply previousStep_timer | done].
  - destruct (Buttons.nextBtn _); [done|].
    eapply one_timer_ext; [apply nextStep_timer | done].
  - destruct (Buttons.playBtn _) eqn:Hplay; [done|]. simpl.
    apply startAutoPlay_timer; [|done].
    destruct (Page.isPlaying u); [|done]. by specialize (Hbtn eq_refl).
  - destruct (Buttons.pauseBtn _); done.
  - by apply setSpeed_timer.
  - destruct (negb _); [done|]. destruct k; simpl.
    + eapply one_timer_ext; [apply previousStep_timer | done].
    + eapply one_timer_ext; [apply nextStep_timer | done].
    + destruct (Page.isPlaying u) eqn:Hplay; simpl; [done|].
      by apply startAutoPlay_timer.
    + done.
  - destruct (bool_decide _); [|done]. by apply autoPlayTick_timer.
Qed.

(** X24. The keyboard starts the playback without looking at the buttons, and
    [Start] enables [Play] without looking at the playback.  So on a loaded,
    paused page with at least two steps, the events Space, Start, Play,
    Pause arm two intervals and disarm only the second: the page says it is
    paused, [state.playInterval] is empty, yet the first interval is still
    armed, and its next firing moves the cursor from step 0 to step 1. *)
Theorem pause_can_leave_an_interval_armed (u : Page.t) :
  Page.isPlaying u = false → Page.playInterval u = None →
  Page.intervals u = [] →
  State.isLoaded (Page.state u) = true →
  Buttons.startBtn (Page.buttons u) = false →
  1 < Page.steps u →
  let id := Page.nextTimer u in
  let u' :=
    Page.run [Page.Keydown Page.Space; Page.Click_start; Page.Click_play;
              Page.Click_pause] u in
  Page.isPlaying u' = false ∧ Page.playInterval u' = None ∧
  Page.intervals u' = [(id, Page.speed u)] ∧
  Page.currentStep u' = 0 ∧
  Page.currentStep (after (Page.handle (Page.Interval_fires id) u')) = 1.
Proof.
  intros Hplay Hpi Hint Hloaded Hstart Hsteps. cbv zeta.
  set (id := Page.nextTimer u).
  destruct (lookup_lt_is_Some_2 (State.stateHistory (Page.state u)) 0)
    as [r0 Hr0].
  { unfold Page.steps in Hsteps. lia. }
  destruct (lookup_lt_is_Some_2 (State.stateHistory (Page.state u)) 1)
    as [r1 Hr1].
  { unfold Page.steps in Hsteps. lia. }
  assert ((Page.steps u <=? 1) = false) as Hle by (apply Z.leb_gt; lia).
  assert ((0 >=? Page.steps u - 1) = false) as Hge
    by (rewrite Z.geb_leb; apply Z.leb_gt; lia).
  assert (id ≠ Pos.succ id) as Hfresh by apply Pos.succ_discr.
  change (Page.run [Page.Keydown Page.Space; Page.Click_start;
                    Page.Click_play; Page.Click_pause] u)
    with (after (Page.handle Page.Click_pause
           (after (Page.handle Page.Click_play
             (after (Page.handle Page.Click_start
               (after (Page.handle (Page.Keydown Page.Space) u)))))))).
  assert (after (Page.handle (Page.Keydown Page.Space) u)
            = Page.startAutoPlay u) as ->.
  { simpl. by rewrite Hloaded, Hplay. }
  remember (Page.startAutoPlay u) as ua eqn:Hua.
  assert (State.isLoaded (Page.state ua) = true ∧
          State.stateHistory (Page.state ua)
            = State.stateHistory (Page.state u) ∧
          Buttons.startBtn (Page.buttons ua) = false ∧
          Page.isPlaying ua = true ∧
          Page.playInterval ua = Some id ∧
          Page.intervals ua = [(id, Page.speed u)] ∧
          Page.nextTimer ua = Pos.succ id ∧
          Page.speed ua = Page.speed u)
    as (Ha1 & Ha2 & Ha3 & Ha4 & Ha5 & Ha6 & Ha7 & Ha8).
  { rewrite Hua. unfold Page.startAutoPlay.
    destruct (Page.currentStep u >=? Page.steps u - 1);
      page_simpl; rewrite Hint; done. }
  assert (Page.steps ua = Page.steps u) as Ha9
    by (unfold Page.steps; by rewrite Ha2).
  assert (after (Page.handle Page.Click_start ua) =
            Page.mk (with_currentStep 0 (Page.state ua)) true (Some id)
              (Page.speed u) [(id, Page.speed u)] (Pos.succ id)
              (Buttons.mk true true false false true)
              [log_entry_of r0] (Page.notices ua)) as ->.
  { simpl. rewrite Ha3.
    rewrite (startSimulation_loaded ua r0) by (done || by rewrite Ha2).
    simpl. rewrite Ha4, Ha5, Ha6, Ha7, Ha8, Ha9, Hle. done. }
  set (ub := Page.mk _ _ _ _ _ _ _ _ _).
  assert (after (Page.handle Page.Click_play ub) =
            Page.mk (with_currentStep 0 (Page.state ua)) true
              (Some (Pos.succ id)) (Page.speed u)
              [(id, Page.speed u); (Pos.succ id, Page.speed u)]
              (Pos.succ (Pos.succ id))
              (Buttons.mk true true true true false)
              [log_entry_of r0] (Page.notices ua)) as ->.
  { unfold ub. simpl. unfold Page.startAutoPlay. page_simpl.
    rewrite Ha2, Hge. done. }
  clear ub. set (uc := Page.mk _ _ _ _ _ _ _ _ _).
  assert (after (Page.handle Page.Click_pause uc) =
            Page.mk (with_currentStep 0 (Page.state ua)) false None
              (Page.speed u) [(id, Page.speed u)] (Pos.succ (Pos.succ id))
              (Buttons.mk true true false false true)
              [log_entry_of r0] (Page.notices ua)) as ->.
  { unfold uc. simpl. unfold Page.pauseAutoPlay. page_simpl.
    rewrite filter_cons_True by (simpl; done).
    rewrite filter_cons_False by (simpl; auto).
    rewrite Ha2, Hge. done. }
  clear uc. simpl.
  do 4 (split; [done|]).
  rewrite bool_decide_eq_true_2 by (apply list_elem_of_singleton; done).
  unfold Page.autoPlayTick. page_simpl. rewrite Ha2, Hge.
  unfold Page.history_at. page_simpl. rewrite Ha2.
  change (Z.to_nat (0 + 1)) with 1%nat. rewrite Hr1. done.
Qed.

(** X25. After [Reset] on a page in the normal state of the timer, the
    simulation state is empty but for the frame count, which stays as it
    was; nothing is armed, the log is empty and the five playback buttons
    are disabled; and then no click on a playback button, no key and no
    firing changes anything: only Load, Reset and the speed buttons still
    act. *)
Theorem after_reset_playback_is_inert (u : Page.t) :
  one_timer u →
  let u' := Page.resetSimulator u in
  Page.state u' = State.mk (State.frames (Page.state u)) [] [] (-1) false 0 0 ∧
  Page.isPlaying u' = false ∧ Page.playInterval u' = None ∧
  Page.intervals u' = [] ∧ Page.log u' = [] ∧
  Page.buttons u' = Buttons.mk true true true true true ∧
  ∀ e : Page.event,
    (∀ fv text, e ≠ Page.Click_load fv text) → e ≠ Page.Click_reset →
    (∀ d, e ≠ Page.Click_speed d) →
    Page.handle e u' = Done u'.
Proof.
  intros Hone. cbv zeta. remember (Page.resetSimulator u) as u' eqn:Hu'.
  pose proof (pauseAutoPlay_timer u Hone) as Hp.
  unfold timer_part in Hp. injection Hp as Hp1 Hp2 Hp3.
  assert (Page.state u' =
            State.mk (State.frames (Page.state u)) [] [] (-1) false 0 0 ∧
          Page.isPlaying u' = false ∧ Page.playInterval u' = None ∧
          Page.intervals u' = [] ∧ Page.log u' = [] ∧
          Page.buttons u' = Buttons.mk true true true true true)
    as (H1 & H2 & H3 & H4 & H5 & H6).
  { rewrite Hu'. unfold Page.resetSimulator. page_simpl.
    rewrite Hp1, Hp2, Hp3. split; [|done].
    unfold Page.pauseAutoPlay. page_simpl.
    by destruct (Page.playInterval u). }
  do 6 (split; [done|]).
  intros e Hload Hreset Hspeed.
  destruct e as [fv text| | | | | | |d|k|id].
  - by destruct (Hload fv text).
  - done.
  - simpl. by rewrite H6.
  - simpl. by rewrite H6.
  - simpl. by rewrite H6.
  - simpl. by rewrite H6.
  - simpl. by rewrite H6.
  - by destruct (Hspeed d).
  - simpl. by rewrite H1.
  - unfold Page.handle. by rewrite H4.
Qed.

(** * Properties of the views *)

(** X26. With a frameCount from 1 to 2^32 - 1, the log entry of a record of
    the engine tells what the engine did: a hit; or a load into an empty
    frame, whose number (counted from 1) is the height of the stack after
    the load; or a replacement, which is always in the last frame, number
    frameCount, and names a page as replaced.  After a fault the stack is
    displayed with the requested page on top. *)
Theorem log_entry_tells_the_step (s : State.t) :
  1 <= State.frames s →
  State.frames s < 4294967296 →
  ∃ s' : State.t,
    buildStateHistory s = Normal s' ∧
    ∀ r : StepData.t, r ∈ State.stateHistory s' →
      (StepData.isHit r = true →
       LogEntry.message (log_entry_of r) = Log_hit) ∧
      (StepData.isFault r = true →
       (LogEntry.message (log_entry_of r) =
          Log_loaded (Z.of_nat (length (StepData.stack r)))
        ∨ ∃ victim : Z,
            LogEntry.message (log_entry_of r) =
              Log_replaced (JNum victim) (State.frames s)) ∧
       head (LogEntry.stackDisplay (log_entry_of r)) = Some (StepData.page r)).
Proof.
  intros Hn Hmax. eexists. split; [apply buildStateHistory_normal; lia|].
  intros r Hr.
  apply (history_elem_cases s r Hn) in Hr as (i & page & Hi & -> & Hcoh & Hp).
  destruct (process_cases _ (Z.of_nat i) page _ Hn Hcoh Hp)
    as [[_ ->]|[(_ & _ & _ & ->)|(_ & _ & below & victim & _ & Hlen & ->)]];
    unfold log_entry_of; simpl.
  - done.
  - split; [done|]. intros _. split.
    + left. rewrite length_app. simpl. f_equal. lia.
    + by rewrite reverse_app.
  - split; [done|]. intros _. split.
    + right. exists victim. f_equal. lia.
    + by rewrite reverse_app.
Qed.

(** Membership in an explicit list of classes. *)
Ltac cell_present :=
  solve [repeat first [apply list_elem_of_here | apply list_elem_of_further]].

Ltac cell_absent :=
  let H := fresh in
  intros H;
  repeat (apply elem_of_cons in H as [H|H]; [discriminate H|]);
  by apply elem_of_nil in H.

(** X27. With a frameCount from 1 to 2^32 - 1, in the column of the cursor
    the table marks one cell: on a hit, the class [cell-hit] is on the cell
    of the one frame that holds the requested page, and no cell is marked
    new or replaced; on a fault, the class [cell-new] is on the cell of
    [newPageIndex] only, and [cell-replaced] is on that same cell exactly
    when a page was evicted. *)
Theorem table_marks_one_cell (s : State.t) (c : nat) (r : StepData.t) :
  1 <= State.frames s →
  State.frames s < 4294967296 →
  ∃ s' : State.t,
    buildStateHistory s = Normal s' ∧
    (State.stateHistory s' !! c = Some r →
     let shown := with_currentStep (Z.of_nat c) s' in
     (StepData.isHit r = true →
      ∃ slot : Z,
        0 <= slot < State.frames s ∧
        ∀ f : Z, 0 <= f < State.frames s →
          (cell_hit ∈ cell_classes shown (Z.of_nat c) f ↔ f = slot) ∧
          (cell_new ∉ cell_classes shown (Z.of_nat c) f) ∧
          (cell_replaced ∉ cell_classes shown (Z.of_nat c) f)) ∧
     (StepData.isFault r = true →
      0 <= StepData.newPageIndex r < State.frames s ∧
      ∀ f : Z, 0 <= f < State.frames s →
        (cell_hit ∉ cell_classes shown (Z.of_nat c) f) ∧
        (cell_new ∈ cell_classes shown (Z.of_nat c) f
         ↔ f = StepData.newPageIndex r) ∧
        (cell_replaced ∈ cell_classes shown (Z.of_nat c) f
         ↔ f = StepData.newPageIndex r ∧ StepData.replacedPage r ≠ JNull))).
Proof.
  intros Hn Hmax. eexists. split; [apply buildStateHistory_normal; lia|].
  intros Hr. cbv zeta.
  assert (∀ f, cell_classes
                 (with_currentStep (Z.of_nat c)
                    (g (for_loop 0 (State.referenceString s) (entry s))))
                 (Z.of_nat c) f =
               [current_step] ++
               (if StepData.isHit r &&
                   bool_decide (frame_at r f = JNum (StepData.page r))
                then [cell_hit] else []) ++
               (if StepData.isFault r then
                  (if f =? StepData.newPageIndex r
                   then [cell_fault; cell_new] else []) ++
                  (if (f =? StepData.replacedIndex r) &&
                      bool_decide (StepData.replacedPage r ≠ JNull)
                   then [cell_replaced] else [])
                else [])) as Hcls.
  { intros f. unfold cell_classes. simpl.
    rewrite Z.eqb_refl. simpl.
    destruct (Z.ltb_spec (Z.of_nat c) 0); [lia|].
    by rewrite Nat2Z.id, Hr. }
  pose proof (list_elem_of_lookup_2 _ _ _ Hr) as Hin.
  apply (history_elem_cases s r Hn) in Hin
    as (i & page & Hi & -> & Hcoh & Hp).
  pose proof (packed_length _ _ _ Hp) as Hlen.
  destruct (process_cases _ (Z.of_nat i) page _ Hn Hcoh Hp)
    as [[Hres Hproc]|[(_ & _ & Hlt & Hproc)
                     |(_ & _ & below & victim & _ & Hb & Hproc)]];
    rewrite Hproc in Hcls |- *; simpl in Hcls |- *; clear Hproc.
  - split; [|done]. intros _.
    apply list_elem_of_lookup in Hres as [k Hk].
    pose proof (lookup_lt_Some _ _ _ Hk) as Hklt.
    exists (Z.of_nat k). split; [lia|].
    intros f Hf. rewrite Hcls. clear Hcls.
    unfold frame_at. simpl. destruct (Z.ltb_spec f 0); [lia|].
    case_bool_decide as Hfr; simpl.
    + split; [|split; cell_absent].
      split; [intros _|intros _; cell_present].
      destruct (frames (env_before s i) !! Z.to_nat f) as [v|] eqn:Hv;
        simpl in Hfr; [|done]. subst v.
      pose proof (coh_slots _ _ _ Hcoh _ _ _ Hv Hk). lia.
    + split; [|split; cell_absent].
      split; [cell_absent|]. intros ->. exfalso. apply Hfr.
      by rewrite Nat2Z.id, Hk.
  - split; [done|]. intros _. split; [lia|].
    intros f Hf. rewrite Hcls. clear Hcls.
    destruct (Z.eqb_spec f (-1)); [lia|].
    destruct (Z.eqb_spec f (Z.of_nat (length (stack (env_before s i)))));
      simpl.
    + split; [cell_absent|]. split.
      * split; [done | intros _; cell_present].
      * split; [cell_absent | by intros [_ ?]].
    + split; [cell_absent|]. split.
      * split; [cell_absent | done].
      * split; [cell_absent | by intros [? _]].
  - split; [done|]. intros _. split; [lia|].
    intros f Hf. rewrite Hcls. clear Hcls.
    destruct (Z.eqb_spec f (State.frames s - 1)); simpl.
    + split; [cell_absent|]. split.
      * split; [done | intros _; cell_present].
      * split; [done | intros _; cell_present].
    + split; [cell_absent|]. split.
      * split; [cell_absent | done].
      * split; [cell_absent | by intros [? _]].
Qed.

(** * The further properties at concrete inputs *)

(** Evaluates a decidable statement about concrete values. *)
Ltac by_compute := apply (bool_decide_unpack _); vm_compute; exact I.

Lemma frames_spell_the_stack_witness :
  let s := State.mk 3 [7; 0; 1; 2] [] (-1) false 0 0 in
  1 <= State.frames s ∧ State.frames s < 4294967296 ∧
  ∃ s' : State.t, buildStateHistory s = Normal s'.
Proof.
  intros s. assert (1 <= State.frames s) as H by by_compute.
  assert (State.frames s < 4294967296) as Hm by by_compute.
  do 2 (split; [assumption|]).
  destruct (frames_spell_the_stack s H Hm) as (s' & Hb & _). by exists s'.
Defined.

Lemma eviction_hits_last_slot_witness :
  let s := State.mk 3 [7; 0; 1; 2] [] (-1) false 0 0 in
  1 <= State.frames s ∧ State.frames s < 4294967296 ∧
  ∃ s' : State.t, buildStateHistory s = Normal s'.
Proof.
  intros s. assert (1 <= State.frames s) as H by by_compute.
  assert (State.frames s < 4294967296) as Hm by by_compute.
  do 2 (split; [assumption|]).
  destruct (eviction_hits_last_slot s H Hm) as (s' & Hb & _). by exists s'.
Defined.

Lemma early_slots_never_change_witness :
  let s := State.mk 3 [7; 0; 1; 2] [] (-1) false 0 0 in
  1 <= State.frames s ∧ State.frames s < 4294967296 ∧
  ∃ s' : State.t, buildStateHistory s = Normal s'.
Proof.
  intros s. assert (1 <= State.frames s) as H by by_compute.
  assert (State.frames s < 4294967296) as Hm by by_compute.
  do 2 (split; [assumption|]).
  destruct (early_slots_never_change s H Hm) as (s' & Hb & _). by exists s'.
Defined.

Lemma counters_count_the_records_witness :
  let s := State.mk 3 [7; 0; 1; 2; 0] [] (-1) false 0 0 in
  0 <= State.frames s ∧ State.frames s < 4294967296 ∧
  ∃ s' : State.t,
    buildStateHistory s = Normal s' ∧
    State.totalHits s' + State.totalFaults s' = 5.
Proof.
  intros s. assert (0 <= State.frames s) as H by by_compute.
  assert (State.frames s < 4294967296) as Hm by by_compute.
  do 2 (split; [assumption|]).
  destruct (counters_count_the_records s H Hm) as (s' & Hb & _ & _ & Hsum).
  by exists s'.
Defined.

Lemma renderStats_counts_up_to_cursor_witness :
  let s := State.mk 3 [7; 0; 1; 2; 0] [] (-1) false 0 0 in
  0 <= State.frames s ∧ State.frames s < 4294967296 ∧ -1 <= 2 ∧
  ∃ s' : State.t,
    buildStateHistory s = Normal s' ∧
    Stats.currentStep (renderStats (λ _ _, "") (with_currentStep 2 s')) = 3.
Proof.
  intros s. assert (0 <= State.frames s) as H by by_compute.
  assert (State.frames s < 4294967296) as Hm by by_compute.
  assert (-1 <= 2) as Hc by by_compute.
  do 3 (split; [assumption|]).
  destruct (renderStats_counts_up_to_cursor (λ _ _, "") s 2 H Hm Hc)
    as (s' & Hb & _ & Hcur & _).
  by exists s'.
Defined.

Lemma zero_frames_all_faults_witness :
  let s := State.mk 0 [7; 8] [] (-1) false 0 0 in
  State.frames s = 0 ∧ ∃ s' : State.t, buildStateHistory s = Normal s'.
Proof.
  intros s. assert (State.frames s = 0) as H by reflexivity.
  split; [exact H|].
  destruct (zero_frames_all_faults s H) as (s' & Hb & _). by exists s'.
Defined.

Lemma engine_ignores_previous_run_witness :
  let s1 := State.mk 3 [7; 0; 1] [] (-1) false 0 0 in
  let s2 := example_state in
  let s2 := State.mk 3 [7; 0; 1] (State.stateHistory s2) 5 true 9 9 in
  State.frames s1 = State.frames s2 ∧
  State.referenceString s1 = State.referenceString s2 ∧
  ∃ s1' s2' : State.t,
    buildStateHistory s1 = Normal s1' ∧ buildStateHistory s2 = Normal s2' ∧
    State.stateHistory s2' = State.stateHistory s1'.
Proof.
  intros s1 s2' s2.
  assert (State.frames s1 = State.frames s2) as H1 by reflexivity.
  assert (State.referenceString s1 = State.referenceString s2) as H2
    by reflexivity.
  do 2 (split; [assumption|]).
  destruct (engine_ignores_previous_run s1 s2 H1 H2 _ eq_refl)
    as (r2 & Hb & Hh & _).
  eexists _, r2. split; [reflexivity|]. split; [exact Hb | exact Hh].
Defined.

Lemma requested_page_is_resident_witness :
  let s := State.mk 3 [7; 0; 1; 2] [] (-1) false 0 0 in
  1 <= State.frames s ∧ State.frames s < 4294967296 ∧
  ∃ s' : State.t, buildStateHistory s = Normal s'.
Proof.
  intros s. assert (1 <= State.frames s) as H by by_compute.
  assert (State.frames s < 4294967296) as Hm by by_compute.
  do 2 (split; [assumption|]).
  destruct (requested_page_is_resident s H Hm) as (s' & Hb & _). by exists s'.
Defined.

Lemma repeated_reference_hits_witness :
  let s := State.mk 2 [7; 0; 0] [] (-1) false 0 0 in
  1 <= State.frames s ∧ State.frames s < 4294967296 ∧
  State.referenceString s !! 1%nat = Some 0 ∧
  State.referenceString s !! 2%nat = Some 0 ∧
  ∃ (s' : State.t) (r : StepData.t),
    buildStateHistory s = Normal s' ∧
    State.stateHistory s' !! 2%nat = Some r ∧ StepData.isHit r = true.
Proof.
  intros s. assert (1 <= State.frames s) as H by by_compute.
  assert (State.frames s < 4294967296) as Hm by by_compute.
  assert (State.referenceString s !! 1%nat = Some 0) as H1 by reflexivity.
  assert (State.referenceString s !! 2%nat = Some 0) as H2 by reflexivity.
  do 4 (split; [assumption|]).
  destruct (repeated_reference_hits s 1 0 H Hm H1 H2) as (s' & r & Hb & Hr & Hh & _).
  by exists s', r.
Defined.

Lemma first_request_faults_witness :
  let s := State.mk 2 [7; 0; 7; 1] [] (-1) false 0 0 in
  0 <= State.frames s ∧ State.frames s < 4294967296 ∧
  State.referenceString s !! 3%nat = Some 1 ∧
  (1 ∉ take 3 (State.referenceString s)) ∧
  ∃ (s' : State.t) (r : StepData.t),
    buildStateHistory s = Normal s' ∧
    State.stateHistory s' !! 3%nat = Some r ∧ StepData.isFault r = true.
Proof.
  intros s. assert (0 <= State.frames s) as H by by_compute.
  assert (State.frames s < 4294967296) as Hm by by_compute.
  assert (State.referenceString s !! 3%nat = Some 1) as H1 by reflexivity.
  assert (1 ∉ take 3 (State.referenceString s)) as H2 by by_compute.
  do 4 (split; [assumption|]).
  destruct (first_request_faults s 3 1 H Hm H1 H2) as (s' & r & Hb & Hr & Hf & _).
  by exists s', r.
Defined.

Lemma single_frame_holds_latest_witness :
  let s := State.mk 1 [7; 0] [] (-1) false 0 0 in
  State.frames s = 1 ∧
  State.referenceString s !! 0%nat = Some 7 ∧
  State.referenceString s !! 1%nat = Some 0 ∧
  ∃ (s' : State.t) (r : StepData.t),
    buildStateHistory s = Normal s' ∧
    State.stateHistory s' !! 1%nat = Some r ∧
    StepData.frames r = [JNum 0].
Proof.
  intros s. assert (State.frames s = 1) as H by reflexivity.
  assert (State.referenceString s !! 0%nat = Some 7) as H1 by reflexivity.
  assert (State.referenceString s !! 1%nat = Some 0) as H2 by reflexivity.
  do 3 (split; [assumption|]).
  destruct (single_frame_holds_latest s 0 7 0 H H1 H2)
    as (s' & r & Hb & Hr & Hfr & _).
  by exists s', r.
Defined.

Lemma enough_frames_no_eviction_witness :
  let s := State.mk 3 [7; 0; 7; 1; 0] [] (-1) false 0 0 in
  Z.of_nat (size (list_to_set (State.referenceString s) : gset Z))
    <= State.frames s ∧
  State.frames s < 4294967296 ∧
  ∃ s' : State.t, buildStateHistory s = Normal s'.
Proof.
  intros s.
  assert (Z.of_nat (size (list_to_set (State.referenceString s) : gset Z))
            <= State.frames s) as H by by_compute.
  assert (State.frames s < 4294967296) as Hm by by_compute.
  do 2 (split; [assumption|]).
  destruct (enough_frames_no_eviction s H Hm) as (s' & Hb & _). by exists s'.
Defined.

Lemma loadAndValidate_accepts_separated_digits_witness :
  let items := [("7", ", "); ("10", "  "); ("3", "")]%string in
  1 <= 3 <= 10 ∧
  all_separators " ," = true ∧
  well_separated items ∧ items ≠ [] ∧
  Forall (λ t, all_digits t = true) items.*1 ∧
  Forall (λ t, parseInt_digits t < 9007199254740992) items.*1 ∧
  ∃ s' : State.t,
    loadAndValidate (Some 3) (" ," +:+ interleave items) State.initial =
      (Normal s', Some (Alert_loaded 3 3)) ∧
    State.referenceString s' = [7; 10; 3].
Proof.
  intros items.
  assert (1 <= 3 <= 10) as H1 by by_compute.
  assert (all_separators " ," = true) as H2 by reflexivity.
  assert (well_separated items) as H3
    by (simpl; repeat split;
        first [reflexivity | discriminate | intros _; discriminate
              | intros Hnil; contradiction]).
  assert (items ≠ []) as H4 by discriminate.
  assert (Forall (λ t, all_digits t = true) items.*1) as H5
    by (repeat constructor).
  assert (Forall (λ t, parseInt_digits t < 9007199254740992) items.*1) as H6
    by (repeat constructor).
  do 6 (split; [assumption|]).
  destruct (loadAndValidate_accepts_separated_digits 3 " ," items
              State.initial H1 H2 H3 H4 H5 H6) as (s' & Hl & _ & _ & Hrefs & _).
  by exists s'.
Defined.

Lemma loadAndValidate_reads_back_joined_numbers_witness :
  1 <= 3 <= 10 ∧ [7; 10; 3] ≠ [] ∧
  Forall (λ p, 0 <= p < 9007199254740992) [7; 10; 3] ∧
  ∃ s' : State.t,
    loadAndValidate (Some 3) (join_space (number_text <$> [7; 10; 3]))
      State.initial = (Normal s', Some (Alert_loaded 3 3)) ∧
    State.referenceString s' = [7; 10; 3].
Proof.
  assert (1 <= 3 <= 10) as H1 by by_compute.
  assert ([7; 10; 3] ≠ []) as H2 by discriminate.
  assert (Forall (λ p, 0 <= p < 9007199254740992) [7; 10; 3]) as H3
    by (repeat constructor; lia).
  do 3 (split; [assumption|]).
  destruct (loadAndValidate_reads_back_joined_numbers 3 [7; 10; 3]
              State.initial H1 H2 H3) as (s' & Hl & Hrefs & _).
  by exists s'.
Defined.

Lemma generated_string_always_loads_witness :
  0 <= 2 <= 5 ∧ (∀ i : nat, 0 <= Z.of_nat i `mod` 9 <= 8) ∧ 1 <= 3 <= 10 ∧
  ∃ s' : State.t,
    loadAndValidate (Some 3)
      (generateRandomString 2 (λ i, Z.of_nat i `mod` 9)) State.initial =
      (Normal s', Some (Alert_loaded (2 + 8) 3)).
Proof.
  assert (0 <= 2 <= 5) as H1 by by_compute.
  assert (∀ i : nat, 0 <= Z.of_nat i `mod` 9 <= 8) as H2
    by (intros i; pose proof (Z.mod_pos_bound (Z.of_nat i) 9); lia).
  assert (1 <= 3 <= 10) as H3 by by_compute.
  do 3 (split; [assumption|]).
  destruct (generated_string_always_loads 2 (λ i, Z.of_nat i `mod` 9) 3
              State.initial H1 H2 H3) as (s' & Hl & _).
  by exists s'.
Defined.

Lemma successful_load_state_witness :
  Forall (λ t, parseInt_digits t < 9007199254740992) (tokens (trim "7 0 1")) ∧
  ∃ s' : State.t,
    loadAndValidate (Some 3) "7 0 1" State.initial =
      (Normal s', Some (Alert_loaded 3 3)) ∧
    State.currentStep s' = -1.
Proof.
  assert (Forall (λ t, parseInt_digits t < 9007199254740992)
            (tokens (trim "7 0 1"))) as H by by_compute.
  split; [exact H|].
  destruct (successful_load_state (Some 3) "7 0 1" State.initial _ 3 3 H eq_refl)
    as (s' & Hc & _ & _ & _ & _ & _ & _ & _ & _ & Hcur).
  exists s'. split; [|exact Hcur].
  injection Hc as <-. reflexivity.
Defined.

Lemma navigation_keeps_cursor_on_a_step_witness :
  let u := Page.set_currentStep 2 example_page in
  0 <= Page.currentStep u < Page.steps u ∧
  Page.currentStep (Page.previousStep u) = 1.
Proof.
  intros u.
  assert (0 <= Page.currentStep u < Page.steps u) as H by by_compute.
  split; [exact H|].
  destruct (navigation_keeps_cursor_on_a_step u H) as [_ (Hprev & _)].
  exact Hprev.
Defined.

Lemma back_and_forth_lengthens_the_log_witness :
  let u := Page.set_currentStep 2 example_page in
  0 <= Page.currentStep u < Page.steps u ∧
  Page.currentStep u < Page.steps u - 1 ∧
  ∃ u1 : Page.t,
    Page.nextStep u = Done u1 ∧
    Page.state (Page.previousStep u1) = Page.state u.
Proof.
  intros u.
  assert (0 <= Page.currentStep u < Page.steps u) as H by by_compute.
  assert (Page.currentStep u < Page.steps u - 1) as H' by by_compute.
  do 2 (split; [assumption|]).
  destruct (back_and_forth_lengthens_the_log u H) as [Hforth _].
  destruct (Hforth H') as (u1 & Hn & Hst & _). by exists u1.
Defined.

Lemma start_after_loading_no_pages_throws_witness :
  1 <= 3 <= 10 ∧ all_separators " , " = true ∧ trim " , " ≠ EmptyString ∧
  ∃ u1 u2 : Page.t,
    Page.handle (Page.Click_load (Some 3) " , ") example_page = Done u1 ∧
    Page.handle Page.Click_start u1 = Failed TypeError u2.
Proof.
  assert (1 <= 3 <= 10) as H1 by by_compute.
  assert (all_separators " , " = true) as H2 by reflexivity.
  assert (trim " , " ≠ EmptyString) as H3 by discriminate.
  do 3 (split; [assumption|]).
  destruct (start_after_loading_no_pages_throws example_page 3 " , " H1 H2 H3)
    as (u1 & u2 & Hl & _ & _ & _ & _ & Hs & _).
  by exists u1, u2.
Defined.

Lemma forward_steps_fill_the_log_witness :
  State.isLoaded (Page.state example_page) = true ∧
  Buttons.startBtn (Page.buttons example_page) = false ∧
  Z.of_nat 3 < Page.steps example_page ∧
  Page.state
    (Page.run (Page.Click_start :: replicate 3 Page.Click_next) example_page)
  = with_currentStep (Z.of_nat 3) (Page.state example_page).
Proof.
  assert (State.isLoaded (Page.state example_page) = true) as H1
    by reflexivity.
  assert (Buttons.startBtn (Page.buttons example_page) = false) as H2
    by reflexivity.
  assert (Z.of_nat 3 < Page.steps example_page) as H3 by by_compute.
  do 3 (split; [assumption|]).
  exact (proj1 (forward_steps_fill_the_log example_page 3 H1 H2 H3)).
Defined.

Lemma autoplay_runs_to_the_last_step_and_stops_witness :
  let u := Page.set_currentStep 0 example_page in
  Page.isPlaying u = false ∧ Page.playInterval u = None ∧
  Page.intervals u = [] ∧ 0 < Page.steps u ∧ -1 <= Page.currentStep u ∧
  Page.isPlaying (Page.startAutoPlay u) = true.
Proof.
  intros u.
  assert (Page.isPlaying u = false) as H1 by reflexivity.
  assert (Page.playInterval u = None) as H2 by reflexivity.
  assert (Page.intervals u = []) as H3 by reflexivity.
  assert (0 < Page.steps u) as H4 by by_compute.
  assert (-1 <= Page.currentStep u) as H5 by by_compute.
  do 5 (split; [assumption|]).
  exact (proj1 (autoplay_runs_to_the_last_step_and_stops u H1 H2 H3 H4 H5)).
Defined.

Lemma events_keep_one_timer_witness :
  one_timer example_page ∧
  (Page.isPlaying example_page = true →
   Buttons.playBtn (Page.buttons example_page) = true) ∧
  one_timer (after (Page.handle (Page.Keydown Page.Space) example_page)).
Proof.
  assert (one_timer example_page) as H1 by (split; reflexivity).
  assert (Page.isPlaying example_page = true →
          Buttons.playBtn (Page.buttons example_page) = true) as H2
    by (intros _; reflexivity).
  do 2 (split; [assumption|]).
  exact (events_keep_one_timer (Page.Keydown Page.Space) example_page H1 H2).
Defined.

Lemma pause_can_leave_an_interval_armed_witness :
  Page.isPlaying example_page = false ∧
  Page.playInterval example_page = None ∧
  Page.intervals example_page = [] ∧
  State.isLoaded (Page.state example_page) = true ∧
  Buttons.startBtn (Page.buttons example_page) = false ∧
  1 < Page.steps example_page ∧
  Page.isPlaying
    (Page.run [Page.Keydown Page.Space; Page.Click_start; Page.Click_play;
               Page.Click_pause] example_page) = false.
Proof.
  assert (Page.isPlaying example_page = false) as H1 by reflexivity.
  assert (Page.playInterval example_page = None) as H2 by reflexivity.
  assert (Page.intervals example_page = []) as H3 by reflexivity.
  assert (State.isLoaded (Page.state example_page) = true) as H4
    by reflexivity.
  assert (Buttons.startBtn (Page.buttons example_page) = false) as H5
    by reflexivity.
  assert (1 < Page.steps example_page) as H6 by by_compute.
  do 6 (split; [assumption|]).
  exact (proj1 (pause_can_leave_an_interval_armed example_page
                  H1 H2 H3 H4 H5 H6)).
Defined.

Lemma after_reset_playback_is_inert_witness :
  one_timer example_page ∧
  Page.intervals (Page.resetSimulator example_page) = [].
Proof.
  assert (one_timer example_page) as H1 by (split; reflexivity).
  split; [assumption|].
  destruct (after_reset_playback_is_inert example_page H1)
    as (_ & _ & _ & Hint & _).
  exact Hint.
Defined.

Lemma log_entry_tells_the_step_witness :
  let s := State.mk 3 [7; 0; 1; 2] [] (-1) false 0 0 in
  1 <= State.frames s ∧ State.frames s < 4294967296 ∧
  ∃ s' : State.t, buildStateHistory s = Normal s'.
Proof.
  intros s. assert (1 <= State.frames s) as H by by_compute.
  assert (State.frames s < 4294967296) as Hm by by_compute.
  do 2 (split; [assumption|]).
  destruct (log_entry_tells_the_step s H Hm) as (s' & Hb & _). by exists s'.
Defined.

Lemma table_marks_one_cell_witness :
  let s := State.mk 3 [7; 0; 1; 2] [] (-1) false 0 0 in
  1 <= State.frames s ∧ State.frames s < 4294967296 ∧
  ∃ s' : State.t, buildStateHistory s = Normal s'.
Proof.
  intros s. assert (1 <= State.frames s) as H by by_compute.
  assert (State.frames s < 4294967296) as Hm by by_compute.
  do 2 (split; [assumption|]).
  destruct (table_marks_one_cell s 3
              (StepData.mk 4 2 [JNum 7; JNum 0; JNum 2] [7; 0; 2]
                 false true (JNum 1) 2 2) H Hm) as (s' & Hb & _).
  by exists s'.
Defined.
